(** * server.js of the Yasha Tech portal: a shallow embedding

    The backend keeps every collection in one JSON document on disk
    ([loadJson] / [saveJson]) and every route loads a collection, scans
    or mutates it and writes it back.  The embedding follows the source
    top to bottom:

    - the values of the language the routes compute with (strings as
      sequences of UTF-16 code units, numbers as binary64 floats, arrays,
      objects as ordered property lists);
    - the built-ins the source calls: [Number], [JSON.stringify] with
      indent 2, [JSON.parse], [Array.prototype.find] and friends;
    - the document store and the routes, in a state-and-exception monad
      over the data directory and the console. *)

From Stdlib Require Import ZArith NArith List Lia Floats String Ascii Permutation Sorted.
From stdpp Require Import base option list gmap.
From Stdlib Require Import QArith Qpower Qround Lqa.

Close Scope Q_scope.
Set Warnings "-register-all,-inexact-float".

(** ** Strings

    A string is its sequence of UTF-16 code units, the way the
    language indexes and compares it. *)

Definition jsstring := list N.

Fixpoint js (s : string) : jsstring :=
  match s with
  | EmptyString => []
  | String a r => N_of_ascii a :: js r
  end.
Arguments js s%_string : simpl never.

Section Characters.
Local Open Scope N_scope.

Definition is_digit (c : N) : bool := (48 <=? c) && (c <=? 57).

(** The characters a decimal literal is written with: digits, sign, dot, e. *)
Definition is_numchar (c : N) : bool :=
  is_digit c || (c =? 43) || (c =? 45) || (c =? 46) || (c =? 101) || (c =? 69).

Definition is_exp_mark (c : N) : bool := (c =? 101) || (c =? 69).

(** JSON white space: space, tab, line feed, carriage return. *)
Definition is_ws (c : N) : bool :=
  (c =? 32) || (c =? 9) || (c =? 10) || (c =? 13).

(** StrWhiteSpaceChar of the language: WhiteSpace and LineTerminator. *)
Definition is_str_ws (c : N) : bool :=
  (c =? 9) || (c =? 10) || (c =? 11) || (c =? 12) || (c =? 13) || (c =? 32)
  || (c =? 160) || (c =? 5760) || ((8192 <=? c) && (c <=? 8202))
  || (c =? 8232) || (c =? 8233) || (c =? 8239) || (c =? 8287)
  || (c =? 12288) || (c =? 65279).

Definition is_high_surrogate (c : N) : bool := (55296 <=? c) && (c <=? 56319).
Definition is_low_surrogate (c : N) : bool := (56320 <=? c) && (c <=? 57343).

Definition hex_digit (d : N) : N := if d <? 10 then 48 + d else 87 + d.

Definition hex_value (c : N) : option N :=
  if is_digit c then Some (c - 48)
  else if (97 <=? c) && (c <=? 102) then Some (c - 87)
  else if (65 <=? c) && (c <=? 70) then Some (c - 55)
  else None.

End Characters.

(** [span p s]: the longest prefix of [s] whose characters satisfy [p],
    and what follows it. *)
Fixpoint span (p : N → bool) (s : jsstring) : jsstring * jsstring :=
  match s with
  | [] => ([], [])
  | c :: r => if p c then let '(a, b) := span p r in (c :: a, b) else ([], s)
  end.

Fixpoint strip_prefix (pre s : jsstring) : option jsstring :=
  match pre, s with
  | [], _ => Some s
  | c :: pre', d :: s' => if (c =? d)%N then strip_prefix pre' s' else None
  | _ :: _, [] => None
  end.

(** [s] without its first character when that is [c]. *)
Definition strip_char (c : N) (s : jsstring) : option jsstring :=
  match s with
  | d :: r => if (d =? c)%N then Some r else None
  | [] => None
  end.

(** ** Numbers

    A Number is a binary64 float.  The two conversions the program relies
    on, Number::toString (through [JSON.stringify]) and the reading of a
    decimal literal (through [JSON.parse] and [Number]), are computed on
    exact integers: a finite float is [m * 2^e], a decimal literal is
    [d * 10^k]. *)

Section Decimal.
Local Open Scope Z_scope.

Fixpoint digits_value_from (acc : Z) (ds : jsstring) : Z :=
  match ds with
  | [] => acc
  | c :: r => digits_value_from (10 * acc + (Z.of_N c - 48)) r
  end.

Definition digits_value (ds : jsstring) : Z := digits_value_from 0 ds.

Fixpoint raw_digits (fuel : nat) (n : Z) (acc : jsstring) : jsstring :=
  match fuel with
  | O => acc
  | S f =>
    let acc' := Z.to_N (48 + n mod 10) :: acc in
    if n <? 10 then acc' else raw_digits f (n / 10) acc'
  end.

Fixpoint drop_zeros (ds : jsstring) : jsstring :=
  match ds with
  | 48%N :: r => drop_zeros r
  | _ => ds
  end.

(** The decimal digits of a natural number, most significant first. *)
Definition dec_digits (n : Z) : jsstring :=
  match drop_zeros (raw_digits (S (Z.to_nat (Z.log2 n))) n []) with
  | [] => [48%N]
  | ds => ds
  end.

(** Quotient of [num / den] rounded to the nearest integer, ties to even. *)
Definition round_half_even (num den : Z) : Z :=
  let q := num / den in
  let r := num mod den in
  if 2 * r <? den then q
  else if den <? 2 * r then q + 1
  else if Z.even q then q else q + 1.

(** [p / q * 2^(-e)] as a fraction. *)
Definition scale2 (p q e : Z) : Z * Z :=
  if 0 <=? e then (p, q * 2 ^ e) else (p * 2 ^ (- e), q).

(** [p / q * 10^(-t)] as a fraction. *)
Definition scale10 (p q t : Z) : Z * Z :=
  if 0 <=? t then (p, q * 10 ^ t) else (p * 10 ^ (- t), q).

(** The binary64 value nearest to the positive rational [p / q]
    (round to nearest, ties to even), in the canonical form of
    [Prim2SF]: a 53-bit mantissa, or exponent -1074 for subnormals. *)
Definition round_binary64 (neg : bool) (p q : Z) : spec_float :=
  let e0 := Z.log2 p - Z.log2 q - 52 in
  let '(n0, d0) := scale2 p q e0 in
  let e1 := if n0 / d0 <? 2 ^ 52 then e0 - 1 else e0 in
  let e := Z.max e1 (-1074) in
  let '(n, d) := scale2 p q e in
  let m := round_half_even n d in
  let '(m, e) := if m =? 2 ^ 53 then (2 ^ 52, e + 1) else (m, e) in
  match m with
  | Zpos pm => if 971 <? e then S754_infinity neg else S754_finite neg pm e
  | _ => S754_zero neg
  end.

(** The Number denoted by [d * 10^k] with sign [neg]. *)
Definition decimal_to_float (neg : bool) (d k : Z) : float :=
  if d <=? 0 then (if neg then PrimFloat.neg_zero else PrimFloat.zero)
  else let '(p, q) := scale10 d 1 (- k) in SF2Prim (round_binary64 neg p q).

End Decimal.

(** *** Number::toString

    For a finite non-zero [x] the language asks for integers [n], [k], [s]
    with [k >= 1], [10^(k-1) <= s < 10^k], [s * 10^(n-k)] reading back as
    [x], and [k] as small as possible (the closest such [s] when several
    qualify).  [shortest_digits] searches [k = 1 .. 17]; seventeen
    digits always identify a binary64 value. *)

Section NumberToString.
Local Open Scope Z_scope.

(** The least [n] among the candidates with [p / q < 10^n]. *)
Fixpoint first_exponent (p q : Z) (cands : list Z) (default : Z) : Z :=
  match cands with
  | [] => default
  | n :: r =>
    let '(a, b) := scale10 p q n in
    if a <? b then n else first_exponent p q r default
  end.

(** [n] with [10^(n-1) <= p / q < 10^n]. *)
Definition decimal_exponent (p q : Z) : Z :=
  let n0 := (Z.log2 p - Z.log2 q) * 30103 / 100000 in
  first_exponent p q [n0 - 1; n0; n0 + 1; n0 + 2] (n0 + 3).

(** Is [s] positive, and does [s * 10^t] read back as the float [sf]? *)
Definition reads_back (sf : spec_float) (s t : Z) : bool :=
  let '(a, b) := scale10 s 1 (- t) in
  (0 <? s) &&
  match sf, round_binary64 false a b with
  | S754_finite _ m e, S754_finite _ m' e' => (Zpos m =? Zpos m') && (e =? e')
  | _, _ => false
  end.

(** Among [s] and [s + 1], the one that reads back as [sf] and lies
    closest to [p / q] ([s] being the floor of [p / q * 10^(-t)]). *)
Definition pick_digits (sf : spec_float) (p q t : Z) : option Z :=
  let '(a, b) := scale10 p q t in
  let s := a / b in
  let r := a mod b in
  match reads_back sf s t, reads_back sf (s + 1) t with
  | true, true =>
    if 2 * r <? b then Some s
    else if b <? 2 * r then Some (s + 1)
    else if Z.even s then Some s else Some (s + 1)
  | true, false => Some s
  | false, true => Some (s + 1)
  | false, false => None
  end.

Fixpoint shortest_digits (sf : spec_float) (p q n : Z) (ks : list Z) : Z * Z :=
  match ks with
  | [] => let '(a, b) := scale10 p q (n - 17) in (Z.max 1 (a / b), n - 17)
  | k :: r =>
    match pick_digits sf p q (n - k) with
    | Some s => (s, n - k)
    | None => shortest_digits sf p q n r
    end
  end.

Fixpoint strip_trailing_zeros (ds : jsstring) : jsstring :=
  match ds with
  | [] => []
  | c :: r =>
    match strip_trailing_zeros r with
    | [] => if (c =? 48)%N then [] else [c]
    | r' => c :: r'
    end
  end.

(** The significant digits of [s] (no trailing zeros, at least one digit). *)
Definition significant (s : Z) : jsstring :=
  match dec_digits s with
  | [] => [48%N]
  | d :: r => d :: strip_trailing_zeros r
  end.

Definition exponent_suffix (n : Z) : jsstring :=
  101%N :: (if n - 1 <? 0 then 45%N else 43%N) :: dec_digits (Z.abs (n - 1)).

(** Steps 6 to 10 of Number::toString: lay out the digits [ds] of a
    value in [10^(n-1), 10^n). *)
Definition layout_digits (ds : jsstring) (n : Z) : jsstring :=
  let k := Z.of_nat (length ds) in
  if (k <=? n) && (n <=? 21) then ds ++ repeat 48%N (Z.to_nat (n - k))
  else if (0 <? n) && (n <=? 21) then
    take (Z.to_nat n) ds ++ 46%N :: drop (Z.to_nat n) ds
  else if (-6 <? n) && (n <=? 0) then
    48%N :: 46%N :: repeat 48%N (Z.to_nat (- n)) ++ ds
  else
    match ds with
    | [d] => d :: exponent_suffix n
    | d :: r => d :: 46%N :: r ++ exponent_suffix n
    | [] => []
    end.

(** The digits and the decimal exponent of the positive float [m * 2^e]. *)
Definition float_digits (m : positive) (e : Z) : jsstring * Z :=
  let '(p, q) := scale2 (Zpos m) 1 (- e) in
  let n := decimal_exponent p q in
  let '(s, t) :=
    shortest_digits (S754_finite false m e) p q n
      [1; 2; 3; 4; 5; 6; 7; 8; 9; 10; 11; 12; 13; 14; 15; 16; 17] in
  (significant s, t + Z.of_nat (length (dec_digits s))).

Definition NumberToString (x : float) : jsstring :=
  match Prim2SF x with
  | S754_nan => js "NaN"
  | S754_zero _ => js "0"
  | S754_infinity neg => (if neg then [45%N] else []) ++ js "Infinity"
  | S754_finite neg m e =>
    let '(ds, n) := float_digits m e in
    (if neg then [45%N] else []) ++ layout_digits ds n
  end.

End NumberToString.

(** *** Reading a decimal literal *)

Section ReadNumber.
Local Open Scope Z_scope.

(** An exponent part [e [sign] digits] up to the end of the token, or
    nothing at all. *)
Definition scan_exponent (t : jsstring) : option (option (bool * jsstring)) :=
  match t with
  | [] => Some None
  | c :: r =>
    if is_exp_mark c then
      let '(sg, r') :=
        match strip_char 43 r, strip_char 45 r with
        | Some r', _ => (false, r')
        | None, Some r' => (true, r')
        | None, None => (false, r)
        end in
      let '(ed, r'') := span is_digit r' in
      match ed, r'' with
      | _ :: _, [] => Some (Some (sg, ed))
      | _, _ => None
      end
    else None
  end.

(** The parts of [digits [. digits] [e [sign] digits]]: integer part,
    fraction when a dot is present, signed exponent when an exponent
    mark is present.  [None] when something else follows. *)
Definition scan_decimal (t : jsstring)
  : option (jsstring * option jsstring * option (bool * jsstring)) :=
  let '(ip, r1) := span is_digit t in
  let '(fp, r2) :=
    match strip_char 46 r1 with
    | Some r => let '(f, r') := span is_digit r in (Some f, r')
    | None => (None, r1)
    end in
  match scan_exponent r2 with
  | Some ex => Some (ip, fp, ex)
  | None => None
  end.

(** The mathematical value [d * 10^k] of scanned parts, as [(d, k)]. *)
Definition decimal_parts_value
    (parts : jsstring * option jsstring * option (bool * jsstring)) : Z * Z :=
  let '(ip, fp, ex) := parts in
  let f := default [] fp in
  let e := match ex with
           | Some (sg, ed) => if sg then - digits_value ed else digits_value ed
           | None => 0
           end in
  (digits_value (ip ++ f), e - Z.of_nat (length f)).

(** The JSON grammar of a number after its optional minus sign:
    no leading zero, at least one digit after a dot. *)
Definition json_unsigned_ok
    (parts : jsstring * option jsstring * option (bool * jsstring)) : bool :=
  let '(ip, fp, _) := parts in
  match ip with
  | [] => false
  | [_] => true
  | d :: _ => negb (d =? 48)%N
  end
  && match fp with Some [] => false | _ => true end.

(** A complete JSON number token and its value. *)
Definition json_number (t : jsstring) : option float :=
  let '(neg, u) := match strip_char 45 t with
                    | Some r => (true, r)
                    | None => (false, t)
                    end in
  match scan_decimal u with
  | Some parts =>
    if json_unsigned_ok parts then
      let '(d, k) := decimal_parts_value parts in Some (decimal_to_float neg d k)
    else None
  | None => None
  end.

(** StrUnsignedDecimalLiteral: [Infinity], or digits with an optional
    dot on either side and an optional exponent. *)
Definition str_unsigned_decimal (neg : bool) (u : jsstring) : float :=
  if bool_decide (u = js "Infinity") then
    (if neg then PrimFloat.neg_infinity else PrimFloat.infinity)
  else
    match scan_decimal u with
    | Some (ip, fp, ex) =>
      match ip, default [] fp with
      | [], [] => PrimFloat.nan
      | _, _ =>
        let '(d, k) := decimal_parts_value (ip, fp, ex) in decimal_to_float neg d k
      end
    | None => PrimFloat.nan
    end.

Fixpoint radix_value_from (radix acc : Z) (ds : jsstring) : option Z :=
  match ds with
  | [] => Some acc
  | c :: r =>
    match hex_value c with
    | Some d =>
      if Z.of_N d <? radix then radix_value_from radix (radix * acc + Z.of_N d) r
      else None
    | None => None
    end
  end.

(** NonDecimalIntegerLiteral: the digits after [0x], [0o] or [0b]. *)
Definition non_decimal (radix : Z) (ds : jsstring) : float :=
  match ds with
  | [] => PrimFloat.nan
  | _ =>
    match radix_value_from radix 0 ds with
    | Some v => decimal_to_float false v 0
    | None => PrimFloat.nan
    end
  end.

Fixpoint trim_start (s : jsstring) : jsstring :=
  match s with
  | c :: r => if is_str_ws c then trim_start r else s
  | [] => []
  end.

Definition trim (s : jsstring) : jsstring :=
  rev (trim_start (rev (trim_start s))).

(** StringToNumber: the value of [Number(s)] for a string [s]. *)
Definition StringToNumber (s : jsstring) : float :=
  match trim s with
  | [] => PrimFloat.zero
  | 48%N :: 120%N :: ds | 48%N :: 88%N :: ds => non_decimal 16 ds
  | 48%N :: 111%N :: ds | 48%N :: 79%N :: ds => non_decimal 8 ds
  | 48%N :: 98%N :: ds | 48%N :: 66%N :: ds => non_decimal 2 ds
  | 43%N :: u => str_unsigned_decimal false u
  | 45%N :: u => str_unsigned_decimal true u
  | u => str_unsigned_decimal false u
  end.

End ReadNumber.

(** ** Values

    What a route holds in a variable: [undefined], [null], a boolean, a
    Number, a string, an array, or a plain object.  An object is the
    list of its own properties in creation order.  Functions never occur
    as data: everything comes out of [JSON.parse] or an object literal. *)

Inductive value : Type :=
| VUndef
| VNull
| VBool (b : bool)
| VNum (x : float)
| VStr (s : jsstring)
| VArr (l : list value)
| VObj (o : list (jsstring * value)).

(** A closing exception: the routes only ever raise TypeError (a method
    called on a value that has none, a property read on [null]). *)
Inductive error : Type := TypeError.

Inductive res (A : Type) : Type :=
| Ret (a : A)
| Throw (e : error).
Arguments Ret {A} a.
Arguments Throw {A} e.

Definition res_bind {A B : Type} (m : res A) (k : A → res B) : res B :=
  match m with
  | Ret a => k a
  | Throw e => Throw e
  end.

#[global] Instance res_ret : MRet res := @Ret.
#[global] Instance res_mbind : MBind res := fun A B k m => res_bind m k.

(** ToBoolean. *)
Definition truthy (v : value) : bool :=
  match v with
  | VUndef | VNull => false
  | VBool b => b
  | VNum x => negb (PrimFloat.is_nan x || PrimFloat.is_zero x)
  | VStr s => match s with [] => false | _ => true end
  | VArr _ | VObj _ => true
  end.

(** [a || b] on values. *)
Definition js_or (a b : value) : value := if truthy a then a else b.

(** [a === b].  Arrays and objects compare by identity, and every
    comparison of the program is between values of different origin
    (a stored record against a request field or a literal), so two
    of them are never the same object. *)
Definition strict_eq (a b : value) : bool :=
  match a, b with
  | VUndef, VUndef => true
  | VNull, VNull => true
  | VBool x, VBool y => eqb x y
  | VNum x, VNum y => PrimFloat.eqb x y
  | VStr s, VStr t => bool_decide (s = t)
  | _, _ => false
  end.

(** *** Properties *)

Fixpoint lookup_prop (o : list (jsstring * value)) (k : jsstring) : option value :=
  match o with
  | [] => None
  | (k', v) :: r => if bool_decide (k' = k) then Some v else lookup_prop r k
  end.

(** [o.k = v]: an existing property keeps its place, a new one goes last. *)
Fixpoint obj_set (o : list (jsstring * value)) (k : jsstring) (v : value)
  : list (jsstring * value) :=
  match o with
  | [] => [(k, v)]
  | (k', v') :: r =>
    if bool_decide (k' = k) then (k', v) :: r else (k', v') :: obj_set r k v
  end.

(** [v.k] for the property names the routes read (name, email, password,
    role, status, courses, progress, course, createdAt, ...): none of
    them is defined on a prototype, so only an object's own property
    answers; a primitive or an array has none; reading from [undefined]
    or [null] throws. *)
Definition Get (v : value) (k : jsstring) : res value :=
  match v with
  | VUndef | VNull => Throw TypeError
  | VObj o => Ret (default VUndef (lookup_prop o k))
  | _ => Ret VUndef
  end.

(** The same read where the source has already excluded [undefined] and
    [null] (a destructuring of [req.body || {}]). *)
Definition prop (v : value) (k : jsstring) : value :=
  match v with
  | VObj o => default VUndef (lookup_prop o k)
  | _ => VUndef
  end.

(** [v.k = x].  The routes assign only to a record they have just matched
    by one of its properties, hence to an object; a primitive ignores
    the assignment (the file is not in strict mode), and a named property
    of an array is invisible to [JSON.stringify]. *)
Definition Set_prop (v : value) (k : jsstring) (x : value) : res value :=
  match v with
  | VObj o => Ret (VObj (obj_set o k x))
  | VUndef | VNull => Throw TypeError
  | _ => Ret v
  end.

(** *** ToString and ToNumber

    A plain object converts through [Object.prototype.toString] unless it
    carries an own [toString] property, which (being data) is not
    callable: the conversion then throws.  An array converts through
    [join]. *)

Fixpoint ToString (v : value) : res jsstring :=
  match v with
  | VUndef => Ret (js "undefined")
  | VNull => Ret (js "null")
  | VBool b => Ret (if b then js "true" else js "false")
  | VNum x => Ret (NumberToString x)
  | VStr s => Ret s
  | VArr l =>
    (fix join (l : list value) : res jsstring :=
       match l with
       | [] => Ret []
       | x :: r =>
         match (match x with
                | VUndef | VNull => Ret []
                | _ => ToString x
                end) with
         | Ret s =>
           match r with
           | [] => Ret s
           | _ => match join r with
                  | Ret t => Ret (s ++ 44%N :: t)
                  | Throw e => Throw e
                  end
           end
         | Throw e => Throw e
         end
       end) l
  | VObj o =>
    match lookup_prop o (js "toString") with
    | Some _ => Throw TypeError
    | None => Ret (js "[object Object]")
    end
  end.

(** [Number(v)]. *)
Definition ToNumber (v : value) : res float :=
  match v with
  | VUndef => Ret PrimFloat.nan
  | VNull => Ret PrimFloat.zero
  | VBool b => Ret (if b then PrimFloat.one else PrimFloat.zero)
  | VNum x => Ret x
  | VStr s => Ret (StringToNumber s)
  | VArr _ | VObj _ => s ← ToString v; Ret (StringToNumber s)
  end.

(** ** JSON.stringify(value, null, 2) *)

Definition hex4 (c : N) : jsstring :=
  [hex_digit (c / 4096); hex_digit (c / 256 mod 16);
   hex_digit (c / 16 mod 16); hex_digit (c mod 16)]%N.

Definition unicode_escape (c : N) : jsstring := 92%N :: 117%N :: hex4 c.

(** One code unit that is no surrogate, as QuoteJSONString writes it. *)
Definition quote_unit (c : N) : jsstring :=
  if (c =? 8)%N then [92; 98]%N
  else if (c =? 9)%N then [92; 116]%N
  else if (c =? 10)%N then [92; 110]%N
  else if (c =? 12)%N then [92; 102]%N
  else if (c =? 13)%N then [92; 114]%N
  else if (c =? 34)%N then [92; 34]%N
  else if (c =? 92)%N then [92; 92]%N
  else if (c <? 32)%N then unicode_escape c
  else [c].

(** The characters of a string between the quotes: a surrogate pair goes
    through, a lone surrogate is escaped. *)
Fixpoint quote_chars (s : jsstring) : jsstring :=
  match s with
  | [] => []
  | c :: r =>
    if is_high_surrogate c then
      match r with
      | d :: r' =>
        if is_low_surrogate d then c :: d :: quote_chars r'
        else unicode_escape c ++ quote_chars r
      | [] => unicode_escape c
      end
    else if is_low_surrogate c then unicode_escape c ++ quote_chars r
    else quote_unit c ++ quote_chars r
  end.

Definition QuoteJSONString (s : jsstring) : jsstring :=
  34%N :: quote_chars s ++ [34%N].

(** A line break followed by the indentation of nesting depth [d]. *)
Definition newline (d : nat) : jsstring := 10%N :: repeat 32%N (2 * d).

Fixpoint join_with (sep : jsstring) (parts : list jsstring) : jsstring :=
  match parts with
  | [] => []
  | [p] => p
  | p :: r => p ++ sep ++ join_with sep r
  end.

(** SerializeJSONProperty at nesting depth [d], for a value that is an
    array element or the value of a kept property: [undefined] in an
    array is written [null], a Number that is not finite too; a property
    whose value is [undefined] is left out of its object. *)
Fixpoint ser (d : nat) (v : value) : jsstring :=
  match v with
  | VUndef | VNull => js "null"
  | VBool b => if b then js "true" else js "false"
  | VNum x => if PrimFloat.is_finite x then NumberToString x else js "null"
  | VStr s => QuoteJSONString s
  | VArr l =>
    match l with
    | [] => js "[]"
    | _ =>
      91%N :: newline (S d)
        ++ join_with (44%N :: newline (S d)) (map (ser (S d)) l)
        ++ newline d ++ [93%N]
    end
  | VObj o =>
    match
      (fix members (o : list (jsstring * value)) : list jsstring :=
         match o with
         | [] => []
         | (k, VUndef) :: r => members r
         | (k, x) :: r =>
           (QuoteJSONString k ++ 58%N :: 32%N :: ser (S d) x) :: members r
         end) o
    with
    | [] => js "{}"
    | ms =>
      123%N :: newline (S d)
        ++ join_with (44%N :: newline (S d)) ms
        ++ newline d ++ [125%N]
    end
  end.

(** The members of an object, one [key: value] text per kept property. *)
Fixpoint ser_members (d : nat) (o : list (jsstring * value)) : list jsstring :=
  match o with
  | [] => []
  | (k, VUndef) :: r => ser_members d r
  | (k, x) :: r => (QuoteJSONString k ++ 58%N :: 32%N :: ser d x) :: ser_members d r
  end.

(** [JSON.stringify(v, null, 2)]: a text, or [undefined] for [undefined]. *)
Definition JSON_stringify (v : value) : option jsstring :=
  match v with
  | VUndef => None
  | _ => Some (ser 0 v)
  end.

(** ** JSON.parse *)

Fixpoint skip_ws (s : jsstring) : jsstring :=
  match s with
  | c :: r => if is_ws c then skip_ws r else s
  | [] => []
  end.

Definition hex4_value (a b c d : N) : option N :=
  match hex_value a, hex_value b, hex_value c, hex_value d with
  | Some x, Some y, Some z, Some w => Some (x * 4096 + y * 256 + z * 16 + w)%N
  | _, _, _, _ => None
  end.

(** The character a one-letter escape stands for. *)
Definition unescape (c : N) : option N :=
  match c with
  | 34%N => Some 34%N
  | 92%N => Some 92%N
  | 47%N => Some 47%N
  | 98%N => Some 8%N
  | 102%N => Some 12%N
  | 110%N => Some 10%N
  | 114%N => Some 13%N
  | 116%N => Some 9%N
  | _ => None
  end.

(** The characters of a string up to its closing quote, and the rest. *)
Fixpoint parse_string (s : jsstring) : option (jsstring * jsstring) :=
  match s with
  | [] => None
  | c :: r =>
    if (c =? 34)%N then Some ([], r)
    else if (c =? 92)%N then
      match r with
      | [] => None
      | e :: r' =>
        if (e =? 117)%N then
          match r' with
          | h1 :: h2 :: h3 :: h4 :: r'' =>
            match hex4_value h1 h2 h3 h4, parse_string r'' with
            | Some u, Some (str, rest) => Some (u :: str, rest)
            | _, _ => None
            end
          | _ => None
          end
        else
          match unescape e, parse_string r' with
          | Some u, Some (str, rest) => Some (u :: str, rest)
          | _, _ => None
          end
      end
    else if (c <? 32)%N then None
    else
      match parse_string r with
      | Some (str, rest) => Some (c :: str, rest)
      | None => None
      end
  end.

(** A number: the longest run of number characters must be one JSON
    number (what follows a number in a JSON text is white space, a
    comma, a closing bracket or the end, none of them a number
    character). *)
Definition parse_number (s : jsstring) : option (value * jsstring) :=
  let '(tok, rest) := span is_numchar s in
  match json_number tok with
  | Some x => Some (VNum x, rest)
  | None => None
  end.

Definition parse_literal (s : jsstring) : option (value * jsstring) :=
  match strip_prefix (js "true") s with
  | Some r => Some (VBool true, r)
  | None =>
    match strip_prefix (js "false") s with
    | Some r => Some (VBool false, r)
    | None =>
      match strip_prefix (js "null") s with
      | Some r => Some (VNull, r)
      | None => None
      end
    end
  end.

(** One JSON value at the head of [s] (after white space), and the rest.
    Every recursive call comes after at least one consumed character, so
    a fuel above the length of the text is never exhausted. *)
Fixpoint parse_value (fuel : nat) (s : jsstring) : option (value * jsstring) :=
  match fuel with
  | O => None
  | S f =>
    match skip_ws s with
    | [] => None
    | c :: r =>
      if (c =? 123)%N then
        match strip_char 125 (skip_ws r) with
        | Some r' => Some (VObj [], r')
        | None => parse_members f r []
        end
      else if (c =? 91)%N then
        match strip_char 93 (skip_ws r) with
        | Some r' => Some (VArr [], r')
        | None => parse_elements f r []
        end
      else if (c =? 34)%N then
        match parse_string r with
        | Some (str, r') => Some (VStr str, r')
        | None => None
        end
      else if (c =? 45)%N || is_digit c then parse_number (c :: r)
      else parse_literal (c :: r)
    end
  end
with parse_elements (fuel : nat) (s : jsstring) (acc : list value)
  : option (value * jsstring) :=
  match fuel with
  | O => None
  | S f =>
    match parse_value f s with
    | Some (v, r) =>
      match skip_ws r with
      | c :: r' =>
        if (c =? 44)%N then parse_elements f r' (acc ++ [v])
        else if (c =? 93)%N then Some (VArr (acc ++ [v]), r')
        else None
      | [] => None
      end
    | None => None
    end
  end
with parse_members (fuel : nat) (s : jsstring) (acc : list (jsstring * value))
  : option (value * jsstring) :=
  match fuel with
  | O => None
  | S f =>
    match strip_char 34 (skip_ws s) with
    | Some r =>
      match parse_string r with
      | Some (k, r1) =>
        match strip_char 58 (skip_ws r1) with
        | Some r2 =>
          match parse_value f r2 with
          | Some (v, r3) =>
            match skip_ws r3 with
            | c :: r4 =>
              if (c =? 44)%N then parse_members f r4 (obj_set acc k v)
              else if (c =? 125)%N then Some (VObj (obj_set acc k v), r4)
              else None
            | [] => None
            end
          | None => None
          end
        | None => None
        end
      | None => None
      end
    | None => None
    end
  end.

(** [JSON.parse(text)]: the value, or [None] for a SyntaxError. *)
Definition JSON_parse (text : jsstring) : option value :=
  match parse_value (S (length text)) text with
  | Some (v, r) => match skip_ws r with [] => Some v | _ => None end
  | None => None
  end.

(** ** What a document gives back

    [json_image v] is the value [JSON.parse] reads from the text that
    [JSON.stringify] writes for [v]: [undefined] and the Numbers that
    are not finite have become [null], a property whose value is
    [undefined] is gone, a Number is whatever its decimal text reads as,
    and nothing else has changed ([JSON_parse_stringify] below). *)

Definition reread (x : float) : value :=
  if PrimFloat.is_finite x then
    match json_number (NumberToString x) with
    | Some y => VNum y
    | None => VNull
    end
  else VNull.

Fixpoint json_image (v : value) : value :=
  match v with
  | VUndef | VNull => VNull
  | VBool b => VBool b
  | VNum x => reread x
  | VStr s => VStr s
  | VArr l => VArr (map json_image l)
  | VObj o =>
    VObj ((fix members (o acc : list (jsstring * value)) :=
             match o with
             | [] => acc
             | (k, VUndef) :: r => members r acc
             | (k, x) :: r => members r (obj_set acc k (json_image x))
             end) o [])
  end.

Fixpoint image_members (o acc : list (jsstring * value)) : list (jsstring * value) :=
  match o with
  | [] => acc
  | (k, VUndef) :: r => image_members r acc
  | (k, x) :: r => image_members r (obj_set acc k (json_image x))
  end.

(** Is [x] the negative zero?  Number::toString writes both zeros as
    [0]. *)
Definition negative_zero (x : float) : bool :=
  match Prim2SF x with
  | S754_zero true => true
  | _ => false
  end.

(** The values of the JSON data model that a document holds without
    loss: no [undefined], distinct property names, and Numbers that are
    finite and not the negative zero. *)
Fixpoint serializable (v : value) : Prop :=
  match v with
  | VUndef => False
  | VNull | VBool _ | VStr _ => True
  | VNum x => PrimFloat.is_finite x = true ∧ negative_zero x = false
  | VArr l =>
    (fix all (l : list value) : Prop :=
       match l with
       | [] => True
       | x :: r => serializable x ∧ all r
       end) l
  | VObj o =>
    NoDup (map fst o)
    ∧ (fix all (o : list (jsstring * value)) : Prop :=
         match o with
         | [] => True
         | (_, x) :: r => serializable x ∧ all r
         end) o
  end.

(** A value as [JSON.parse] builds it: no [undefined] inside, and no
    property name twice in one object. *)
Fixpoint parsed (v : value) : Prop :=
  match v with
  | VUndef => False
  | VArr l =>
    (fix all (l : list value) : Prop :=
       match l with
       | [] => True
       | x :: r => parsed x ∧ all r
       end) l
  | VObj o =>
    NoDup (map fst o)
    ∧ (fix all (o : list (jsstring * value)) : Prop :=
         match o with
         | [] => True
         | (_, x) :: r => parsed x ∧ all r
         end) o
  | _ => True
  end.

(** ** Dates

    A time value is a whole number of milliseconds since the epoch.
    [Date.prototype.toISOString] writes it as
    [YYYY-MM-DDTHH:mm:ss.sssZ] in the proleptic Gregorian calendar. *)

Section Dates.
Local Open Scope Z_scope.

Definition pad (width : nat) (n : Z) : jsstring :=
  let ds := dec_digits n in
  repeat 48%N (width - length ds) ++ ds.

(** Year, month and day of a day number counted from 1970-01-01. *)
Definition civil_from_days (days : Z) : Z * Z * Z :=
  let z := days + 719468 in
  let era := z / 146097 in
  let doe := z - era * 146097 in
  let yoe := (doe - doe / 1460 + doe / 36524 - doe / 146096) / 365 in
  let doy := doe - (365 * yoe + yoe / 4 - yoe / 100) in
  let mp := (5 * doy + 2) / 153 in
  let d := doy - (153 * mp + 2) / 5 + 1 in
  let m := if mp <? 10 then mp + 3 else mp - 9 in
  let y := yoe + era * 400 + (if m <=? 2 then 1 else 0) in
  (y, m, d).

Definition iso_year (y : Z) : jsstring :=
  if (0 <=? y) && (y <=? 9999) then pad 4 y
  else (if y <? 0 then 45%N else 43%N) :: pad 6 (Z.abs y).

Definition toISOString (t : Z) : jsstring :=
  let '(y, m, d) := civil_from_days (t / 86400000) in
  let ms := t mod 86400000 in
  iso_year y ++ 45%N :: pad 2 m ++ 45%N :: pad 2 d ++ 84%N
    :: pad 2 (ms / 3600000) ++ 58%N :: pad 2 (ms / 60000 mod 60) ++ 58%N
    :: pad 2 (ms / 1000 mod 60) ++ 46%N :: pad 3 (ms mod 1000) ++ [90%N].

(** TimeClip of a Number: a time value, or [None] for an invalid date. *)
Definition TimeClip (x : float) : option Z :=
  match Prim2SF x with
  | S754_zero _ => Some 0
  | S754_finite neg m e =>
    let '(p, q) := scale2 (Zpos m) 1 (- e) in
    if 8640000000000000 * q <? p then None
    else Some (if neg then - (p / q) else p / q)
  | _ => None
  end.

End Dates.

(** ** The engine's locale and date tables

    Two built-ins are taken as given: [String.prototype.toLowerCase]
    (the Unicode case mapping) and [Date.parse] (whose accepted formats
    beyond the ISO one are left to the implementation; [None] is NaN). *)

Class Engine : Type := {
  toLowerCase : jsstring → jsstring;
  Date_parse : jsstring → option Z;
}.

(** ** The document store and its monad

    The data directory maps a file name to the text of the document
    (what [readFileSync(path, 'utf8')] returns); the console keeps what
    [console.error] was called with.  Names are the fixed file names of
    the source, joined to [DATA_DIR]. *)

Record World : Type := {
  files : gmap jsstring jsstring;
  console : list (jsstring * jsstring);
}.

Definition M (A : Type) : Type := World → res A * World.

Definition ret {A : Type} (a : A) : M A := fun w => (Ret a, w).

Definition bind {A B : Type} (m : M A) (k : A → M B) : M B :=
  fun w =>
    match m w with
    | (Ret a, w') => k a w'
    | (Throw e, w') => (Throw e, w')
    end.

Definition lift {A : Type} (r : res A) : M A := fun w => (r, w).

#[global] Instance M_ret : MRet M := @ret.
#[global] Instance M_bind : MBind M := fun A B k m => bind m k.

Definition console_error (a b : jsstring) : M unit :=
  fun w => (Ret tt, {| files := files w; console := console w ++ [(a, b)] |}).

Definition loadJson (fileName : jsstring) (fallback : value) : M value :=
  fun w =>
    match files w !! fileName with
    | None => (Ret fallback, w)
    | Some raw =>
      match JSON_parse raw with
      | Some v => (Ret v, w)
      | None =>
        (console_error (js "Error reading") fileName ;; ret fallback) w
      end
    end.

(** [writeFileSync] refuses [undefined] (what [JSON.stringify] gives
    for [undefined]) before it touches the file.  A write that starts
    is taken to complete: an I/O failure of [writeFileSync] (a missing
    directory, a full disk, a write cut short) is outside the model. *)
Definition saveJson (fileName : jsstring) (v : value) : M unit :=
  fun w =>
    match JSON_stringify v with
    | Some text =>
      (Ret tt, {| files := <[fileName := text]> (files w); console := console w |})
    | None => (Throw TypeError, w)
    end.

(** ** Array methods

    Called on anything but an array they are [undefined], and the call
    throws. *)

Fixpoint find_from (p : value → res bool) (l : list value) : res value :=
  match l with
  | [] => Ret VUndef
  | x :: r =>
    match p x with
    | Ret true => Ret x
    | Ret false => find_from p r
    | Throw e => Throw e
    end
  end.

Definition Array_find (p : value → res bool) (a : value) : res value :=
  match a with
  | VArr l => find_from p l
  | _ => Throw TypeError
  end.

(** [None] is the source's [-1]. *)
Fixpoint findIndex_from (p : value → res bool) (l : list value) (i : nat)
  : res (option nat) :=
  match l with
  | [] => Ret None
  | x :: r =>
    match p x with
    | Ret true => Ret (Some i)
    | Ret false => findIndex_from p r (S i)
    | Throw e => Throw e
    end
  end.

Definition Array_findIndex (p : value → res bool) (a : value) : res (option nat) :=
  match a with
  | VArr l => findIndex_from p l 0
  | _ => Throw TypeError
  end.

Fixpoint filter_from (p : value → res bool) (l : list value) : res (list value) :=
  match l with
  | [] => Ret []
  | x :: r =>
    match p x with
    | Ret b =>
      match filter_from p r with
      | Ret r' => Ret (if b then x :: r' else r')
      | Throw e => Throw e
      end
    | Throw e => Throw e
    end
  end.

Definition Array_filter (p : value → res bool) (a : value) : res value :=
  match a with
  | VArr l => l' ← filter_from p l; Ret (VArr l')
  | _ => Throw TypeError
  end.

Definition Array_push (a : value) (x : value) : res value :=
  match a with
  | VArr l => Ret (VArr (l ++ [x]))
  | _ => Throw TypeError
  end.

(** [a[i]] and [a[i] = x] at an index [findIndex] returned. *)
Definition Array_get (a : value) (i : nat) : value :=
  match a with
  | VArr l => default VUndef (l !! i)
  | _ => VUndef
  end.

Definition Array_set (a : value) (i : nat) (x : value) : value :=
  match a with
  | VArr l => VArr (<[i := x]> l)
  | _ => a
  end.

(** [list.includes(v)] for a list of string literals. *)
Definition includes (l : list jsstring) (v : value) : bool :=
  existsb (fun s => strict_eq (VStr s) v) l.

(** [Array.prototype.sort(cmp)]: a stable sort; a comparator result that
    is NaN ([None]) counts as zero.  With a consistent comparator every
    stable sort returns the same array; insertion is the one written
    here.  [undefined] elements go last without being compared. *)
Fixpoint sort_insert (cmp : value → value → res (option Z)) (x : value)
    (l : list value) : res (list value) :=
  match l with
  | [] => Ret [x]
  | y :: r =>
    match cmp x y with
    | Ret c =>
      if (0 <? default 0 c)%Z then
        match sort_insert cmp x r with
        | Ret r' => Ret (y :: r')
        | Throw e => Throw e
        end
      else Ret (x :: l)
    | Throw e => Throw e
    end
  end.

Fixpoint sort_from (cmp : value → value → res (option Z)) (l : list value)
  : res (list value) :=
  match l with
  | [] => Ret []
  | x :: r =>
    match sort_from cmp r with
    | Ret r' => sort_insert cmp x r'
    | Throw e => Throw e
    end
  end.

Definition is_undefined (v : value) : bool :=
  match v with VUndef => true | _ => false end.

Definition Array_sort (cmp : value → value → res (option Z)) (a : value) : res value :=
  match a with
  | VArr l =>
    l' ← sort_from cmp (filter (fun v => negb (is_undefined v)) l);
    Ret (VArr (l' ++ filter (fun v => is_undefined v) l))
  | _ => Throw TypeError
  end.

(** ** The routes

    A route takes what it reads of the request ([req.body], a route
    parameter, a query parameter, the clock) and answers with a status
    and the object it hands to [res.json].  An exception escaping the
    handler is the framework's 500. *)

Record reply : Type := { status : nat; body : value }.

Definition respond (st : nat) (b : value) : M reply :=
  ret {| status := st; body := b |}.

Definition str (s : string) : value := VStr (js s).
Arguments str s%_string.

Definition message (s : string) : value := VObj [(js "message", str s)].
Arguments message s%_string.

(** A field destructured from [req.body || {}]. *)
Definition field (req_body : value) (k : jsstring) : value :=
  prop (js_or req_body (VObj [])) k.

Definition users_json : jsstring := js "users.json".
Definition questions_json : jsstring := js "questions.json".

Section Routes.
Context `{Engine}.

(** [v.toLowerCase()]: only a string has the method. *)
Definition call_toLowerCase (v : value) : res jsstring :=
  match v with
  | VStr s => Ret (toLowerCase s)
  | _ => Throw TypeError
  end.

(** [u => u.email.toLowerCase() === email.toLowerCase()] *)
Definition same_email (email : value) (u : value) : res bool :=
  ue ← Get u (js "email");
  a ← call_toLowerCase ue;
  b ← call_toLowerCase email;
  Ret (bool_decide (a = b)).

(** [u => u.email.toLowerCase() === email] for an [email] already lowered. *)
Definition has_email (email : jsstring) (u : value) : res bool :=
  ue ← Get u (js "email");
  a ← call_toLowerCase ue;
  Ret (bool_decide (a = email)).

(** The record [newUser] of the signup route. *)
Definition new_user (req_body : value) (now : Z) : value :=
  VObj [
    (js "name", field req_body (js "name"));
    (js "email", field req_body (js "email"));
    (js "phone", field req_body (js "phone"));
    (js "password", field req_body (js "password"));
    (js "role", field req_body (js "role"));
    (js "courseType",
      if strict_eq (field req_body (js "role")) (str "student")
      then js_or (field req_body (js "courseType")) VNull
      else VNull);
    (js "status", str "pending");
    (js "createdAt", VStr (toISOString now));
    (js "courses", VArr []);
    (js "projectLog", VArr []);
    (js "profile", VObj [])].

(** [!name || !email || !phone || !password || !role] *)
Definition signup_incomplete (req_body : value) : bool :=
  negb (truthy (field req_body (js "name")))
  || negb (truthy (field req_body (js "email")))
  || negb (truthy (field req_body (js "phone")))
  || negb (truthy (field req_body (js "password")))
  || negb (truthy (field req_body (js "role"))).

(** POST /api/auth/signup *)
Definition signup (req_body : value) (now : Z) : M reply :=
  if signup_incomplete req_body
  then respond 400 (message "Missing required fields")
  else
    users ← loadJson users_json (VArr []);
    exists_ ← lift (Array_find (same_email (field req_body (js "email"))) users);
    if truthy exists_ then respond 409 (message "Email already registered")
    else
      let newUser := new_user req_body now in
      users' ← lift (Array_push users newUser);
      saveJson users_json users';;
      respond 201 (VObj [
        (js "message", str "Signup successful (pending approval)");
        (js "user", newUser)]).

(** [u => u.email.toLowerCase() === email.toLowerCase() &&
          u.password === password && (u.role || 'student') === role] *)
Definition credentials_match (email password role : value) (u : value) : res bool :=
  same ← same_email email u;
  if (same : bool) then
    pw ← Get u (js "password");
    if strict_eq pw password then
      r ← Get u (js "role");
      Ret (strict_eq (js_or r (str "student")) role)
    else Ret false
  else Ret false.

(** The [user] object of the login response. *)
Definition login_user (user : value) : value :=
  VObj [
    (js "name", prop user (js "name"));
    (js "email", prop user (js "email"));
    (js "role", prop user (js "role"));
    (js "status", prop user (js "status"));
    (js "courseType", prop user (js "courseType"))].

(** POST /api/auth/login *)
Definition login (req_body : value) : M reply :=
  let email := field req_body (js "email") in
  let password := field req_body (js "password") in
  let role := field req_body (js "role") in
  if negb (truthy email) || negb (truthy password) || negb (truthy role)
  then respond 400 (message "Missing email/password/role")
  else
    users ← loadJson users_json (VArr []);
    user ← lift (Array_find (credentials_match email password role) users);
    if negb (truthy user) then respond 401 (message "Invalid credentials")
    else
      st ← lift (Get user (js "status"));
      if strict_eq st (str "pending")
      then respond 403 (message "Account pending admin approval")
      else if strict_eq st (str "rejected")
      then respond 403 (message "Account rejected")
      else
        respond 200 (VObj [
          (js "message", str "Login successful");
          (js "user", login_user user)]).

(** PATCH /api/admin/users/:email/status *)
Definition patch_status (email : jsstring) (req_body : value) : M reply :=
  let new_status := field req_body (js "status") in
  if negb (includes [js "pending"; js "approved"; js "rejected"] new_status)
  then respond 400 (message "Invalid status")
  else
    users ← loadJson users_json (VArr []);
    idx ← lift (Array_findIndex (same_email (VStr email)) users);
    match (idx : option nat) with
    | None => respond 404 (message "User not found")
    | Some i =>
      u ← lift (Set_prop (Array_get users i) (js "status") new_status);
      let users' := Array_set users i u in
      saveJson users_json users';;
      respond 200 (VObj [(js "message", str "Status updated"); (js "user", u)])
    end.

(** [c => c.name === name] *)
Definition named (name : value) (c : value) : res bool :=
  cn ← Get c (js "name");
  Ret (strict_eq cn name).

(** [me.courses = me.courses || []] *)
Definition with_courses (me : value) : res value :=
  cs ← Get me (js "courses");
  Set_prop me (js "courses") (js_or cs (VArr [])).

(** POST /api/students/:email/courses *)
Definition add_course (email_param : jsstring) (req_body : value) : M reply :=
  let email := toLowerCase email_param in
  let name := field req_body (js "name") in
  if negb (truthy name) then respond 400 (message "Course name required")
  else
    users ← loadJson users_json (VArr []);
    idx ← lift (Array_findIndex (has_email email) users);
    match (idx : option nat) with
    | None => respond 404 (message "Student not found")
    | Some i =>
      me ← lift (with_courses (Array_get users i));
      courses ← lift (Get me (js "courses"));
      found ← lift (Array_find (named name) courses);
      if truthy found then respond 409 (message "Course already added")
      else
        courses' ← lift (Array_push courses
                      (VObj [(js "name", name); (js "progress", VNum 0)]));
        me' ← lift (Set_prop me (js "courses") courses');
        saveJson users_json (Array_set users i me');;
        respond 201 (VObj [(js "message", str "Course added");
                           (js "courses", courses')])
    end.

(** PATCH /api/students/:email/courses *)
Definition patch_course (email_param : jsstring) (req_body : value) : M reply :=
  let email := toLowerCase email_param in
  let name := field req_body (js "name") in
  let progress := field req_body (js "progress") in
  if negb (truthy name) then respond 400 (message "Course name required")
  else
    users ← loadJson users_json (VArr []);
    idx ← lift (Array_findIndex (has_email email) users);
    match (idx : option nat) with
    | None => respond 404 (message "Student not found")
    | Some i =>
      me ← lift (with_courses (Array_get users i));
      courses ← lift (Get me (js "courses"));
      cIdx ← lift (Array_findIndex (named name) courses);
      match (cIdx : option nat) with
      | None => respond 404 (message "Course not found for student")
      | Some j =>
        x ← lift (ToNumber (js_or progress (VNum 0)));
        c ← lift (Set_prop (Array_get courses j) (js "progress") (VNum x));
        me' ← lift (Set_prop me (js "courses") (Array_set courses j c));
        saveJson users_json (Array_set users i me');;
        respond 200 (VObj [(js "message", str "Progress updated");
                           (js "course", c)])
      end
    end.

(** [new Date(v).valueOf()]: a time value, [None] for an invalid date. *)
Definition new_Date (v : value) : res (option Z) :=
  match v with
  | VUndef => Ret None
  | VNull => Ret (Some 0%Z)
  | VBool b => Ret (Some (if b then 1 else 0)%Z)
  | VNum x => Ret (TimeClip x)
  | VStr s => Ret (Date_parse s)
  | VArr _ | VObj _ => s ← ToString v; Ret (Date_parse s)
  end.

(** [(a, b) => new Date(b.createdAt) - new Date(a.createdAt)].  Two time
    values are whole numbers below 2^53 in magnitude: their difference
    as Numbers has the sign of their exact difference; an invalid date
    makes it NaN. *)
Definition newest_first (a b : value) : res (option Z) :=
  cb ← Get b (js "createdAt");
  tb ← new_Date cb;
  ca ← Get a (js "createdAt");
  ta ← new_Date ca;
  Ret (match tb, ta with
       | Some x, Some y => Some (x - y)%Z
       | _, _ => None
       end).

(** GET /api/questions *)
Definition list_questions (course : value) : M reply :=
  questions ← loadJson questions_json (VArr []);
  list ← lift (if truthy course
               then Array_filter (fun q => qc ← Get q (js "course");
                                           Ret (strict_eq qc course)) questions
               else Ret questions);
  sorted ← lift (Array_sort newest_first list);
  respond 200 sorted.

End Routes.

(** ** The other routes *)

Definition courseVideos_json : jsstring := js "courseVideos.json".
Definition tests_json : jsstring := js "tests.json".
Definition testResults_json : jsstring := js "testResults.json".

(** [Date.now()] as a Number: a time value is a whole number of
    milliseconds, below 2^53 in magnitude, hence a Number exactly. *)
Definition time_Number (t : Z) : float :=
  decimal_to_float (t <? 0)%Z (Z.abs t) 0.

(** ['v_' + Date.now()] and its like. *)
Definition stamped (prefix : string) (now : Z) : value :=
  VStr (js prefix ++ NumberToString (time_Number now)).
Arguments stamped prefix%_string now%_Z.

Definition Array_isArray (v : value) : bool :=
  match v with VArr _ => true | _ => false end.

(** [a.length < n] for an array [a]; the source asks only after
    [Array.isArray]. *)
Definition shorter_than (n : nat) (a : value) : bool :=
  match a with
  | VArr l => length l <? n
  | _ => false
  end.

Definition Array_unshift (a : value) (x : value) : res value :=
  match a with
  | VArr l => Ret (VArr (x :: l))
  | _ => Throw TypeError
  end.

(** [x => x.course === course] *)
Definition by_course (course : value) (x : value) : res bool :=
  xc ← Get x (js "course");
  Ret (strict_eq xc course).

(** The three listings that differ by their document only:
    GET /api/videos, /api/tests and /api/tests/results. *)
Definition list_by_course (fileName : jsstring) (course : value) : M reply :=
  items ← loadJson fileName (VArr []);
  if truthy course
  then
    list ← lift (Array_filter (by_course course) items);
    respond 200 list
  else respond 200 items.

Definition list_videos : value → M reply := list_by_course courseVideos_json.
Definition list_tests : value → M reply := list_by_course tests_json.
Definition list_results : value → M reply := list_by_course testResults_json.

(** GET /api/admin/users *)
Definition list_users : M reply :=
  users ← loadJson users_json (VArr []);
  respond 200 users.

(** [videoMimeTypes.includes(file.mimetype)] *)
Definition videoMimeTypes : list jsstring :=
  [js "video/mp4"; js "video/webm"; js "video/ogg"; js "video/x-matroska";
   js "video/quicktime"].

Definition fileFilter (mimetype : value) : bool := includes videoMimeTypes mimetype.

(** [s.replace(/\s+/g, '_')]: every maximal run of white space becomes
    one underscore.  [in_run] tells that the character before was white
    space, already replaced. *)
Fixpoint replace_spaces_from (in_run : bool) (s : jsstring) : jsstring :=
  match s with
  | [] => []
  | c :: r =>
    if is_str_ws c
    then (if in_run then [] else [95%N]) ++ replace_spaces_from true r
    else c :: replace_spaces_from false r
  end.

Definition replace_spaces (s : jsstring) : jsstring := replace_spaces_from false s.

(** The [filename] callback of the upload storage:
    [`${ts}_${safe}`] with [ts = Date.now()]. *)
Definition upload_filename (now : Z) (originalname : jsstring) : jsstring :=
  NumberToString (time_Number now) ++ 95%N :: replace_spaces originalname.

Section MoreRoutes.
Context `{Engine}.

(** GET /api/students/:email/dashboard *)
Definition dashboard (email_param : jsstring) : M reply :=
  let email := toLowerCase email_param in
  users ← loadJson users_json (VArr []);
  user ← lift (Array_find (has_email email) users);
  if negb (truthy user) then respond 404 (message "Student not found")
  else
    respond 200 (VObj [
      (js "courses", js_or (prop user (js "courses")) (VArr []));
      (js "projectLog", js_or (prop user (js "projectLog")) (VArr []))]).

(** [me.projectLog = me.projectLog || []] *)
Definition with_projectLog (me : value) : res value :=
  pl ← Get me (js "projectLog");
  Set_prop me (js "projectLog") (js_or pl (VArr [])).

(** POST /api/students/:email/project-log.  [local_time] is what
    [new Date().toLocaleString()] gives, a text in the server's locale
    and time zone. *)
Definition post_project_log (email_param : jsstring) (req_body : value)
    (local_time : jsstring) : M reply :=
  let email := toLowerCase email_param in
  let text := field req_body (js "text") in
  if negb (truthy text) then respond 400 (message "Text required")
  else
    users ← loadJson users_json (VArr []);
    idx ← lift (Array_findIndex (has_email email) users);
    match (idx : option nat) with
    | None => respond 404 (message "Student not found")
    | Some i =>
      me ← lift (with_projectLog (Array_get users i));
      log ← lift (Get me (js "projectLog"));
      log' ← lift (Array_unshift log
                     (VObj [(js "text", text); (js "time", VStr local_time)]));
      me' ← lift (Set_prop me (js "projectLog") log');
      saveJson users_json (Array_set users i me');;
      respond 201 (VObj [(js "message", str "Project update added");
                         (js "log", log')])
    end.

(** The record [video] of POST /api/videos. *)
Definition new_video (req_body : value) (now : Z) : value :=
  VObj [
    (js "id", stamped "v_" now);
    (js "course", field req_body (js "course"));
    (js "title", field req_body (js "title"));
    (js "description", js_or (field req_body (js "description")) (VStr []));
    (js "src", field req_body (js "src"));
    (js "duration", js_or (field req_body (js "duration")) VNull)].

(** POST /api/videos *)
Definition post_video (req_body : value) (now : Z) : M reply :=
  if negb (truthy (field req_body (js "course")))
     || negb (truthy (field req_body (js "title")))
     || negb (truthy (field req_body (js "src")))
  then respond 400 (message "course, title and src are required")
  else
    videos ← loadJson courseVideos_json (VArr []);
    let video := new_video req_body now in
    videos' ← lift (Array_push videos video);
    saveJson courseVideos_json videos';;
    respond 201 (VObj [(js "message", str "Video added"); (js "video", video)]).

(** The record [test] of POST /api/tests. *)
Definition new_test (req_body : value) (now : Z) : value :=
  VObj [
    (js "id", stamped "t_" now);
    (js "course", field req_body (js "course"));
    (js "question", field req_body (js "question"));
    (js "options", field req_body (js "options"));
    (js "correctIndex", VNum 0)].

(** [!course || !question || !options || !Array.isArray(options)
     || options.length < 2] *)
Definition test_incomplete (req_body : value) : bool :=
  negb (truthy (field req_body (js "course")))
  || negb (truthy (field req_body (js "question")))
  || negb (truthy (field req_body (js "options")))
  || negb (Array_isArray (field req_body (js "options")))
  || shorter_than 2 (field req_body (js "options")).

(** POST /api/tests *)
Definition post_test (req_body : value) (now : Z) : M reply :=
  if test_incomplete req_body
  then respond 400 (message "course, question, options[>=2] required")
  else
    tests ← loadJson tests_json (VArr []);
    let test := new_test req_body now in
    tests' ← lift (Array_push tests test);
    saveJson tests_json tests';;
    respond 201 (VObj [(js "message", str "Test question added");
                       (js "test", test)]).

(** The record [entry] of POST /api/tests/submit, [score] and [total]
    being [Number(score)] and [Number(total)]. *)
Definition new_result (req_body : value) (score total : float) (now : Z) : value :=
  VObj [
    (js "studentEmail", field req_body (js "studentEmail"));
    (js "studentName", js_or (field req_body (js "studentName")) VNull);
    (js "course", field req_body (js "course"));
    (js "score", VNum score);
    (js "total", VNum total);
    (js "submittedAt", VStr (toISOString now))].

(** [!studentEmail || !course || typeof score === 'undefined'
     || typeof total === 'undefined'] *)
Definition result_incomplete (req_body : value) : bool :=
  negb (truthy (field req_body (js "studentEmail")))
  || negb (truthy (field req_body (js "course")))
  || is_undefined (field req_body (js "score"))
  || is_undefined (field req_body (js "total")).

(** POST /api/tests/submit *)
Definition submit_result (req_body : value) (now : Z) : M reply :=
  if result_incomplete req_body
  then respond 400 (message "studentEmail, course, score, total required")
  else
    results ← loadJson testResults_json (VArr []);
    score ← lift (ToNumber (field req_body (js "score")));
    total ← lift (ToNumber (field req_body (js "total")));
    let entry := new_result req_body score total now in
    results' ← lift (Array_push results entry);
    saveJson testResults_json results';;
    respond 201 (VObj [(js "message", str "Result recorded");
                       (js "result", entry)]).

(** The record [item] of POST /api/questions; the clock is read once
    for the id and once more for the creation time. *)
Definition new_question (req_body : value) (now now' : Z) : value :=
  VObj [
    (js "id", stamped "q_" now);
    (js "course", field req_body (js "course"));
    (js "videoId", field req_body (js "videoId"));
    (js "videoTitle", js_or (field req_body (js "videoTitle")) VNull);
    (js "studentName", js_or (field req_body (js "studentName")) VNull);
    (js "studentPhone", js_or (field req_body (js "studentPhone")) VNull);
    (js "studentEmail", field req_body (js "studentEmail"));
    (js "question", field req_body (js "question"));
    (js "timeText", js_or (field req_body (js "timeText")) VNull);
    (js "createdAt", VStr (toISOString now'))].

(** [!course || !videoId || !question || !studentEmail] *)
Definition question_incomplete (req_body : value) : bool :=
  negb (truthy (field req_body (js "course")))
  || negb (truthy (field req_body (js "videoId")))
  || negb (truthy (field req_body (js "question")))
  || negb (truthy (field req_body (js "studentEmail"))).

(** POST /api/questions *)
Definition post_question (req_body : value) (now now' : Z) : M reply :=
  if question_incomplete req_body
  then respond 400 (message "course, videoId, question, studentEmail required")
  else
    questions ← loadJson questions_json (VArr []);
    let item := new_question req_body now now' in
    questions' ← lift (Array_push questions item);
    saveJson questions_json questions';;
    respond 201 (VObj [(js "message", str "Question recorded");
                       (js "question", item)]).

(** ** The route table

    One constructor for each JSON route with what it reads of the
    request; [handle] is the dispatch of the application.  The two
    profile routes are not in the table: they read [profiles[key]] under
    a name taken from the request, which may be a name of
    [Object.prototype] and then gives a function.  Nor are the upload
    route and the routes that send pages. *)
Inductive request : Type :=
| Signup (b : value) (t : Z)
| Login (b : value)
| ListUsers
| SetStatus (e : jsstring) (b : value)
| Dashboard (e : jsstring)
| AddCourse (e : jsstring) (b : value)
| SetProgress (e : jsstring) (b : value)
| LogProject (e : jsstring) (b : value) (lt : jsstring)
| ListVideos (c : value)
| PostVideo (b : value) (t : Z)
| ListTests (c : value)
| PostTest (b : value) (t : Z)
| SubmitResult (b : value) (t : Z)
| ListResults (c : value)
| Ask (b : value) (t t' : Z)
| ListQuestions (c : value).

Definition handle (q : request) : M reply :=
  match q with
  | Signup b t => signup b t
  | Login b => login b
  | ListUsers => list_users
  | SetStatus e b => patch_status e b
  | Dashboard e => dashboard e
  | AddCourse e b => add_course e b
  | SetProgress e b => patch_course e b
  | LogProject e b lt => post_project_log e b lt
  | ListVideos c => list_videos c
  | PostVideo b t => post_video b t
  | ListTests c => list_tests c
  | PostTest b t => post_test b t
  | SubmitResult b t => submit_result b t
  | ListResults c => list_results c
  | Ask b t t' => post_question b t t'
  | ListQuestions c => list_questions c
  end.

(** The document a route works on. *)
Definition document (q : request) : jsstring :=
  match q with
  | Signup _ _ | Login _ | ListUsers | SetStatus _ _ | Dashboard _
  | AddCourse _ _ | SetProgress _ _ | LogProject _ _ _ => users_json
  | ListVideos _ | PostVideo _ _ => courseVideos_json
  | ListTests _ | PostTest _ _ => tests_json
  | SubmitResult _ _ | ListResults _ => testResults_json
  | Ask _ _ _ | ListQuestions _ => questions_json
  end.

(** The status with which a route reports that it has written. *)
Definition written (q : request) : option nat :=
  match q with
  | Signup _ _ | AddCourse _ _ | LogProject _ _ _ | PostVideo _ _
  | PostTest _ _ | SubmitResult _ _ | Ask _ _ _ => Some 201
  | SetStatus _ _ | SetProgress _ _ => Some 200
  | _ => None
  end.

(** The store after a sequence of requests, whatever their outcome. *)
Definition serve (qs : list request) (w : World) : World :=
  foldl (fun w q => snd (handle q w)) w qs.

End MoreRoutes.

(** ** A reference engine

    What the built-ins do on ASCII text and on the timestamps the server
    writes itself: letters A to Z are lowered, and a date is read in the
    format of [toISOString] with a four-digit year. *)

Definition ascii_lower (s : jsstring) : jsstring :=
  map (fun c => if (65 <=? c)%N && (c <=? 90)%N then (c + 32)%N else c) s.

Section IsoParse.
Local Open Scope Z_scope.

Definition days_from_civil (y m d : Z) : Z :=
  let y' := if m <=? 2 then y - 1 else y in
  let era := y' / 400 in
  let yoe := y' - era * 400 in
  let doy := (153 * (if 2 <? m then m - 3 else m + 9) + 2) / 5 + d - 1 in
  let doe := yoe * 365 + yoe / 4 - yoe / 100 + doy in
  era * 146097 + doe - 719468.

Definition iso_field (s : jsstring) (from len : nat) : option Z :=
  let ds := take len (drop from s) in
  if forallb is_digit ds && (length ds =? len)%nat then Some (digits_value ds) else None.

Definition iso_parse (s : jsstring) : option Z :=
  if bool_decide (length s = 24%nat
                  ∧ s !! 4%nat = Some 45%N ∧ s !! 7%nat = Some 45%N
                  ∧ s !! 10%nat = Some 84%N ∧ s !! 13%nat = Some 58%N
                  ∧ s !! 16%nat = Some 58%N ∧ s !! 19%nat = Some 46%N
                  ∧ s !! 23%nat = Some 90%N)
  then
    y ← iso_field s 0 4; m ← iso_field s 5 2; d ← iso_field s 8 2;
    h ← iso_field s 11 2; mi ← iso_field s 14 2; sec ← iso_field s 17 2; ms ← iso_field s 20 3;
    if (1 <=? m) && (m <=? 12) && (1 <=? d) && (d <=? 31)
       && (h <=? 23) && (mi <=? 59) && (sec <=? 59)
    then Some (days_from_civil y m d * 86400000
               + h * 3600000 + mi * 60000 + sec * 1000 + ms)
    else None
  else None.

End IsoParse.

#[global] Instance ascii_engine : Engine := {|
  toLowerCase := ascii_lower;
  Date_parse := iso_parse;
|}.

Definition empty_world : World := {| files := ∅; console := [] |}.

(** * Vocabulary of the statements

    What the theorems below speak of: the shape of numeric text, the
    content of a document of the store, the users collection and the
    records found in it. *)

(** Decimal digits only. *)
Definition digits (ds : jsstring) : Prop := Forall (fun c => is_digit c = true) ds.

(** The digits [significant] returns: a non-zero digit, then digits. *)
Definition leading (ds : jsstring) : Prop :=
  ∃ d r, ds = d :: r ∧ d ≠ 48%N ∧ is_digit d = true ∧ digits r.

(** An exponent as [exponent_suffix] writes it: [e], a sign, digits. *)
Definition exp_tail (t : jsstring) : Prop :=
  ∃ sg ed, t = 101%N :: sg :: ed ∧ (sg = 43%N ∨ sg = 45%N) ∧ digits ed ∧ ed ≠ [].

(** A text that [json_number] accepts once an optional minus is removed. *)
Definition number_body (u : jsstring) : Prop :=
  Forall (fun c => is_numchar c = true) u
  ∧ (∃ c r, u = c :: r ∧ is_digit c = true)
  ∧ ∃ parts, scan_decimal u = Some parts ∧ json_unsigned_ok parts = true.

(** The rational [a / b]. *)
Definition frac (a b : Z) : Q := (inject_Z a / inject_Z b)%Q.

(** The second half of [round_binary64]: rounding at the exponent [e]. *)
Definition round_at (neg : bool) (p q e : Z) : spec_float :=
  let '(n, d) := scale2 p q e in
  let m := round_half_even n d in
  let '(m, e) := if (m =? 2 ^ 53)%Z then (2 ^ 52, e + 1)%Z else (m, e) in
  match m with
  | Zpos pm => if (971 <? e)%Z then S754_infinity neg else S754_finite neg pm e
  | _ => S754_zero neg
  end.

(** The mantissas and exponents of [Prim2SF]: 53 bits, or the least
    exponent for a subnormal. *)
Definition canonical (m e : Z) : Prop :=
  (0 < m < 2 ^ 53 ∧ -1074 ≤ e ≤ 971 ∧ (2 ^ 52 ≤ m ∨ e = -1074))%Z.

(** What may follow the text of a number: nothing a number scan would
    take. *)
Definition delimited (rest : jsstring) : Prop :=
  match rest with
  | [] => True
  | c :: _ => is_numchar c = false
  end.

(** The text of [v] at any depth, followed by a delimiter, parses to
    the image of [v] and leaves the rest. *)
Definition reads_back_at (v : value) : Prop :=
  ∀ d rest fuel,
    length (ser d v) ≤ fuel → delimited rest →
    parse_value fuel (ser d v ++ rest) = Some (json_image v, rest).

(** An object with distinct property names, none of them [undefined]. *)
Definition plain (o : list (jsstring * value)) : Prop :=
  NoDup (map fst o) ∧ Forall (fun kv => kv.2 ≠ VUndef) o.

(** A property with its value as a document gives it back. *)
Definition image_prop (kv : jsstring * value) : jsstring * value :=
  (kv.1, json_image kv.2).

(** [fs.writeFileSync] of [text] to the document [name]. *)
Definition put (name text : jsstring) (w : World) : World :=
  {| files := <[name := text]> (files w); console := console w |}.

(** What [loadJson] returns from a world: the parsed document, or the
    fallback when the document is missing or unreadable. *)
Definition stored (name : jsstring) (fallback : value) (w : World) : value :=
  match files w !! name with
  | Some raw => default fallback (JSON_parse raw)
  | None => fallback
  end.

(** The world after [loadJson]: the same files; a line on the console
    when the document did not parse. *)
Definition after_load (name : jsstring) (w : World) : World :=
  match files w !! name with
  | Some raw =>
    match JSON_parse raw with
    | Some _ => w
    | None => {| files := files w;
                 console := console w ++ [(js "Error reading", name)] |}
    end
  | None => w
  end.

(** The users collection a route works on. *)
Definition users_of (w : World) : value := stored users_json (VArr []) w.

(** The email of a user record, when it is a string: what
    [u.email.toLowerCase()] needs in order not to throw. *)
Definition email_of (u : value) : option jsstring :=
  match u with
  | VObj o =>
    match lookup_prop o (js "email") with
    | Some (VStr e) => Some e
    | _ => None
    end
  | _ => None
  end.

(** A scan with the predicate [p] passes over all of [l]. *)
Definition rejects (p : value → res bool) (l : list value) : Prop :=
  Forall (fun u => p u = Ret false) l.

(** [['pending', 'approved', 'rejected'].includes(status)] *)
Definition valid_status (s : value) : bool :=
  includes [js "pending"; js "approved"; js "rejected"] s.

(** The body of the admin request that approves an account. *)
Definition approve : value := VObj [(js "status", str "approved")].

(** A record, as opposed to a primitive or an array. *)
Definition is_object (v : value) : bool :=
  match v with VObj _ => true | _ => false end.


(** [me.courses || []] for a user record. *)
Definition course_list (o : list (jsstring * value)) : value :=
  js_or (default VUndef (lookup_prop o (js "courses"))) (VArr []).

(** [{ name, progress: 0 }] *)
Definition new_course (name : value) : value :=
  VObj [(js "name", name); (js "progress", VNum 0)].

(** The user record [o] with its course list replaced. *)
Definition set_courses (o : list (jsstring * value)) (cs : list value) : value :=
  VObj (obj_set o (js "courses") (VArr cs)).

(** The course entries of a user record, none when the property is
    missing. *)
Definition courses_of (u : value) : list value :=
  match js_or (prop u (js "courses")) (VArr []) with
  | VArr cs => cs
  | _ => []
  end.

(** A computation that leaves every document as it is. *)
Definition reads {A : Type} (m : M A) : Prop :=
  ∀ w, files (snd (m w)) = files w.

(** A route that writes nothing, or else writes the text of one value
    to the document [name] and answers with the status [st]. *)
Definition writes (name : jsstring) (st : nat) (m : M reply) : Prop :=
  ∀ w, files (snd (m w)) = files w
       ∨ ∃ v r, v ≠ VUndef
                ∧ files (snd (m w)) = <[name := ser 0 v]> (files w)
                ∧ fst (m w) = Ret r ∧ status r = st.

(** [x.course === course] for a record. *)
Definition has_course (course : value) (x : value) : bool :=
  strict_eq (prop x (js "course")) course.

(** [me.projectLog || []] for a user record. *)
Definition log_list (o : list (jsstring * value)) : value :=
  js_or (default VUndef (lookup_prop o (js "projectLog"))) (VArr []).

(** [{ text, time }] *)
Definition log_entry (text : value) (local_time : jsstring) : value :=
  VObj [(js "text", text); (js "time", VStr local_time)].

(** The status of a user record is one of the three the admin route
    accepts. *)
Definition status_known (u : value) : Prop :=
  ∃ s, prop u (js "status") = VStr s ∧ valid_status (VStr s) = true.

(** The name of a course entry, when it is a string. *)
Definition name_of (c : value) : option jsstring :=
  match prop c (js "name") with
  | VStr n => Some n
  | _ => None
  end.

(** The entries are records, and no string names two of them. *)
Definition tidy_courses (cs : list value) : Prop :=
  Forall (fun c => is_object c = true) cs ∧ NoDup (omap name_of cs).

(** A test as the route stores it: the first option is the correct one,
    and there are at least two. *)
Definition first_option_correct (x : value) : Prop :=
  prop x (js "correctIndex") = VNum 0
  ∧ ∃ l, prop x (js "options") = VArr l ∧ 2 ≤ length l.

(** A score as the route stores it: a Number, or [null] for one that
    JSON cannot write. *)
Definition numeric (x : value) : Prop := (∃ y, x = VNum y) ∨ x = VNull.

Definition scored (x : value) : Prop :=
  numeric (prop x (js "score")) ∧ numeric (prop x (js "total")).

Section Vocabulary.
Context `{Engine}.

(** The users a scan for [e] passes over: each has an email, and it
    differs from [e] whatever the case. *)
Definition others (e : jsstring) (us : list value) : Prop :=
  Forall (fun u => ∃ e', email_of u = Some e'
                         ∧ toLowerCase e' ≠ toLowerCase e) us.

(** The states of the users collection: the empty collection, then any
    signup and any status update, accepted or not. *)
Inductive reachable : World → Prop :=
| reach_empty (w : World) :
    users_of w = VArr [] → reachable w
| reach_signup (w : World) (b : value) (t : Z) :
    reachable w → reachable (snd (signup b t w))
| reach_status (w : World) (e : jsstring) (b : value) :
    reachable w → reachable (snd (patch_status e b w)).

(** No two records of the list have emails that are equal up to case. *)
Definition distinct_emails (us : list value) : Prop :=
  ∀ i j ui uj ei ej,
    i ≠ j → us !! i = Some ui → us !! j = Some uj →
    email_of ui = Some ei → email_of uj = Some ej →
    toLowerCase ei ≠ toLowerCase ej.

(** The same for a users collection, which has to be an array. *)
Definition unique_emails (users : value) : Prop :=
  ∃ us, users = VArr us ∧ distinct_emails us.

(** A student located in the collection: the first user with the email
    is the object [o], whose course list is the array [cs]. *)
Definition located (e : jsstring) (users : value)
    (l1 : list value) (o : list (jsstring * value)) (l2 cs : list value) : Prop :=
  users = VArr (l1 ++ VObj o :: l2)
  ∧ rejects (has_email (toLowerCase e)) l1
  ∧ has_email (toLowerCase e) (VObj o) = Ret true
  ∧ course_list o = VArr cs.

(** The record the student routes work on: the first user whose email is
    the route parameter up to case. *)
Definition student (e : jsstring) (w : World) : option value :=
  match Array_findIndex (has_email (toLowerCase e)) (users_of w) with
  | Ret (Some i) => Some (Array_get (users_of w) i)
  | _ => None
  end.

(** The course entries of that student as the store has them. *)
Definition student_courses (e : jsstring) (w : World) : list value :=
  match student e w with
  | Some u => courses_of u
  | None => []
  end.

(** The time value of [new Date(q.createdAt)], when the date is valid. *)
Definition time_of (q : value) : option Z :=
  match Get q (js "createdAt") with
  | Ret c =>
    match new_Date c with
    | Ret t => t
    | Throw _ => None
    end
  | Throw _ => None
  end.

(** A record whose [createdAt] is a valid date. *)
Definition dated (q : value) : Prop := ∃ t, time_of q = Some t.

(** [a] was created at the time of [b] or later. *)
Definition no_older (a b : value) : Prop :=
  ∃ ta tb, time_of a = Some ta ∧ time_of b = Some tb ∧ (tb ≤ ta)%Z.

(** Most recent first: nothing in the list is older than what follows
    it. *)
Definition newest_to_oldest (l : list value) : Prop :=
  ∀ i j a b, i < j → l !! i = Some a → l !! j = Some b → no_older a b.

(** The record [q] was created at the time [t]: its [createdAt] is a
    text that [Date.parse] reads as [t]. *)
Definition created_at (q : value) (t : Z) : Prop :=
  ∃ s, prop q (js "createdAt") = VStr s ∧ Date_parse s = Some t.

(** Most recent first, by the creation times themselves: of two records
    of the list the one that comes first was not created before the
    other. *)
Definition by_creation_descending (l : list value) : Prop :=
  ∀ i j a b ta tb,
    i < j → l !! i = Some a → l !! j = Some b →
    created_at a ta → created_at b tb → (tb ≤ ta)%Z.

(** What an accepted request makes of the users collection before it is
    written: a record appended by a signup, or one property of one
    record replaced. *)
Inductive users_step (us : list value) : list value → Prop :=
| step_signup (b : value) (t : Z) :
    signup_incomplete b = false →
    rejects (same_email (field b (js "email"))) us →
    users_step us (us ++ [new_user b t])
| step_status (l1 l2 : list value) (o : list (jsstring * value)) (s : jsstring) :
    us = l1 ++ VObj o :: l2 →
    valid_status (VStr s) = true →
    users_step us (l1 ++ VObj (obj_set o (js "status") (VStr s)) :: l2)
| step_course (l1 l2 : list value) (o : list (jsstring * value))
    (cs : list value) (name : value) :
    us = l1 ++ VObj o :: l2 →
    course_list o = VArr cs →
    truthy name = true →
    find_from (named name) cs = Ret VUndef →
    users_step us (l1 ++ set_courses o (cs ++ [new_course name]) :: l2)
| step_progress (l1 l2 : list value) (o : list (jsstring * value))
    (c1 c2 : list value) (c : list (jsstring * value)) (x : float) :
    us = l1 ++ VObj o :: l2 →
    course_list o = VArr (c1 ++ VObj c :: c2) →
    users_step us
      (l1 ++ set_courses o (c1 ++ VObj (obj_set c (js "progress") (VNum x)) :: c2)
          :: l2)
| step_log (l1 l2 : list value) (o : list (jsstring * value))
    (log : list value) (text : value) (local_time : jsstring) :
    us = l1 ++ VObj o :: l2 →
    log_list o = VArr log →
    users_step us
      (l1 ++ VObj (obj_set o (js "projectLog")
                     (VArr (log_entry text local_time :: log))) :: l2).



(** The document and the record of a request that passes the checks
    of one of the four routes that append. *)
Definition appended (q : request) : option (jsstring * value) :=
  match q with
  | PostVideo b t =>
    if negb (truthy (field b (js "course")))
       || negb (truthy (field b (js "title")))
       || negb (truthy (field b (js "src")))
    then None else Some (courseVideos_json, new_video b t)
  | PostTest b t =>
    if test_incomplete b then None else Some (tests_json, new_test b t)
  | SubmitResult b t =>
    if result_incomplete b then None
    else
      match ToNumber (field b (js "score")), ToNumber (field b (js "total")) with
      | Ret score, Ret total => Some (testResults_json, new_result b score total t)
      | _, _ => None
      end
  | Ask b t t' =>
    if question_incomplete b then None
    else Some (questions_json, new_question b t t')
  | _ => None
  end.

End Vocabulary.

(** ** Sample stores and requests

    Concrete inputs, on which the routes are run with the reference
    engine. *)

(** A record with every kind of JSON value in it. *)
Definition sample_record : value :=
  VObj [(js "name", str "Ada"); (js "progress", VNum 75);
        (js "tags", VArr [VBool true; VNull; str "a\b"; VNum 0.5]);
        (js "ratio", VNum 0.1); (js "debt", VNum (-12.5));
        (js "large", VNum 1e21); (js "least", VNum 5e-324);
        (js "profile", VObj [])].

(** A record with a negative zero, and what comes back for it. *)
Definition signed_zero_record (x : float) : value :=
  VObj [(js "name", str "Ada"); (js "balance", VNum x)].

(** A store whose users document is not JSON. *)
Definition corrupt_world : World :=
  put users_json (js "not valid json") empty_world.

(** A complete signup request of a student. *)
Definition signup_body (email : string) : value :=
  VObj [(js "name", str "Ada"); (js "email", str email); (js "phone", str "555");
        (js "password", str "pw"); (js "role", str "student")].

(** The store after that signup. *)
Definition signed_up (email : string) (w : World) : World :=
  snd (signup (signup_body email) 1700000000000 w).

(** The bodies of the two course requests. *)
Definition course_body (n : string) : value := VObj [(js "name", str n)].

Definition progress_body (n : string) (x : float) : value :=
  VObj [(js "name", str n); (js "progress", VNum x)].

(** The store after a course was added to a student. *)
Definition enrolled (email course : string) (w : World) : World :=
  snd (add_course (js email) (course_body course) w).

Definition physics_student : World :=
  enrolled "b@x.com" "Physics" (signed_up "b@x.com" empty_world).

Definition math_student : World :=
  enrolled "b@x.com" "Math" (signed_up "b@x.com" empty_world).

(** A progress update whose progress is a text. *)
Definition text_progress (n p : string) : value :=
  VObj [(js "name", str n); (js "progress", str p)].

(** A question record, as far as the listing reads it. *)
Definition question (text created : string) : value :=
  VObj [(js "text", str text); (js "createdAt", str created)].

Definition three_questions : list value :=
  [question "first" "2024-01-01T10:00:00.000Z";
   question "third" "2024-03-01T10:00:00.000Z";
   question "second" "2024-02-01T10:00:00.000Z"].

Definition asked : World :=
  put questions_json (ser 0 (VArr three_questions)) empty_world.

(** A questions document with an entry that is no record. *)
Definition null_among_questions : World :=
  put questions_json
    (ser 0 (VArr [question "first" "2024-01-01T10:00:00.000Z"; VNull]))
    empty_world.

(** The login request that goes with [signup_body]. *)
Definition login_body (email : string) : value :=
  VObj [(js "email", str email); (js "password", str "pw");
        (js "role", str "student")].

(** The store after an admin approved the account. *)
Definition approved (email : string) (w : World) : World :=
  snd (patch_status (js email) approve w).

Definition ada_pending : World := signed_up "A@X.com" empty_world.

Definition ada_approved : World := approved "a@x.com" ada_pending.

Definition video_body (course title : string) : value :=
  VObj [(js "course", str course); (js "title", str title);
        (js "src", str "/uploads/videos/1_intro.mp4")].

Definition busy_day : list request :=
  [Signup (signup_body "b@x.com") 1700000000000;
   SetStatus (js "B@X.com") approve;
   AddCourse (js "b@x.com") (course_body "Math");
   SetProgress (js "b@x.com") (text_progress "Math" "abc");
   PostVideo (video_body "CS101" "Intro") 1700000100000;
   Login (login_body "b@x.com")].

Definition video (id course title : string) : value :=
  VObj [(js "id", str id); (js "course", str course); (js "title", str title)].

Definition three_videos : list value :=
  [video "v_1" "CS101" "Intro"; video "v_2" "MA201" "Limits";
   video "v_3" "CS101" "Loops"].

Definition video_shelf : World :=
  put courseVideos_json (ser 0 (VArr three_videos)) empty_world.

Definition holed_shelf : World :=
  put courseVideos_json (ser 0 (VArr [video "v_1" "CS101" "Intro"; VNull])) empty_world.

Definition course_rush : list request :=
  [Signup (signup_body "b@x.com") 1700000000000;
   AddCourse (js "b@x.com") (course_body "Math");
   AddCourse (js "B@X.com") (course_body "Physics");
   AddCourse (js "b@x.com") (course_body "Math");
   SetProgress (js "b@x.com") (progress_body "Math" 75)].

Definition ask_body (course text : string) : value :=
  VObj [(js "course", str course); (js "videoId", str "v_1");
        (js "question", str text); (js "studentEmail", str "b@x.com")].

Definition question_hour : list request :=
  [Ask (ask_body "CS101" "Why?") 1700000000000 1700000000001;
   Signup (signup_body "b@x.com") 1700000000500;
   Ask (ask_body "MA201" "How?") 1700000001000 1700000001000;
   Ask (ask_body "CS101" "When?") 1700000002000 1700000002000;
   Ask (VObj [(js "course", str "CS101")]) 1700000003000 1700000003000].

Definition video_day : list request :=
  [PostVideo (video_body "CS101" "Intro") 1700000000000;
   PostVideo (video_body "MA201" "Limits") 1700000100000;
   PostVideo (VObj [(js "title", str "No course")]) 1700000200000].

Definition log_body (text : string) : value := VObj [(js "text", str text)].

Definition logged (email text time : string) (w : World) : World :=
  snd (post_project_log (js email) (log_body text) (js time) w).

Definition test_body (course question : string) (options : list value) : value :=
  VObj [(js "course", str course); (js "question", str question);
        (js "options", VArr options); (js "correctIndex", VNum 2)].

Definition exam_day : list request :=
  [PostTest (test_body "CS101" "2+2?" [str "4"; str "5"; str "22"]) 1700000000000;
   PostTest (test_body "CS101" "One option" [str "only"]) 1700000001000;
   PostTest (test_body "MA201" "Limit of 1/n?" [str "0"; str "1"]) 1700000002000;
   ListTests (str "CS101")].

Definition lossy_record : value :=
  VObj [(js "score", VNum PrimFloat.nan); (js "note", VUndef);
        (js "best", VNum PrimFloat.infinity); (js "name", str "Ada")].

Definition numeric_signup : value :=
  VObj [(js "name", str "Ada"); (js "email", VNum 5); (js "phone", str "555");
        (js "password", str "pw"); (js "role", str "student")].

Definition result_body (score total : value) : value :=
  VObj [(js "studentEmail", str "b@x.com"); (js "course", str "CS101");
        (js "score", score); (js "total", total)].

Definition marking : list request :=
  [SubmitResult (result_body (VNum 0) (VNum 10)) 1700000000000;
   SubmitResult (result_body (str "7") (str "ten")) 1700000001000;
   SubmitResult (result_body VNull (VBool true)) 1700000002000;
   SubmitResult (VObj [(js "studentEmail", str "b@x.com");
                       (js "course", str "CS101"); (js "score", VNum 3)])
     1700000003000].

(** * Proofs

    First the built-ins: what is written is read back. *)

Lemma span_app (p : N → bool) (a rest : jsstring) :
  Forall (fun c => p c = true) a →
  match rest with [] => True | c :: _ => p c = false end →
  span p (a ++ rest) = (a, rest).
Proof.
  intros Ha Hr. induction Ha as [|c a Hc Ha IH]; simpl.
  - destruct rest as [|c r]; simpl; [done|]. by rewrite Hr.
  - by rewrite Hc, IH.
Qed.

Lemma span_all (p : N → bool) (a : jsstring) :
  Forall (fun c => p c = true) a → span p a = (a, []).
Proof.
  intros Ha. rewrite <- (app_nil_r a) at 1. by apply span_app.
Qed.

Lemma skip_ws_spaces (n : nat) (s : jsstring) :
  skip_ws (repeat 32%N n ++ s) = skip_ws s.
Proof. induction n; simpl; auto. Qed.

Lemma skip_ws_newline (d : nat) (s : jsstring) :
  skip_ws (newline d ++ s) = skip_ws s.
Proof. unfold newline. simpl. apply skip_ws_spaces. Qed.

Lemma skip_ws_id (c : N) (s : jsstring) :
  is_ws c = false → skip_ws (c :: s) = c :: s.
Proof. intros Hc. simpl. by rewrite Hc. Qed.

(** ** Strings read back *)

Lemma hex_digit_value (d : N) : (d < 16)%N → hex_value (hex_digit d) = Some d.
Proof.
  intros Hd.
  assert (Hcases : In d (map N.of_nat (seq 0 16))).
  { apply in_map_iff. exists (N.to_nat d). split; [apply N2Nat.id|]. apply in_seq. lia. }
  simpl in Hcases.
  repeat (destruct Hcases as [<-|Hcases]; [reflexivity|]). destruct Hcases.
Qed.

Lemma hex4_roundtrip (c : N) :
  (c < 65536)%N →
  ∃ a b x y, hex4 c = [a; b; x; y] ∧ hex4_value a b x y = Some c.
Proof.
  intros Hc. eexists _, _, _, _. split; [reflexivity|].
  unfold hex4_value.
  rewrite !hex_digit_value.
  - f_equal. zify. Z.to_euclidean_division_equations. lia.
  - apply N.mod_lt. lia.
  - apply N.mod_lt. lia.
  - apply N.mod_lt. lia.
  - apply N.Div0.div_lt_upper_bound. lia.
Qed.

Lemma parse_string_escape (c : N) (s str rest : jsstring) :
  (c < 65536)%N →
  parse_string s = Some (str, rest) →
  parse_string (unicode_escape c ++ s) = Some (c :: str, rest).
Proof.
  intros Hc Hs. destruct (hex4_roundtrip c Hc) as (a & b & x & y & Hh & Hv).
  unfold unicode_escape. rewrite Hh. simpl. by rewrite Hv, Hs.
Qed.

Lemma parse_string_plain (c : N) (s str rest : jsstring) :
  (32 <= c)%N → c ≠ 34%N → c ≠ 92%N →
  parse_string s = Some (str, rest) →
  parse_string (c :: s) = Some (c :: str, rest).
Proof.
  intros H32 H34 H92 Hs. simpl.
  destruct (N.eqb_spec c 34); [done|]. destruct (N.eqb_spec c 92); [done|].
  destruct (N.ltb_spec c 32); [lia|]. by rewrite Hs.
Qed.

Lemma parse_string_unit (c : N) (s str rest : jsstring) :
  parse_string s = Some (str, rest) →
  parse_string (quote_unit c ++ s) = Some (c :: str, rest).
Proof.
  intros Hs. unfold quote_unit.
  destruct (N.eqb_spec c 8) as [->|?]; [by simpl; rewrite Hs|].
  destruct (N.eqb_spec c 9) as [->|?]; [by simpl; rewrite Hs|].
  destruct (N.eqb_spec c 10) as [->|?]; [by simpl; rewrite Hs|].
  destruct (N.eqb_spec c 12) as [->|?]; [by simpl; rewrite Hs|].
  destruct (N.eqb_spec c 13) as [->|?]; [by simpl; rewrite Hs|].
  destruct (N.eqb_spec c 34) as [->|?]; [by simpl; rewrite Hs|].
  destruct (N.eqb_spec c 92) as [->|?]; [by simpl; rewrite Hs|].
  destruct (N.ltb_spec c 32).
  - apply parse_string_escape; [lia|done].
  - by apply parse_string_plain.
Qed.

Lemma quote_chars_cons (c : N) (r : jsstring) :
  quote_chars (c :: r) =
    if is_high_surrogate c then
      match r with
      | d :: r' =>
        if is_low_surrogate d then c :: d :: quote_chars r'
        else unicode_escape c ++ quote_chars r
      | [] => unicode_escape c
      end
    else if is_low_surrogate c then unicode_escape c ++ quote_chars r
    else quote_unit c ++ quote_chars r.
Proof. reflexivity. Qed.

Lemma parse_string_quote_chars (s rest : jsstring) :
  parse_string (quote_chars s ++ 34%N :: rest) = Some (s, rest).
Proof.
  remember (length s) as n eqn:Hn.
  revert s Hn. induction n as [n IH] using lt_wf_ind. intros s Hn.
  destruct s as [|c r]; [reflexivity|]. rewrite quote_chars_cons.
  destruct (is_high_surrogate c) eqn:Hhi.
  - assert (Hc : (55296 <= c ∧ c <= 56319)%N).
    { unfold is_high_surrogate in Hhi. apply andb_true_iff in Hhi as [H1 H2].
      apply N.leb_le in H1, H2. lia. }
    destruct r as [|d r'].
    + apply parse_string_escape; [lia|]. reflexivity.
    + destruct (is_low_surrogate d) eqn:Hlo.
      * assert (Hd : (56320 <= d)%N).
        { unfold is_low_surrogate in Hlo. apply andb_true_iff in Hlo as [H1 _].
          by apply N.leb_le in H1. }
        change ((c :: d :: quote_chars r') ++ 34%N :: rest)
          with (c :: d :: (quote_chars r' ++ 34%N :: rest)).
        apply parse_string_plain; [lia..|].
        apply parse_string_plain; [lia..|].
        apply (IH (length r')); [simpl in Hn; lia|done].
      * rewrite <- app_assoc. apply parse_string_escape; [lia|].
        apply (IH (length (d :: r'))); [simpl in *; lia|done].
  - destruct (is_low_surrogate c) eqn:Hlo.
    + assert (Hc : (c <= 57343)%N).
      { unfold is_low_surrogate in Hlo. apply andb_true_iff in Hlo as [_ H2].
        by apply N.leb_le in H2. }
      rewrite <- app_assoc. apply parse_string_escape; [lia|].
      apply (IH (length r)); [simpl in Hn; lia|done].
    + rewrite <- app_assoc. apply parse_string_unit.
      apply (IH (length r)); [simpl in Hn; lia|done].
Qed.

Lemma parse_string_quoted (s rest : jsstring) :
  ∃ c, QuoteJSONString s ++ rest = 34%N :: c ∧ parse_string c = Some (s, rest).
Proof.
  exists (quote_chars s ++ 34%N :: rest). split.
  - unfold QuoteJSONString. simpl. by rewrite <- app_assoc.
  - apply parse_string_quote_chars.
Qed.

(** ** Numbers are written as JSON numbers *)

Lemma is_digit_spec (c : N) : is_digit c = true ↔ (48 <= c <= 57)%N.
Proof.
  unfold is_digit. rewrite andb_true_iff, !N.leb_le. tauto.
Qed.

Lemma digit_numchar (c : N) : is_digit c = true → is_numchar c = true.
Proof. intros Hc. unfold is_numchar. by rewrite Hc. Qed.

Lemma raw_digits_digits (fuel : nat) (n : Z) (acc : jsstring) :
  digits acc → digits (raw_digits fuel n acc).
Proof.
  revert n acc. induction fuel as [|f IH]; intros n acc Hacc; simpl; [done|].
  assert (Hd : digits (Z.to_N (48 + n mod 10) :: acc)).
  { constructor; [|done]. apply is_digit_spec.
    pose proof (Z.mod_pos_bound n 10). lia. }
  destruct (n <? 10)%Z; [done|]. by apply IH.
Qed.

Lemma raw_digits_head (fuel : nat) (n : Z) (acc : jsstring) :
  (0 < n < 2 ^ Z.of_nat fuel)%Z →
  ∃ d r, raw_digits fuel n acc = d :: r ∧ d ≠ 48%N.
Proof.
  revert n acc. induction fuel as [|f IH]; intros n acc Hn.
  - simpl in Hn. lia.
  - simpl. destruct (Z.ltb_spec n 10) as [Hlt|Hge].
    + eexists _, _. split; [reflexivity|].
      rewrite Z.mod_small by lia. lia.
    + apply IH. split.
      * apply Z.div_str_pos. lia.
      * rewrite Nat2Z.inj_succ, Z.pow_succ_r in Hn by lia.
        apply Z.div_lt_upper_bound; lia.
Qed.

Lemma drop_zeros_digits (ds : jsstring) : digits ds → digits (drop_zeros ds).
Proof.
  induction 1 as [|c ds Hc Hds IH]; simpl; [constructor|].
  destruct c as [|p]; [by constructor|].
  repeat (destruct p as [p|p|]; try (by constructor)). done.
Qed.

Lemma dec_digits_digits (n : Z) : digits (dec_digits n).
Proof.
  unfold dec_digits.
  pose proof (drop_zeros_digits _ (raw_digits_digits (S (Z.to_nat (Z.log2 n))) n [] (List.Forall_nil _))) as Hd.
  destruct (drop_zeros _); [|done]. by repeat constructor.
Qed.

Lemma dec_digits_nonempty (n : Z) : dec_digits n ≠ [].
Proof. unfold dec_digits. by destruct (drop_zeros _). Qed.

Lemma dec_digits_head (n : Z) :
  (0 < n)%Z → ∃ d r, dec_digits n = d :: r ∧ d ≠ 48%N.
Proof.
  intros Hn. unfold dec_digits.
  destruct (raw_digits_head (S (Z.to_nat (Z.log2 n))) n []) as (d & r & -> & Hd).
  { split; [done|]. rewrite Nat2Z.inj_succ, Z2Nat.id by apply Z.log2_nonneg.
    apply Z.log2_spec. done. }
  exists d, r. split; [|done].
  destruct d as [|p]; [done|].
  repeat (destruct p as [p|p|]; try done).
Qed.

Lemma strip_trailing_zeros_digits (ds : jsstring) :
  digits ds → digits (strip_trailing_zeros ds).
Proof.
  induction 1 as [|c ds Hc Hds IH]; simpl; [constructor|].
  destruct (strip_trailing_zeros ds).
  - destruct (c =? 48)%N; by repeat constructor.
  - by constructor.
Qed.

Lemma significant_leading (s : Z) : (0 < s)%Z → leading (significant s).
Proof.
  intros Hs. unfold significant.
  destruct (dec_digits_head s Hs) as (d & r & Heq & Hd).
  pose proof (dec_digits_digits s) as Hds. rewrite Heq in *.
  inversion Hds; subst.
  exists d, (strip_trailing_zeros r). repeat split; try done.
  by apply strip_trailing_zeros_digits.
Qed.

Lemma exponent_suffix_tail (n : Z) : exp_tail (exponent_suffix n).
Proof.
  eexists _, _. split; [reflexivity|]. split; [|split].
  - destruct (n - 1 <? 0)%Z; auto.
  - apply dec_digits_digits.
  - apply dec_digits_nonempty.
Qed.

Lemma exp_tail_numchars (t : jsstring) :
  exp_tail t → Forall (fun c => is_numchar c = true) t.
Proof.
  intros (sg & ed & -> & Hsg & Hed & _).
  constructor; [done|]. constructor; [by destruct Hsg as [-> | ->]|].
  eapply Forall_impl; [exact Hed|]. apply digit_numchar.
Qed.

Lemma scan_exponent_tail (t : jsstring) :
  exp_tail t →
  ∃ ex c r, t = c :: r ∧ is_digit c = false ∧ strip_char 46 t = None
            ∧ scan_exponent t = Some (Some ex).
Proof.
  intros (sg & ed & -> & Hsg & Hed & Hne).
  destruct Hsg as [-> | ->].
  - exists (false, ed), 101%N, (43%N :: ed). repeat split; try done.
    simpl. rewrite span_all by done. by destruct ed.
  - exists (true, ed), 101%N, (45%N :: ed). repeat split; try done.
    simpl. rewrite span_all by done. by destruct ed.
Qed.

Lemma scan_int (ip : jsstring) :
  digits ip → scan_decimal ip = Some (ip, None, None).
Proof. intros Hip. unfold scan_decimal. by rewrite span_all. Qed.

Lemma scan_int_exp (ip t : jsstring) :
  digits ip → exp_tail t →
  ∃ ex, scan_decimal (ip ++ t) = Some (ip, None, Some ex).
Proof.
  intros Hip Ht.
  destruct (scan_exponent_tail t Ht) as (ex & c & r & -> & Hc & H46 & Hscan).
  exists ex. unfold scan_decimal.
  rewrite span_app by done. by rewrite H46, Hscan.
Qed.

Lemma scan_frac (ip fp : jsstring) :
  digits ip → digits fp →
  scan_decimal (ip ++ 46%N :: fp) = Some (ip, Some fp, None).
Proof.
  intros Hip Hfp. unfold scan_decimal.
  rewrite span_app by done. simpl. by rewrite span_all.
Qed.

Lemma scan_frac_exp (ip fp t : jsstring) :
  digits ip → digits fp → exp_tail t →
  ∃ ex, scan_decimal (ip ++ 46%N :: fp ++ t) = Some (ip, Some fp, Some ex).
Proof.
  intros Hip Hfp Ht.
  destruct (scan_exponent_tail t Ht) as (ex & c & r & -> & Hc & H46 & Hscan).
  exists ex. unfold scan_decimal.
  rewrite span_app by done. simpl. rewrite span_app by done.
  by rewrite Hscan.
Qed.

Lemma digits_numchars (ds : jsstring) :
  digits ds → Forall (fun c => is_numchar c = true) ds.
Proof. intros Hds. eapply Forall_impl; [exact Hds|]. apply digit_numchar. Qed.

Lemma int_ok_leading (d : N) (r : jsstring) (fp : option jsstring) ex :
  d ≠ 48%N → (fp ≠ Some []) → json_unsigned_ok (d :: r, fp, ex) = true.
Proof.
  intros Hd Hfp. unfold json_unsigned_ok.
  apply andb_true_iff. split.
  - destruct r; [done|]. by destruct (N.eqb_spec d 48).
  - destruct fp as [[|]|]; done.
Qed.

Lemma repeat_zero_digits (n : nat) : digits (repeat 48%N n).
Proof. induction n; simpl; by constructor. Qed.

Lemma layout_number_body (ds : jsstring) (n : Z) :
  leading ds → number_body (layout_digits ds n).
Proof.
  intros (d & r & -> & Hd & Hdd & Hr).
  assert (Hds : digits (d :: r)) by by constructor.
  unfold layout_digits.
  set (k := Z.of_nat (length (d :: r))).
  destruct ((k <=? n)%Z && (n <=? 21)%Z) eqn:HA.
  { (* digits then zeros *)
    assert (Hall : digits ((d :: r) ++ repeat 48%N (Z.to_nat (n - k)))).
    { apply Forall_app. split; [done|apply repeat_zero_digits]. }
    split; [by apply digits_numchars|]. split; [by eexists _, _|].
    eexists. split; [by apply scan_int|]. by apply int_ok_leading. }
  destruct ((0 <? n)%Z && (n <=? 21)%Z) eqn:HB.
  { (* digits, dot, digits *)
    apply andb_true_iff in HB as [Hn0 Hn21]. apply Z.ltb_lt in Hn0.
    assert (Hnk : (n < k)%Z).
    { apply andb_false_iff in HA as [HA|HA]; [apply Z.leb_gt in HA; lia|].
      rewrite Hn21 in HA. done. }
    destruct (Z.to_nat n) as [|n'] eqn:Hn'; [lia|].
    assert (Hdrop : drop (S n') (d :: r) ≠ []).
    { intros Hnil. apply (f_equal length) in Hnil.
      rewrite length_drop in Hnil. unfold k in Hnk. simpl in *. lia. }
    assert (Htake : digits (take n' r)).
    { eapply Forall_take. exact Hr. }
    assert (Hdr : digits (drop (S n') (d :: r))).
    { eapply Forall_drop. exact Hds. }
    split; [|split].
    - simpl. constructor; [by apply digit_numchar|].
      apply Forall_app. split; [by apply digits_numchars|].
      constructor; [done|]. by apply digits_numchars.
    - by eexists _, _.
    - eexists. split.
      + change (take (S n') (d :: r)) with (d :: take n' r).
        apply scan_frac; [by constructor|done].
      + apply int_ok_leading; [done|]. congruence. }
  destruct ((-6 <? n)%Z && (n <=? 0)%Z) eqn:HC.
  { (* 0. zeros digits *)
    assert (Hfp : digits (repeat 48%N (Z.to_nat (- n)) ++ d :: r)).
    { apply Forall_app. split; [apply repeat_zero_digits|done]. }
    split; [|split].
    - constructor; [done|]. constructor; [done|]. by apply digits_numchars.
    - by eexists _, _.
    - eexists. split.
      + apply (scan_frac [48%N]); [by repeat constructor|done].
      + simpl. by destruct (repeat 48%N _ ++ _) eqn:E;
          [apply app_eq_nil in E as [_ ?]|]. }
  pose proof (exponent_suffix_tail n) as Ht.
  destruct r as [|d' r'].
  - (* one digit and an exponent *)
    split; [|split].
    + constructor; [by apply digit_numchar|]. by apply exp_tail_numchars.
    + by eexists _, _.
    + destruct (scan_int_exp [d] _ ltac:(by repeat constructor) Ht) as [ex Hscan].
      eexists. split; [exact Hscan|]. by apply int_ok_leading.
  - (* digit, dot, digits and an exponent *)
    split; [|split].
    + constructor; [by apply digit_numchar|]. constructor; [done|].
      apply Forall_app. split; [by apply digits_numchars|by apply exp_tail_numchars].
    + by eexists _, _.
    + destruct (scan_frac_exp [d] (d' :: r') _ ltac:(by repeat constructor) Hr Ht)
        as [ex Hscan].
      eexists. split; [exact Hscan|]. by apply int_ok_leading.
Qed.

Lemma pick_digits_pos sf p q t s : pick_digits sf p q t = Some s → (0 < s)%Z.
Proof.
  unfold pick_digits. destruct (scale10 p q t) as [a b].
  destruct (reads_back sf (a / b) t) eqn:H1, (reads_back sf (a / b + 1) t) eqn:H2;
    intros Hs; repeat case_match; simplify_eq;
    unfold reads_back in *; repeat case_match;
    repeat match goal with
           | H : _ && _ = true |- _ => apply andb_true_iff in H as [H ?]
           | H : (0 <? _)%Z = true |- _ => apply Z.ltb_lt in H
           end; done.
Qed.

Lemma shortest_digits_pos sf p q n ks : (0 < fst (shortest_digits sf p q n ks))%Z.
Proof.
  induction ks as [|k ks IH]; simpl.
  - destruct (scale10 p q (n - 17)). simpl. lia.
  - destruct (pick_digits sf p q (n - k)) eqn:Hp; [|done].
    simpl. by eapply pick_digits_pos.
Qed.

Lemma float_digits_leading m e : leading (fst (float_digits m e)).
Proof.
  unfold float_digits. destruct (scale2 _ _ _) as [p q].
  match goal with |- context [shortest_digits ?a ?b ?c ?d ?l] =>
    pose proof (shortest_digits_pos a b c d l) as Hpos;
    destruct (shortest_digits a b c d l) as [s t] end.
  simpl in *. by apply significant_leading.
Qed.

Lemma finite_Prim2SF (x : float) :
  PrimFloat.is_finite x = true →
  (∃ s, Prim2SF x = S754_zero s) ∨ (∃ s m e, Prim2SF x = S754_finite s m e).
Proof.
  unfold PrimFloat.is_finite. intros Hfin.
  apply negb_true_iff, orb_false_iff in Hfin as [Hnan Hinf].
  unfold Prim2SF. rewrite Hnan, Hinf.
  destruct (PrimFloat.is_zero x); [by left; eexists|].
  destruct (Z.frexp x) as [r ex].
  destruct (shr_fexp _ _ _ _ _) as [sh e'].
  destruct (shr_m sh); [by left; eexists|by right; eexists _, _, _|by left; eexists].
Qed.

(** The text of a finite Number: an optional minus sign, then a text
    [json_number] accepts. *)
Lemma NumberToString_finite (x : float) :
  PrimFloat.is_finite x = true →
  ∃ u, number_body u ∧ (NumberToString x = u ∨ NumberToString x = 45%N :: u).
Proof.
  intros Hfin. unfold NumberToString.
  destruct (finite_Prim2SF x Hfin) as [[s ->]|(s & m & e & ->)].
  - exists [48%N]. split; [|by left].
    split; [by repeat constructor|]. split; [by eexists _, _|].
    eexists. split; [reflexivity|done].
  - pose proof (float_digits_leading m e) as Hl.
    destruct (float_digits m e) as [ds n]. simpl in Hl.
    exists (layout_digits ds n). split; [by apply layout_number_body|].
    destruct s; [by right|by left].
Qed.

Lemma json_number_body (u : jsstring) :
  number_body u → is_Some (json_number u) ∧ is_Some (json_number (45%N :: u)).
Proof.
  intros (_ & (c & r & -> & Hc) & parts & Hscan & Hok).
  assert (H45 : (c =? 45)%N = false).
  { apply is_digit_spec in Hc. apply N.eqb_neq. lia. }
  unfold json_number. simpl. rewrite H45, Hscan, Hok.
  destruct (decimal_parts_value parts). split; by eexists.
Qed.

Lemma NumberToString_json (x : float) :
  PrimFloat.is_finite x = true →
  is_Some (json_number (NumberToString x))
  ∧ Forall (fun c => is_numchar c = true) (NumberToString x)
  ∧ ∃ c r, NumberToString x = c :: r ∧ ((c =? 45)%N || is_digit c = true)
           ∧ is_ws c = false ∧ c ≠ 123%N ∧ c ≠ 91%N ∧ c ≠ 34%N.
Proof.
  intros Hfin.
  destruct (NumberToString_finite x Hfin) as (u & Hu & [-> | ->]);
    pose proof (json_number_body u Hu) as [H1 H2];
    destruct Hu as (Hnum & (c & r & -> & Hc) & _).
  - split; [done|]. split; [done|]. exists c, r.
    rewrite Hc, orb_true_r. apply is_digit_spec in Hc.
    repeat split; try done; try lia.
    unfold is_ws. repeat (apply orb_false_iff; split); apply N.eqb_neq; lia.
  - split; [done|]. split; [by constructor|]. eexists _, _. repeat split; done.
Qed.

Lemma parse_number_text (x : float) (rest : jsstring) :
  PrimFloat.is_finite x = true → delimited rest →
  ∃ y, json_number (NumberToString x) = Some y
       ∧ parse_number (NumberToString x ++ rest) = Some (VNum y, rest).
Proof.
  intros Hfin Hrest.
  destruct (NumberToString_json x Hfin) as ([y Hy] & Hnum & _).
  exists y. split; [done|]. unfold parse_number.
  rewrite span_app by done. by rewrite Hy.
Qed.

(** ** Numbers are read back

    The text Number::toString writes for a finite Number is read by
    [JSON.parse] as that Number, the negative zero apart.  The decimal
    digits are compared with the float as rationals. *)

Section Fractions.
Local Open Scope Z_scope.

Lemma two_pos (e : Z) : (0 < 2 ^ e)%Q.
Proof. by apply Qpower_0_lt. Qed.

Lemma ten_pos (e : Z) : (0 < 10 ^ e)%Q.
Proof. by apply Qpower_0_lt. Qed.

Lemma inject_pos (b : Z) : 0 < b → (0 < inject_Z b)%Q.
Proof. intros Hb. by rewrite Zlt_Qlt in Hb. Qed.

Lemma frac_pos (a b : Z) : 0 < a → 0 < b → (0 < frac a b)%Q.
Proof.
  intros Ha Hb. apply inject_pos in Ha, Hb. unfold frac.
  apply Qlt_shift_div_l; [done|]. lra.
Qed.

Lemma frac_mul (a b : Z) : 0 < b → (frac a b * inject_Z b == inject_Z a)%Q.
Proof. intros Hb. apply inject_pos in Hb. unfold frac. field. lra. Qed.

Lemma inject_pow (c e : Z) : 0 <= e → (inject_Z (c ^ e) == inject_Z c ^ e)%Q.
Proof. apply Zpower_Qpower. Qed.

Lemma pow_opp (c : Q) (e : Z) : (0 < c)%Q → (c ^ (- e) * c ^ e == 1)%Q.
Proof.
  intros Hc. rewrite Qpower_opp. field. apply Qpower_not_0. lra.
Qed.

Lemma pow_add (c : Q) (e e' : Z) : (0 < c)%Q → (c ^ (e + e') == c ^ e * c ^ e')%Q.
Proof. intros Hc. apply Qpower_plus. lra. Qed.

(** [scale c p q e]: the fraction [p / q * c^(-e)], as [scale2] and
    [scale10] build it. *)
Lemma scale_frac (c p q e : Z) :
  0 < c → 0 < q →
  let '(n, d) := if 0 <=? e then (p, q * c ^ e) else (p * c ^ (- e), q) in
  0 < d ∧ (frac n d == frac p q * inject_Z c ^ (- e))%Q.
Proof.
  intros Hc Hq. pose proof (inject_pos _ Hc) as Hc'. pose proof (inject_pos _ Hq) as Hq'.
  destruct (Z.leb_spec 0 e) as [He|He].
  - split; [by apply Z.mul_pos_pos, Z.pow_pos_nonneg|].
    unfold frac. rewrite inject_Z_mult, inject_pow by done.
    pose proof (Qpower_0_lt _ e Hc') as Hp.
    rewrite Qpower_opp. field. split; lra.
  - split; [done|]. unfold frac. rewrite inject_Z_mult, inject_pow by lia.
    field. lra.
Qed.

Lemma scale2_frac (p q e : Z) :
  0 < q → ∃ n d, scale2 p q e = (n, d) ∧ 0 < d ∧ (frac n d == frac p q * 2 ^ (- e))%Q.
Proof.
  intros Hq. pose proof (scale_frac 2 p q e ltac:(lia) Hq) as Hs. unfold scale2.
  destruct (0 <=? e); eexists _, _; (split; [reflexivity|exact Hs]).
Qed.

Lemma scale10_frac (p q t : Z) :
  0 < q → ∃ n d, scale10 p q t = (n, d) ∧ 0 < d ∧ (frac n d == frac p q * 10 ^ (- t))%Q.
Proof.
  intros Hq. pose proof (scale_frac 10 p q t ltac:(lia) Hq) as Hs. unfold scale10.
  destruct (0 <=? t); eexists _, _; (split; [reflexivity|exact Hs]).
Qed.

Lemma frac_floor (n d : Z) : n / d = Qfloor (frac n d).
Proof. apply Zdiv_Qdiv. Qed.

Lemma frac_lt (n d : Z) (x : Q) :
  0 < d → (frac n d < x ↔ inject_Z n < x * inject_Z d)%Q.
Proof.
  intros Hd. pose proof (inject_pos _ Hd) as Hd'. pose proof (frac_mul n d Hd) as Hm.
  split; intros Hlt.
  - rewrite <- Hm. apply Qmult_lt_compat_r; done.
  - rewrite <- Hm in Hlt. by apply Qmult_lt_r in Hlt.
Qed.

Lemma frac_gt (n d : Z) (x : Q) :
  0 < d → (x < frac n d ↔ x * inject_Z d < inject_Z n)%Q.
Proof.
  intros Hd. pose proof (inject_pos _ Hd) as Hd'. pose proof (frac_mul n d Hd) as Hm.
  split; intros Hlt.
  - rewrite <- Hm. apply Qmult_lt_compat_r; done.
  - rewrite <- Hm in Hlt. by apply Qmult_lt_r in Hlt.
Qed.

Lemma frac_le (n d : Z) (x : Q) :
  0 < d → (frac n d <= x ↔ inject_Z n <= x * inject_Z d)%Q.
Proof.
  intros Hd. pose proof (inject_pos _ Hd) as Hd'. pose proof (frac_mul n d Hd) as Hm.
  split; intros Hlt.
  - rewrite <- Hm. apply Qmult_le_compat_r; [done|lra].
  - rewrite <- Hm in Hlt. by apply Qmult_le_r in Hlt.
Qed.

Lemma frac_ge (n d : Z) (x : Q) :
  0 < d → (x <= frac n d ↔ x * inject_Z d <= inject_Z n)%Q.
Proof.
  intros Hd. pose proof (inject_pos _ Hd) as Hd'. pose proof (frac_mul n d Hd) as Hm.
  split; intros Hlt.
  - rewrite <- Hm. apply Qmult_le_compat_r; [done|lra].
  - rewrite <- Hm in Hlt. by apply Qmult_le_r in Hlt.
Qed.

(** Rounding to the nearest integer. *)
Lemma round_half_even_near (n d m : Z) :
  0 < d → (2 * m - 1) * d < 2 * n < (2 * m + 1) * d → round_half_even n d = m.
Proof.
  intros Hd Hn. unfold round_half_even.
  pose proof (Z.div_mod n d ltac:(lia)) as Hdm.
  pose proof (Z.mod_pos_bound n d Hd) as Hr.
  set (q := n / d) in *. set (r := n mod d) in *.
  destruct (Z.ltb_spec (2 * r) d); [nia|].
  destruct (Z.ltb_spec d (2 * r)); [nia|].
  assert (Hd2 : d = 2 * r) by lia. exfalso.
  assert (2 * m - 1 < 2 * q + 1 < 2 * m + 1) by nia. lia.
Qed.

Lemma round_half_even_ext (n d n' d' : Z) :
  0 < d → 0 < d' → n * d' = n' * d → round_half_even n d = round_half_even n' d'.
Proof.
  intros Hd Hd' Heq. unfold round_half_even.
  pose proof (Z.div_mod n d ltac:(lia)) as Hdm.
  pose proof (Z.mod_pos_bound n d Hd) as Hr.
  pose proof (Z.div_mod n' d' ltac:(lia)) as Hdm'.
  pose proof (Z.mod_pos_bound n' d' Hd') as Hr'.
  assert (Hq : n / d = n' / d').
  { rewrite <- (Z.div_mul_cancel_r n d d'), <- (Z.div_mul_cancel_r n' d' d) by lia.
    by rewrite Heq, (Z.mul_comm d d'). }
  rewrite <- Hq in *.
  set (q := n / d) in *. set (r := n mod d) in *. set (r' := n' mod d') in *.
  assert (Hrr : r * d' = r' * d) by nia.
  destruct (Z.ltb_spec (2 * r) d), (Z.ltb_spec (2 * r') d'); try nia.
  destruct (Z.ltb_spec d (2 * r)), (Z.ltb_spec d' (2 * r')); nia.
Qed.

End Fractions.

Section Rounding.
Local Open Scope Z_scope.

Lemma two_succ (e : Z) : (2 ^ (e + 1) == 2 * 2 ^ e)%Q.
Proof. rewrite pow_add by done. change (2 ^ 1)%Q with 2%Q. ring. Qed.

Lemma two_pred (e : Z) : (2 * 2 ^ (e - 1) == 2 ^ e)%Q.
Proof. rewrite <- two_succ. by replace (e - 1 + 1) with e by lia. Qed.

Lemma two_mono (e e' : Z) : e <= e' → (2 ^ e <= 2 ^ e')%Q.
Proof. intros He. by apply Qpower_le_compat_l. Qed.

Lemma log2_bounds (a : Z) :
  0 < a → (2 ^ Z.log2 a <= inject_Z a ∧ inject_Z a < 2 * 2 ^ Z.log2 a)%Q.
Proof.
  intros Ha. pose proof (Z.log2_spec a Ha) as [Hlo Hhi].
  pose proof (Z.log2_nonneg a) as Hl.
  rewrite Zle_Qle in Hlo. rewrite Zlt_Qlt in Hhi.
  rewrite inject_pow in Hlo by done.
  rewrite inject_pow in Hhi by lia.
  unfold Z.succ in Hhi. rewrite two_succ in Hhi. done.
Qed.

(** The value [v * 2^(-e)] as the exponent moves. *)
Lemma shift_exp (v : Q) (e e' : Z) :
  (v * 2 ^ (- e') == v * 2 ^ (- e) * 2 ^ (e - e'))%Q.
Proof.
  replace (- e') with (- e + (e - e')) by lia. rewrite pow_add by done. ring.
Qed.

Lemma shift_le (v : Q) (e e' : Z) :
  (0 < v)%Q → e <= e' → (v * 2 ^ (- e') <= v * 2 ^ (- e))%Q.
Proof.
  intros Hv He. pose proof (two_mono (- e') (- e) ltac:(lia)) as Hm.
  apply Qmult_le_l; done.
Qed.

Lemma shift_double (v : Q) (e e' : Z) :
  (0 < v)%Q → e' < e → (2 * (v * 2 ^ (- e)) <= v * 2 ^ (- e'))%Q.
Proof.
  intros Hv He. pose proof (two_mono (- (e - 1)) (- e') ltac:(lia)) as Hm.
  pose proof (two_pred (- (e - 1))) as Hp.
  replace (- (e - 1) - 1) with (- e) in Hp by lia.
  assert (Hle : (v * 2 ^ (- (e - 1)) <= v * 2 ^ (- e'))%Q) by by apply Qmult_le_l.
  rewrite <- Hp in Hle. lra.
Qed.

(** The exponent [round_binary64] settles on, before the subnormal
    floor: the one that brings the value into [2^52, 2^53). *)
Lemma exponent_estimate (a b : Z) :
  0 < a → 0 < b →
  let e0 := Z.log2 a - Z.log2 b - 52 in
  let '(n0, d0) := scale2 a b e0 in
  let e1 := if n0 / d0 <? 2 ^ 52 then e0 - 1 else e0 in
  (4503599627370496 <= frac a b * 2 ^ (- e1) ∧ frac a b * 2 ^ (- e1) < 9007199254740992)%Q.
Proof.
  intros Ha Hb e0.
  destruct (scale2_frac a b e0 Hb) as (n0 & d0 & -> & Hd0 & Hw0).
  pose proof (log2_bounds a Ha) as [Ha1 Ha2].
  pose proof (log2_bounds b Hb) as [Hb1 Hb2].
  pose proof (frac_mul a b Hb) as Hv. pose proof (frac_pos a b Ha Hb) as Hvpos.
  pose proof (inject_pos _ Hb) as Hb'.
  set (v := frac a b) in *.
  (* v * 2^(-e0) lies between 2^51 and 2^53 *)
  assert (He0 : (2 ^ (- e0) * 2 ^ Z.log2 a == 4503599627370496 * 2 ^ Z.log2 b)%Q).
  { unfold e0. replace (- (Z.log2 a - Z.log2 b - 52)) with (52 + Z.log2 b + - Z.log2 a) by lia.
    rewrite !pow_add by done. rewrite <- Qmult_assoc, pow_opp by done.
    change (2 ^ 52)%Q with 4503599627370496%Q. ring. }
  pose proof (two_pos (- e0)) as Hp0. pose proof (two_pos (Z.log2 a)) as Hpa.
  pose proof (two_pos (Z.log2 b)) as Hpb.
  set (P := (2 ^ (- e0))%Q) in *. set (A := (2 ^ Z.log2 a)%Q) in *.
  set (B := (2 ^ Z.log2 b)%Q) in *.
  assert (H2 : (v * P * inject_Z b == P * inject_Z a)%Q) by (rewrite <- Hv; ring).
  assert (H3 : (P * A <= P * inject_Z a)%Q) by (apply Qmult_le_l; lra).
  assert (H4 : (P * inject_Z a < P * (2 * A))%Q) by (apply Qmult_lt_l; lra).
  assert (Hw_lo : (2251799813685248 < v * P)%Q).
  { apply (Qmult_lt_r _ _ (inject_Z b) Hb'). lra. }
  assert (Hw_hi : (v * P < 9007199254740992)%Q).
  { apply (Qmult_lt_r _ _ (inject_Z b) Hb'). lra. }
  rewrite frac_floor, (Qfloor_comp _ _ Hw0).
  pose proof (Qfloor_le (v * P)) as Hf1. pose proof (Qlt_floor (v * P)) as Hf2.
  change (2 ^ 52) with 4503599627370496.
  destruct (Z.ltb_spec (Qfloor (v * P)) 4503599627370496) as [Hlt|Hge];
    cbv beta iota zeta.
  - assert (Hf3 : (inject_Z (Qfloor (v * P) + 1) <= 4503599627370496)%Q).
    { change 4503599627370496%Q with (inject_Z 4503599627370496). rewrite <- Zle_Qle. lia. }
    pose proof (two_pred (- (e0 - 1))) as Hp.
    replace (- (e0 - 1) - 1) with (- e0) in Hp by lia. fold P in Hp.
    set (P' := (2 ^ (- (e0 - 1)))%Q) in *.
    assert (Hvp : (v * P' == 2 * (v * P))%Q) by (rewrite <- Hp; ring).
    rewrite Hvp. lra.
  - assert (Hf3 : (4503599627370496 <= inject_Z (Qfloor (v * P)))%Q).
    { change 4503599627370496%Q with (inject_Z 4503599627370496). by rewrite <- Zle_Qle. }
    fold P. lra.
Qed.

Lemma round_binary64_at (neg : bool) (p q : Z) :
  0 < p → 0 < q →
  ∃ e1, (4503599627370496 <= frac p q * 2 ^ (- e1)
         ∧ frac p q * 2 ^ (- e1) < 9007199254740992)%Q
        ∧ round_binary64 neg p q = round_at neg p q (Z.max e1 (-1074)).
Proof.
  intros Hp Hq. pose proof (exponent_estimate p q Hp Hq) as He.
  unfold round_binary64. cbv zeta in He.
  destruct (scale2 p q (Z.log2 p - Z.log2 q - 52)) as [n0 d0].
  eexists. split; [exact He|]. reflexivity.
Qed.

Lemma estimate_le (v : Q) (e e' : Z) :
  (0 < v)%Q → (4503599627370496 <= v * 2 ^ (- e))%Q →
  (v * 2 ^ (- e') < 9007199254740992)%Q → e <= e'.
Proof.
  intros Hv He He'. destruct (Z.le_gt_cases e e') as [|Hlt]; [done|].
  pose proof (shift_double v e e' Hv Hlt). lra.
Qed.

Lemma estimate_unique (v : Q) (e e' : Z) :
  (0 < v)%Q →
  (4503599627370496 <= v * 2 ^ (- e) ∧ v * 2 ^ (- e) < 9007199254740992)%Q →
  (4503599627370496 <= v * 2 ^ (- e') ∧ v * 2 ^ (- e') < 9007199254740992)%Q →
  e = e'.
Proof.
  intros Hv [H1 H2] [H3 H4].
  pose proof (estimate_le v e e' Hv H1 H4). pose proof (estimate_le v e' e Hv H3 H2). lia.
Qed.

Lemma frac_eq (a b a' b' : Z) :
  0 < b → 0 < b' → a * b' = a' * b → (frac a b == frac a' b')%Q.
Proof.
  intros Hb Hb' Heq. apply inject_pos in Hb, Hb'.
  apply (f_equal inject_Z) in Heq. rewrite !inject_Z_mult in Heq.
  unfold frac. apply (Qmult_inj_r _ _ (inject_Z b * inject_Z b')%Q).
  - intros H0. assert (0 < inject_Z b * inject_Z b')%Q by (apply Qmult_lt_0_compat; done). lra.
  - transitivity (inject_Z a * inject_Z b')%Q; [field; lra|].
    rewrite Heq. field. lra.
Qed.

Lemma frac_eq_inv (a b a' b' : Z) :
  0 < b → 0 < b' → (frac a b == frac a' b')%Q → a * b' = a' * b.
Proof.
  intros Hb Hb' Heq. pose proof (frac_mul a b Hb) as H1. pose proof (frac_mul a' b' Hb') as H2.
  apply inject_Z_injective. rewrite !inject_Z_mult, <- H1, <- H2, Heq. ring.
Qed.

Lemma round_at_ext (neg : bool) (p q p' q' e : Z) :
  0 < q → 0 < q' → p * q' = p' * q → round_at neg p q e = round_at neg p' q' e.
Proof.
  intros Hq Hq' Heq. unfold round_at.
  destruct (scale2_frac p q e Hq) as (n & d & -> & Hd & Hn).
  destruct (scale2_frac p' q' e Hq') as (n' & d' & -> & Hd' & Hn').
  rewrite (round_half_even_ext n d n' d'); [done..|].
  apply frac_eq_inv; [done..|]. rewrite Hn, Hn'.
  by rewrite (frac_eq p q p' q').
Qed.

(** [round_binary64] is a function of the rational it is given. *)
Lemma round_binary64_ext (neg : bool) (p q p' q' : Z) :
  0 < p → 0 < q → 0 < p' → 0 < q' → p * q' = p' * q →
  round_binary64 neg p q = round_binary64 neg p' q'.
Proof.
  intros Hp Hq Hp' Hq' Heq.
  destruct (round_binary64_at neg p q Hp Hq) as (e1 & He1 & ->).
  destruct (round_binary64_at neg p' q' Hp' Hq') as (e1' & He1' & ->).
  pose proof (frac_eq p q p' q' Hq Hq' Heq) as Hv.
  assert (e1 = e1') as <-.
  { apply (estimate_unique (frac p q)); [by apply frac_pos|done|].
    by rewrite Hv. }
  by apply round_at_ext.
Qed.

Lemma round_at_near (neg : bool) (p q m e : Z) :
  0 < q → 0 < m < 2 ^ 53 → e <= 971 →
  (inject_Z m - (1 # 2) < frac p q * 2 ^ (- e))%Q →
  (frac p q * 2 ^ (- e) < inject_Z m + (1 # 2))%Q →
  round_at neg p q e = S754_finite neg (Z.to_pos m) e.
Proof.
  intros Hq Hm He Hlo Hhi. unfold round_at.
  destruct (scale2_frac p q e Hq) as (n & d & -> & Hd & Hn).
  rewrite <- Hn in Hlo, Hhi.
  apply frac_gt in Hlo; [|done]. apply frac_lt in Hhi; [|done].
  rewrite (round_half_even_near n d m); [|done|].
  - destruct (Z.eqb_spec m (2 ^ 53)) as [|_]; [lia|].
    destruct m as [|pm|]; [lia| |lia].
    destruct (Z.ltb_spec 971 e); [lia|]. done.
  - assert (H1 : 2 * m * d < 2 * n + d).
    { rewrite Zlt_Qlt, inject_Z_plus, !inject_Z_mult.
      change (inject_Z 2) with 2%Q. lra. }
    assert (H2 : 2 * n < 2 * m * d + d).
    { rewrite Zlt_Qlt, inject_Z_plus, !inject_Z_mult.
      change (inject_Z 2) with 2%Q. lra. }
    lia.
Qed.

Lemma round_at_carry (neg : bool) (p q e : Z) :
  0 < q → e < 971 →
  (9007199254740992 - (1 # 2) < frac p q * 2 ^ (- e))%Q →
  (frac p q * 2 ^ (- e) < 9007199254740992)%Q →
  round_at neg p q e = S754_finite neg (Z.to_pos (2 ^ 52)) (e + 1).
Proof.
  intros Hq He Hlo Hhi. unfold round_at.
  destruct (scale2_frac p q e Hq) as (n & d & -> & Hd & Hn).
  rewrite <- Hn in Hlo, Hhi.
  apply frac_gt in Hlo; [|done]. apply frac_lt in Hhi; [|done].
  rewrite (round_half_even_near n d (2 ^ 53)); [|done|].
  - change (2 ^ 53 =? 2 ^ 53) with true. cbv iota.
    destruct (Z.ltb_spec 971 (e + 1)); [lia|]. done.
  - change (2 ^ 53) with 9007199254740992. split.
    + rewrite Zlt_Qlt, !inject_Z_mult. 
      change (inject_Z (2 * 9007199254740992 - 1)) with 18014398509481983%Q.
      change (inject_Z 2) with 2%Q. lra.
    + rewrite Zlt_Qlt, !inject_Z_mult.
      change (inject_Z (2 * 9007199254740992 + 1)) with 18014398509481985%Q.
      change (inject_Z 2) with 2%Q. lra.
Qed.

(** A rational close enough to the float [m * 2^e] rounds to it: less
    than half a unit in the last place away, a quarter below a power of
    two. *)
Lemma round_binary64_near (neg : bool) (p q m e : Z) :
  0 < p → 0 < q → canonical m e →
  (inject_Z m - (1 # 2) < frac p q * 2 ^ (- e))%Q →
  (frac p q * 2 ^ (- e) < inject_Z m + (1 # 2))%Q →
  (m = 2 ^ 52 → (inject_Z m - (1 # 4) < frac p q * 2 ^ (- e))%Q) →
  round_binary64 neg p q = S754_finite neg (Z.to_pos m) e.
Proof.
  intros Hp Hq (Hm & He & Hnorm) Hlo Hhi Hpow.
  destruct (round_binary64_at neg p q Hp Hq) as (e1 & [He1 He1'] & ->).
  pose proof (frac_pos p q Hp Hq) as Hv. set (v := frac p q) in *.
  assert (Hm53 : (inject_Z m <= 9007199254740991)%Q).
  { change 9007199254740991%Q with (inject_Z (2 ^ 53 - 1)). rewrite <- Zle_Qle. lia. }
  destruct (Qlt_le_dec (v * 2 ^ (- e)) 4503599627370496) as [Hsub|Hnor].
  - (* below 2^52 at the exponent e *)
    assert (Hlt : e1 < e).
    { destruct (Z.lt_ge_cases e1 e) as [|Hge]; [done|].
      pose proof (shift_le v e e1 Hv Hge). lra. }
    destruct (Z.eq_dec e (-1074)) as [->|Hne].
    + replace (Z.max e1 (-1074)) with (-1074) by lia.
      by apply round_at_near.
    + assert (Hm52 : m = 2 ^ 52).
      { destruct Hnorm as [Hge|]; [|lia].
        destruct (Z.eq_dec m (2 ^ 52)) as [|Hne']; [done|]. exfalso.
        assert (Hm' : (4503599627370497 <= inject_Z m)%Q).
        { change 4503599627370497%Q with (inject_Z (2 ^ 52 + 1)). rewrite <- Zle_Qle. lia. }
        lra. }
      specialize (Hpow Hm52). subst m.
      change (inject_Z (2 ^ 52)) with 4503599627370496%Q in *.
      pose proof (two_pred (- (e - 1))) as Hp2.
      replace (- (e - 1) - 1) with (- e) in Hp2 by lia.
      assert (Hw : (v * 2 ^ (- (e - 1)) == 2 * (v * 2 ^ (- e)))%Q) by (rewrite <- Hp2; ring).
      assert (e1 = e - 1) as ->.
      { apply (estimate_unique v); [done|done|]. rewrite Hw. lra. }
      replace (Z.max (e - 1) (-1074)) with (e - 1) by lia.
      rewrite round_at_carry; [|done|lia|fold v; rewrite Hw; lra..].
      by replace (e - 1 + 1) with e by lia.
  - assert (e1 = e) as ->.
    { apply (estimate_unique v); [done|done|]. split; [done|lra]. }
    replace (Z.max e (-1074)) with e by lia.
    apply round_at_near; [done|done|lia|done|done].
Qed.

End Rounding.

Section Canonical.
Local Open Scope Z_scope.

Lemma digits2_log2 (m : positive) : Zpos (digits2_pos m) = Z.log2 (Zpos m) + 1.
Proof.
  assert (Hsize : ∀ p, digits2_pos p = Pos.size p).
  { induction p as [p IH|p IH|]; simpl; by rewrite ?IH. }
  destruct m as [p|p|]; simpl; rewrite ?Hsize; lia.
Qed.

Lemma Prim2SF_canonical (x : float) (s : bool) (m : positive) (e : Z) :
  Prim2SF x = S754_finite s m e → canonical (Zpos m) e.
Proof.
  intros Hx. pose proof (Prim2SF_valid x) as Hv. rewrite Hx in Hv.
  unfold SpecFloat.valid_binary, bounded, canonical_mantissa, fexp in Hv.
  apply andb_true_iff in Hv as [Hc He].
  apply Z.eqb_eq in Hc. apply Z.leb_le in He.
  rewrite digits2_log2 in Hc.
  change (SpecFloat.emin prec emax) with (-1074) in Hc.
  change prec with 53 in *. change emax with 1024 in *.
  pose proof (Z.log2_spec (Zpos m) ltac:(lia)) as [Hlo Hhi].
  pose proof (Z.log2_nonneg (Zpos m)) as Hl.
  assert (Hcase : Z.log2 (Zpos m) = 52 ∨ (Z.log2 (Zpos m) < 52 ∧ e = -1074)) by lia.
  unfold canonical. destruct Hcase as [H52|[Hlt ->]].
  - rewrite H52 in Hlo, Hhi. change (Z.succ 52) with 53 in Hhi. lia.
  - split; [|lia]. split; [lia|].
    apply Z.lt_le_trans with (2 ^ Z.succ (Z.log2 (Zpos m))); [done|].
    apply Z.pow_le_mono_r; lia.
Qed.

(** The fraction [float_digits] works on is the float itself. *)
Lemma float_fraction (m e : Z) :
  0 < m →
  ∃ p q, scale2 m 1 (- e) = (p, q) ∧ 0 < p ∧ 0 < q
         ∧ (frac p q == inject_Z m * 2 ^ e)%Q
         ∧ Z.log2 p - Z.log2 q = Z.log2 m + e.
Proof.
  intros Hm. unfold scale2. destruct (Z.leb_spec 0 (- e)) as [He|He].
  - exists m, (1 * 2 ^ (- e)). split; [done|].
    pose proof (Z.pow_pos_nonneg 2 (- e) ltac:(lia) He) as Hp.
    split; [done|]. split; [lia|]. split.
    + unfold frac. rewrite inject_Z_mult, inject_pow by done.
      change (inject_Z 1) with 1%Q. change (inject_Z 2) with 2%Q.
      pose proof (pow_opp 2 e ltac:(done)) as Ho. pose proof (two_pos (- e)).
      pose proof (two_pos e).
      apply (Qmult_inj_r _ _ (2 ^ (- e))%Q); [lra|].
      rewrite <- Qmult_assoc, (Qmult_comm (2 ^ e)), Ho. field. lra.
    + rewrite Z.mul_1_l, Z.log2_pow2 by done. lia.
  - exists (m * 2 ^ (- - e)), 1. split; [done|].
    replace (- - e) with e by lia.
    pose proof (Z.pow_pos_nonneg 2 e ltac:(lia) ltac:(lia)) as Hp.
    split; [lia|]. split; [done|]. split.
    + unfold frac. rewrite inject_Z_mult, inject_pow by lia.
      change (inject_Z 1) with 1%Q. change (inject_Z 2) with 2%Q. field.
    + rewrite Z.log2_mul_pow2 by lia. change (Z.log2 1) with 0. lia.
Qed.

End Canonical.

Section DecimalExponent.
Local Open Scope Z_scope.

Lemma ten_succ (e : Z) : (10 ^ (e + 1) == 10 * 10 ^ e)%Q.
Proof. rewrite pow_add by done. change (10 ^ 1)%Q with 10%Q. ring. Qed.

Lemma frac_le_cross (a b a' b' : Z) :
  0 < b → 0 < b' → a * b' <= a' * b → (frac a b <= frac a' b')%Q.
Proof.
  intros Hb Hb' Hle. pose proof (inject_pos _ Hb) as Hq. pose proof (inject_pos _ Hb') as Hq'.
  rewrite Zle_Qle, !inject_Z_mult in Hle.
  apply frac_le; [done|]. 
  apply (Qmult_le_r _ _ (inject_Z b')); [done|].
  pose proof (frac_mul a' b' Hb') as Hm.
  assert (Heq : (frac a' b' * inject_Z b * inject_Z b' == inject_Z a' * inject_Z b)%Q)
    by (rewrite <- Hm; ring).
  rewrite Heq. done.
Qed.

(** A candidate exponent that [first_exponent] passes over. *)
Lemma exponent_passed (p q c : Z) :
  0 < q →
  (let '(a, b) := scale10 p q c in a <? b) = false → (10 ^ c <= frac p q)%Q.
Proof.
  intros Hq. destruct (scale10_frac p q c Hq) as (a & b & -> & Hb & Hab).
  intros Hlt. apply Z.ltb_ge in Hlt.
  assert (H1 : (1 <= frac a b)%Q).
  { apply frac_ge; [done|]. rewrite Zle_Qle in Hlt. lra. }
  rewrite Hab in H1. pose proof (pow_opp 10 c ltac:(done)) as Ho.
  pose proof (ten_pos c) as Hc. pose proof (ten_pos (- c)) as Hc'.
  apply (Qmult_le_r _ _ (10 ^ (- c))%Q); [done|].
  rewrite (Qmult_comm (10 ^ c)), Ho. done.
Qed.

Lemma first_exponent_lower (p q n0 : Z) :
  0 < q →
  let n := first_exponent p q [n0 - 1; n0; n0 + 1; n0 + 2] (n0 + 3) in
  n = n0 - 1 ∨ (10 ^ (n - 1) <= frac p q)%Q.
Proof.
  intros Hq. cbn [first_exponent].
  pose proof (exponent_passed p q (n0 - 1) Hq) as H1.
  pose proof (exponent_passed p q n0 Hq) as H2.
  pose proof (exponent_passed p q (n0 + 1) Hq) as H3.
  pose proof (exponent_passed p q (n0 + 2) Hq) as H4.
  destruct (scale10 p q (n0 - 1)) as [a1 b1]. destruct (a1 <? b1); [by left|].
  destruct (scale10 p q n0) as [a2 b2]. destruct (a2 <? b2); [right; by apply H1|].
  destruct (scale10 p q (n0 + 1)) as [a3 b3].
  destruct (a3 <? b3); [right; replace (n0 + 1 - 1) with n0 by lia; by apply H2|].
  destruct (scale10 p q (n0 + 2)) as [a4 b4].
  destruct (a4 <? b4); [right; replace (n0 + 2 - 1) with (n0 + 1) by lia; by apply H3|].
  right. replace (n0 + 3 - 1) with (n0 + 2) by lia. by apply H4.
Qed.

(** The first candidate is never too large: [10^(n0 - 2) <= 2^d] over
    the exponents of binary64. *)
Lemma estimate_below (d : Z) :
  -1074 <= d <= 1023 → (10 ^ (d * 30103 / 100000 - 2) <= 2 ^ d)%Q.
Proof.
  intros Hd.
  set (chk := fun d : Z =>
    let n := d * 30103 / 100000 - 2 in
    let '(a, b) := scale10 1 1 (- n) in
    let '(a', b') := scale2 1 1 (- d) in a * b' <=? a' * b).
  assert (Hall : forallb chk (map (fun i => Z.of_nat i - 1074) (seq 0 2098)) = true)
    by (vm_compute; reflexivity).
  assert (Hchk : chk d = true).
  { rewrite forallb_forall in Hall. apply Hall. apply in_map_iff.
    exists (Z.to_nat (d + 1074)). split; [lia|]. apply in_seq. lia. }
  unfold chk in Hchk. clear Hall chk.
  set (n := d * 30103 / 100000 - 2) in *.
  destruct (scale10_frac 1 1 (- n) ltac:(lia)) as (a & b & Hs & Hb & Hab).
  destruct (scale2_frac 1 1 (- d) ltac:(lia)) as (a' & b' & Hs' & Hb' & Hab').
  rewrite Hs, Hs' in Hchk. apply Z.leb_le in Hchk.
  pose proof (frac_le_cross a b a' b' Hb Hb' Hchk) as Hle.
  rewrite Hab, Hab' in Hle. replace (- - n) with n in Hle by lia.
  replace (- - d) with d in Hle by lia.
  assert (H1 : (frac 1 1 == 1)%Q) by reflexivity. rewrite H1 in Hle. lra.
Qed.

Lemma decimal_exponent_lower (m e p q : Z) :
  canonical m e → scale2 m 1 (- e) = (p, q) →
  (10 ^ (decimal_exponent p q - 1) <= inject_Z m * 2 ^ e)%Q.
Proof.
  intros (Hm & He & _) Hs.
  destruct (float_fraction m e ltac:(lia)) as (p' & q' & Hs' & Hp & Hq & Hv & Hlog).
  rewrite Hs in Hs'. injection Hs' as <- <-.
  unfold decimal_exponent. rewrite Hlog.
  set (d := Z.log2 m + e). set (n0 := d * 30103 / 100000).
  pose proof (Z.log2_nonneg m) as Hl.
  assert (Hl52 : Z.log2 m < 53) by (apply Z.log2_lt_pow2; lia).
  pose proof (log2_bounds m ltac:(lia)) as [Hlo _].
  assert (Hvd : (2 ^ d <= frac p q)%Q).
  { rewrite Hv. unfold d. rewrite pow_add by done.
    apply Qmult_le_compat_r; [done|]. pose proof (two_pos e). lra. }
  destruct (first_exponent_lower p q n0 Hq) as [->|Hge].
  - rewrite <- Hv. replace (n0 - 1 - 1) with (n0 - 2) by lia.
    pose proof (estimate_below d ltac:(lia)). fold n0 in H. lra.
  - by rewrite <- Hv.
Qed.

End DecimalExponent.

Section SeventeenDigits.
Local Open Scope Z_scope.

Lemma frac_one (s : Z) : (frac s 1 == inject_Z s)%Q.
Proof. unfold frac. change (inject_Z 1) with 1%Q. field. Qed.

Lemma frac_num_pos (a b : Z) : 0 < b → (0 < frac a b)%Q → 0 < a.
Proof.
  intros Hb Hab. apply frac_gt in Hab; [|done].
  rewrite Zlt_Qlt. change (inject_Z 0) with 0%Q. lra.
Qed.

(** [s * 10^t] reads back as the float [m * 2^e] when it is close
    enough to it. *)
Lemma reads_back_near (m : positive) (e s t : Z) :
  canonical (Zpos m) e → 0 < s →
  (inject_Z (Zpos m) - (1 # 2) < inject_Z s * (10 ^ t * 2 ^ (- e)))%Q →
  (inject_Z s * (10 ^ t * 2 ^ (- e)) < inject_Z (Zpos m) + (1 # 2))%Q →
  (Zpos m = 2 ^ 52 →
   (inject_Z (Zpos m) - (1 # 4) < inject_Z s * (10 ^ t * 2 ^ (- e)))%Q) →
  reads_back (S754_finite false m e) s t = true.
Proof.
  intros Hc Hs Hlo Hhi Hpow. unfold reads_back.
  destruct (scale10_frac s 1 (- t) ltac:(lia)) as (a & b & -> & Hb & Hab).
  rewrite frac_one in Hab. replace (- - t) with t in Hab by lia.
  assert (Ha : 0 < a).
  { apply (frac_num_pos a b Hb). rewrite Hab.
    apply Qmult_lt_0_compat; [by apply inject_pos|apply ten_pos]. }
  assert (Hw : (frac a b * 2 ^ (- e) == inject_Z s * (10 ^ t * 2 ^ (- e)))%Q)
    by (rewrite Hab; ring).
  rewrite (round_binary64_near false a b (Zpos m) e); try done.
  - destruct (Z.ltb_spec 0 s); [|lia]. cbn [andb Z.to_pos].
    by rewrite !Z.eqb_refl.
  - by rewrite Hw.
  - by rewrite Hw.
  - intros H52. rewrite Hw. by apply Hpow.
Qed.

Lemma pick_digits_some (sf : spec_float) (p q t : Z) :
  (let '(a, b) := scale10 p q t in
   reads_back sf (a / b) t = true ∨ reads_back sf (a / b + 1) t = true) →
  is_Some (pick_digits sf p q t).
Proof.
  unfold pick_digits. destruct (scale10 p q t) as [a b].
  intros [-> | ->].
  - destruct (reads_back sf (a / b + 1) t); [|by eexists].
    repeat case_match; by eexists.
  - destruct (reads_back sf (a / b) t); [|by eexists].
    repeat case_match; by eexists.
Qed.

(** Seventeen digits identify a binary64 value. *)
Lemma seventeen_digits (m : positive) (e p q : Z) :
  canonical (Zpos m) e → scale2 (Zpos m) 1 (- e) = (p, q) →
  is_Some (pick_digits (S754_finite false m e) p q (decimal_exponent p q - 17)).
Proof.
  intros Hc Hs. pose proof (decimal_exponent_lower _ _ _ _ Hc Hs) as H10.
  destruct (float_fraction (Zpos m) e ltac:(lia)) as (p' & q' & Hs' & Hp & Hq & Hv & _).
  rewrite Hs in Hs'. injection Hs' as <- <-.
  set (n := decimal_exponent p q) in *. set (t := n - 17).
  apply pick_digits_some.
  destruct (scale10_frac p q t Hq) as (a & b & -> & Hb & Hab).
  rewrite Hv in Hab. rewrite frac_floor.
  pose proof (Qfloor_le (frac a b)) as Hf1. pose proof (Qlt_floor (frac a b)) as Hf2.
  rewrite inject_Z_plus in Hf2. change (inject_Z 1) with 1%Q in Hf2.
  assert (Hs0 : 0 <= Qfloor (frac a b)).
  { change 0 with (Qfloor 0). apply Qfloor_resp_le. rewrite Hab.
    apply Qlt_le_weak. pose proof (two_pos e). pose proof (ten_pos (- t)).
    apply Qmult_lt_0_compat; [apply Qmult_lt_0_compat|]; done. }
  assert (HM52 : Zpos m = 2 ^ 52 → (inject_Z (Zpos m) == 4503599627370496)%Q).
  { intros ->. reflexivity. }
  assert (HM : (1 <= inject_Z (Zpos m) ∧ inject_Z (Zpos m) <= 9007199254740991)%Q).
  { destruct Hc as (Hm & _). split.
    - change 1%Q with (inject_Z 1). rewrite <- Zle_Qle. lia.
    - change 9007199254740991%Q with (inject_Z (2 ^ 53 - 1)). rewrite <- Zle_Qle. lia. }
  set (s := Qfloor (frac a b)) in *. set (u := frac a b) in *.
  set (M := inject_Z (Zpos m)) in *. clearbody u s.
  pose proof (two_pos e) as He. pose proof (two_pos (- e)) as He'.
  pose proof (ten_pos t) as Ht. pose proof (ten_pos (- t)) as Ht'.
  pose proof (pow_opp 2 e ltac:(done)) as Ho2. pose proof (pow_opp 10 t ltac:(done)) as Ho10.
  set (g := (10 ^ t * 2 ^ (- e))%Q).
  assert (Hg : (0 < g)%Q) by (apply Qmult_lt_0_compat; done).
  assert (Hug : (u * g == M)%Q).
  { unfold g. rewrite Hab.
    transitivity (M * (2 ^ (- e) * 2 ^ e) * (10 ^ (- t) * 10 ^ t))%Q; [ring|].
    rewrite Ho2, Ho10. ring. }
  assert (Hgap : (10000000000000000 * g <= M)%Q).
  { replace (n - 1) with (16 + t) in H10 by (unfold t; lia).
    rewrite pow_add in H10 by done. change (10 ^ 16)%Q with 10000000000000000%Q in H10.
    fold M in H10.
    assert (H : (10000000000000000 * 10 ^ t * 2 ^ (- e) <= M * 2 ^ e * 2 ^ (- e))%Q)
      by (apply Qmult_le_compat_r; [done|lra]).
    unfold g. rewrite <- (Qmult_assoc M), (Qmult_comm (2 ^ e)), Ho2 in H. lra. }
  assert (Hsg : (inject_Z s * g <= u * g)%Q) by (apply Qmult_le_compat_r; [done|lra]).
  assert (Hsg' : (u * g < (inject_Z s + 1) * g)%Q) by (apply Qmult_lt_compat_r; done).
  destruct (Qlt_le_dec (1 # 2) (u - inject_Z s)) as [Hfar|Hclose].
  - (* the digits above *)
    right. assert (Hd : ((inject_Z s + 1 - u) * g < (1 # 2) * g)%Q)
      by (apply Qmult_lt_compat_r; [done|lra]).
    apply reads_back_near; [done|lia|..];
      rewrite ?inject_Z_plus; change (inject_Z 1) with 1%Q; fold g; fold M.
    + lra.
    + lra.
    + intros _. lra.
  - (* the digits below *)
    left. assert (Hd : ((u - inject_Z s) * g <= (1 # 2) * g)%Q)
      by (apply Qmult_le_compat_r; [done|lra]).
    assert (Hs1 : 0 < s).
    { destruct (Z.lt_ge_cases 0 s) as [|Hle]; [done|]. exfalso.
      rewrite Zle_Qle in Hle. change (inject_Z 0) with 0%Q in Hle.
      assert ((inject_Z s * g <= 0 * g)%Q) by (apply Qmult_le_compat_r; [done|lra]).
      lra. }
    apply reads_back_near; [done|done|..]; fold g; fold M.
    + lra.
    + lra.
    + intros H52. specialize (HM52 H52). lra.
Qed.

End SeventeenDigits.

Section Digits.
Local Open Scope Z_scope.

Lemma pick_digits_reads sf p q t s :
  pick_digits sf p q t = Some s → reads_back sf s t = true.
Proof.
  unfold pick_digits. destruct (scale10 p q t) as [a b].
  destruct (reads_back sf (a / b) t) eqn:H1, (reads_back sf (a / b + 1) t) eqn:H2;
    intros Hs; repeat case_match; by simplify_eq.
Qed.

Lemma shortest_digits_reads sf p q n ks :
  Exists (fun k => is_Some (pick_digits sf p q (n - k))) ks →
  reads_back sf (shortest_digits sf p q n ks).1 (shortest_digits sf p q n ks).2 = true.
Proof.
  induction ks as [|k ks IH]; intros Hex; [by apply Exists_nil in Hex|].
  cbn [shortest_digits].
  destruct (pick_digits sf p q (n - k)) as [s|] eqn:Hp.
  - cbn [fst snd]. by apply (pick_digits_reads sf p q).
  - apply IH. apply Exists_cons in Hex as [Hk|Hks]; [|done].
    rewrite Hp in Hk. by destruct Hk.
Qed.

(** The digits of a float read back as the float. *)
Lemma float_digits_reads (m : positive) (e : Z) :
  canonical (Zpos m) e →
  ∃ s t, 0 < s ∧ reads_back (S754_finite false m e) s t = true
         ∧ float_digits m e = (significant s, t + Z.of_nat (length (dec_digits s))).
Proof.
  intros Hc. unfold float_digits.
  destruct (scale2 (Zpos m) 1 (- e)) as [p q] eqn:Hs.
  pose proof (seventeen_digits m e p q Hc Hs) as H17.
  match goal with |- context [shortest_digits ?sf ?p ?q ?n ?ks] =>
    pose proof (shortest_digits_reads sf p q n ks) as Hr;
    pose proof (shortest_digits_pos sf p q n ks) as Hpos;
    destruct (shortest_digits sf p q n ks) as [s t] end.
  exists s, t. split; [done|]. split; [|done].
  apply Hr. do 16 apply Exists_cons_tl. by apply Exists_cons_hd.
Qed.

Lemma round_binary64_sign (neg : bool) (p q : Z) (s : bool) (m : positive) (e : Z) :
  round_binary64 false p q = S754_finite s m e →
  round_binary64 neg p q = S754_finite neg m e.
Proof.
  unfold round_binary64. repeat case_match; intros; by simplify_eq.
Qed.

(** ** The value of a digit string *)

Lemma digits_value_from_acc (acc : Z) (ds : jsstring) :
  digits_value_from acc ds = acc * 10 ^ Z.of_nat (length ds) + digits_value ds.
Proof.
  unfold digits_value. revert acc. induction ds as [|c r IH]; intros acc.
  - cbn. lia.
  - cbn [digits_value_from length]. rewrite IH, (IH (10 * 0 + _)).
    rewrite Nat2Z.inj_succ, Z.pow_succ_r by lia. ring.
Qed.

Lemma digits_value_cons (c : N) (r : jsstring) :
  digits_value (c :: r) = (Z.of_N c - 48) * 10 ^ Z.of_nat (length r) + digits_value r.
Proof.
  unfold digits_value at 1. cbn [digits_value_from].
  rewrite digits_value_from_acc. ring.
Qed.

Lemma digits_value_app (a b : jsstring) :
  digits_value (a ++ b) = digits_value a * 10 ^ Z.of_nat (length b) + digits_value b.
Proof.
  induction a as [|c a IH]; [rewrite app_nil_l; change (digits_value []) with 0; lia|].
  rewrite <- app_comm_cons, !digits_value_cons, IH, length_app, Nat2Z.inj_add.
  rewrite Z.pow_add_r by lia. ring.
Qed.

Lemma digits_value_zeros (j : nat) : digits_value (repeat 48%N j) = 0.
Proof.
  induction j as [|j IH]; [done|]. cbn [repeat]. rewrite digits_value_cons, IH. lia.
Qed.

Lemma digits_value_nonneg (ds : jsstring) : digits ds → 0 <= digits_value ds.
Proof.
  induction 1 as [|c r Hc Hr IH]; [done|]. rewrite digits_value_cons.
  apply is_digit_spec in Hc.
  pose proof (Z.pow_pos_nonneg 10 (Z.of_nat (length r)) ltac:(lia) ltac:(lia)). nia.
Qed.

Lemma digits_value_leading (ds : jsstring) : leading ds → 0 < digits_value ds.
Proof.
  intros (d & r & -> & Hd & Hdd & Hr). rewrite digits_value_cons.
  apply is_digit_spec in Hdd. pose proof (digits_value_nonneg r Hr).
  pose proof (Z.pow_pos_nonneg 10 (Z.of_nat (length r)) ltac:(lia) ltac:(lia)). nia.
Qed.

Lemma raw_digits_value (fuel : nat) (n : Z) (acc : jsstring) :
  0 <= n < 2 ^ Z.of_nat fuel →
  digits_value (raw_digits fuel n acc)
  = n * 10 ^ Z.of_nat (length acc) + digits_value acc.
Proof.
  revert n acc. induction fuel as [|f IH]; intros n acc Hn.
  - cbn in Hn. cbn [raw_digits]. assert (n = 0) as -> by lia. lia.
  - cbn [raw_digits].
    pose proof (Z.mod_pos_bound n 10 ltac:(lia)) as Hr.
    pose proof (Z.div_mod n 10 ltac:(lia)) as Hdm.
    assert (Hc : Z.of_N (Z.to_N (48 + n mod 10)) - 48 = n mod 10) by lia.
    destruct (Z.ltb_spec n 10) as [Hlt|Hge].
    + rewrite digits_value_cons, Hc, Z.mod_small by lia. done.
    + rewrite IH.
      * rewrite digits_value_cons, Hc. cbn [length].
        rewrite Nat2Z.inj_succ, Z.pow_succ_r by lia.
        set (P := 10 ^ Z.of_nat (length acc)). rewrite Hdm at 3. ring.
      * rewrite Nat2Z.inj_succ, Z.pow_succ_r in Hn by lia.
        split; [apply Z.div_pos; lia|]. apply Z.div_lt_upper_bound; lia.
Qed.

Lemma drop_zeros_value (ds : jsstring) : digits_value (drop_zeros ds) = digits_value ds.
Proof.
  induction ds as [|c r IH]; [done|]. cbn [drop_zeros].
  destruct c as [|p]; [done|].
  repeat (destruct p as [p|p|]; try done).
Qed.

Lemma dec_digits_value (n : Z) : 0 <= n → digits_value (dec_digits n) = n.
Proof.
  intros Hn. unfold dec_digits.
  pose proof (drop_zeros_value (raw_digits (S (Z.to_nat (Z.log2 n))) n [])) as Hv.
  rewrite raw_digits_value in Hv.
  - cbn [length] in Hv. change (digits_value []) with 0 in Hv.
    destruct (drop_zeros _); cbn in Hv |- *; lia.
  - split; [done|]. rewrite Nat2Z.inj_succ, Z2Nat.id by apply Z.log2_nonneg.
    destruct (Z.eq_dec n 0) as [->|]; [done|]. apply Z.log2_spec. lia.
Qed.

Lemma strip_trailing_zeros_spec (ds : jsstring) :
  ∃ j, ds = strip_trailing_zeros ds ++ repeat 48%N j.
Proof.
  induction ds as [|c r [j IH]]; [by exists 0%nat|]. cbn [strip_trailing_zeros].
  destruct (strip_trailing_zeros r) as [|c' r'] eqn:Hr.
  - destruct (N.eqb_spec c 48) as [->|Hc].
    + exists (S j). cbn in IH |- *. by rewrite IH.
    + exists j. cbn in IH |- *. by rewrite IH.
  - exists j. rewrite IH at 1. done.
Qed.

(** The significant digits of [s], and the zeros taken off its end. *)
Lemma significant_spec (s : Z) :
  0 < s →
  ∃ j, dec_digits s = significant s ++ repeat 48%N j
       ∧ digits_value (significant s) * 10 ^ Z.of_nat j = s.
Proof.
  intros Hs. unfold significant. pose proof (dec_digits_value s ltac:(lia)) as Hv.
  destruct (dec_digits_head s Hs) as (d & r & Heq & _). rewrite Heq in *.
  destruct (strip_trailing_zeros_spec r) as [j Hj]. exists j.
  assert (Heq' : d :: r = (d :: strip_trailing_zeros r) ++ repeat 48%N j).
  { cbn. by rewrite <- Hj. }
  split; [done|]. rewrite Heq' in Hv.
  rewrite digits_value_app, digits_value_zeros, repeat_length in Hv. lia.
Qed.

End Digits.

Section Layout.
Local Open Scope Z_scope.

Lemma scan_exponent_suffix (n : Z) :
  scan_exponent (exponent_suffix n)
  = Some (Some (n - 1 <? 0, dec_digits (Z.abs (n - 1)))).
Proof.
  unfold exponent_suffix.
  pose proof (dec_digits_digits (Z.abs (n - 1))) as Hd.
  pose proof (dec_digits_nonempty (Z.abs (n - 1))) as Hne.
  destruct (n - 1 <? 0); cbn; rewrite span_all by done;
    by destruct (dec_digits (Z.abs (n - 1))).
Qed.

Lemma exponent_suffix_value (n : Z) :
  (if n - 1 <? 0 then - digits_value (dec_digits (Z.abs (n - 1)))
   else digits_value (dec_digits (Z.abs (n - 1)))) = n - 1.
Proof.
  rewrite dec_digits_value by lia. destruct (Z.ltb_spec (n - 1) 0); lia.
Qed.

Lemma scan_int_suffix (ip : jsstring) (n : Z) :
  digits ip →
  scan_decimal (ip ++ exponent_suffix n)
  = Some (ip, None, Some (n - 1 <? 0, dec_digits (Z.abs (n - 1)))).
Proof.
  intros Hip. unfold scan_decimal.
  rewrite span_app; [|done|done].
  change (strip_char 46 (exponent_suffix n)) with (@None jsstring).
  cbv beta iota zeta. by rewrite scan_exponent_suffix.
Qed.

Lemma scan_frac_suffix (ip fp : jsstring) (n : Z) :
  digits ip → digits fp →
  scan_decimal (ip ++ 46%N :: fp ++ exponent_suffix n)
  = Some (ip, Some fp, Some (n - 1 <? 0, dec_digits (Z.abs (n - 1)))).
Proof.
  intros Hip Hfp. unfold scan_decimal.
  rewrite span_app; [|done|done]. cbn [strip_char N.eqb Pos.eqb].
  rewrite span_app; [|done|done].
  cbv beta iota zeta. by rewrite scan_exponent_suffix.
Qed.

Lemma ten_inject (e : Z) : 0 <= e → (inject_Z (10 ^ e) == 10 ^ e)%Q.
Proof. intros He. by rewrite inject_pow. Qed.

(** What [json_number] makes of the laid out digits: their value times
    the power of ten of the layout. *)
Lemma layout_value (ds : jsstring) (n : Z) :
  leading ds →
  ∃ parts d k,
    scan_decimal (layout_digits ds n) = Some parts
    ∧ decimal_parts_value parts = (d, k)
    ∧ 0 < d
    ∧ (inject_Z d * 10 ^ k
       == inject_Z (digits_value ds) * 10 ^ (n - Z.of_nat (length ds)))%Q.
Proof.
  intros Hl. pose proof (digits_value_leading ds Hl) as Hpos.
  destruct Hl as (c & r & -> & Hc & Hcd & Hr).
  assert (Hds : digits (c :: r)) by by constructor.
  unfold layout_digits. set (ds := c :: r) in *.
  set (k := Z.of_nat (length ds)).
  destruct ((k <=? n) && (n <=? 21)) eqn:HA.
  { apply andb_true_iff in HA as [Hkn _]. apply Z.leb_le in Hkn.
    assert (Hall : digits (ds ++ repeat 48%N (Z.to_nat (n - k)))).
    { apply Forall_app. split; [done|apply repeat_zero_digits]. }
    eexists _, _, _. split; [by apply scan_int|]. split; [reflexivity|].
    cbv beta iota zeta delta [from_option id]. rewrite app_nil_r, digits_value_app, digits_value_zeros, repeat_length.
    rewrite Z2Nat.id, Z.add_0_r by lia.
    pose proof (Z.pow_pos_nonneg 10 (n - k) ltac:(lia) ltac:(lia)).
    split; [nia|]. change (10 ^ (0 - Z.of_nat (length [])))%Q with 1%Q.
    rewrite inject_Z_mult, ten_inject by lia. ring. }
  destruct ((0 <? n) && (n <=? 21)) eqn:HB.
  { apply andb_true_iff in HB as [Hn0 Hn21]. apply Z.ltb_lt in Hn0.
    assert (Hnk : n < k).
    { apply andb_false_iff in HA as [HA|HA]; [apply Z.leb_gt in HA; lia|].
      rewrite Hn21 in HA. done. }
    eexists _, _, _. split.
    { apply scan_frac; [by apply Forall_take|by apply Forall_drop]. }
    split; [reflexivity|]. cbv beta iota zeta delta [from_option id]. rewrite take_drop.
    split; [done|]. rewrite length_drop.
    replace (0 - Z.of_nat (length ds - Z.to_nat n)) with (n - k) by (unfold k; lia).
    done. }
  destruct ((-6 <? n) && (n <=? 0)) eqn:HC.
  { apply andb_true_iff in HC as [_ Hn0]. apply Z.leb_le in Hn0.
    assert (Hfp : digits (repeat 48%N (Z.to_nat (- n)) ++ ds)).
    { apply Forall_app. split; [apply repeat_zero_digits|done]. }
    eexists _, _, _. split.
    { apply (scan_frac [48%N]); [by repeat constructor|done]. }
    split; [reflexivity|]. cbv beta iota zeta delta [from_option id].
    assert (Hv : digits_value ([48%N] ++ repeat 48%N (Z.to_nat (- n)) ++ ds)
                 = digits_value ds).
    { rewrite app_assoc, digits_value_app.
      change ([48%N] ++ repeat 48%N (Z.to_nat (- n))) with (repeat 48%N (S (Z.to_nat (- n)))).
      rewrite digits_value_zeros. lia. }
    rewrite Hv. split; [done|]. rewrite length_app, repeat_length.
    replace (0 - Z.of_nat (Z.to_nat (- n) + length ds)) with (n - k) by (unfold k; lia).
    done. }
  pose proof (exponent_suffix_value n) as Hex.
  destruct r as [|c' r'].
  - eexists _, _, _. split; [apply (scan_int_suffix [c]); by repeat constructor|].
    split; [reflexivity|]. cbv beta iota zeta delta [from_option id]. rewrite app_nil_r.
    split; [done|]. rewrite Hex. unfold k, ds. cbn [length].
    by replace (n - 1 - Z.of_nat 0) with (n - Z.of_nat 1) by lia.
  - eexists _, _, _. split.
    { apply (scan_frac_suffix [c] (c' :: r')); [by repeat constructor|done]. }
    split; [reflexivity|]. cbv beta iota zeta delta [from_option id].
    split; [done|]. rewrite Hex. unfold k, ds. cbn [length].
    change ([c] ++ c' :: r') with (c :: c' :: r').
    by replace (n - 1 - Z.of_nat (S (length r')))
      with (n - Z.of_nat (S (S (length r')))) by lia.
Qed.

End Layout.

Section ReadBack.
Local Open Scope Z_scope.

(** A decimal [d * 10^k] equal to digits that read back as a float
    denotes that float. *)
Lemma decimal_to_float_reads (neg : bool) (d k : Z) (m : positive) (e s t : Z) :
  reads_back (S754_finite false m e) s t = true →
  0 < d → (inject_Z d * 10 ^ k == inject_Z s * 10 ^ t)%Q →
  decimal_to_float neg d k = SF2Prim (S754_finite neg m e).
Proof.
  intros Hr Hd Heq. unfold reads_back in Hr.
  destruct (scale10_frac s 1 (- t) ltac:(lia)) as (a & b & Hab & Hb & Hv).
  rewrite Hab in Hr. apply andb_true_iff in Hr as [Hs Hr]. apply Z.ltb_lt in Hs.
  rewrite frac_one in Hv. replace (- - t) with t in Hv by lia.
  unfold decimal_to_float. destruct (Z.leb_spec d 0); [lia|].
  destruct (scale10_frac d 1 (- k) ltac:(lia)) as (p & q & -> & Hq & Hv').
  rewrite frac_one in Hv'. replace (- - k) with k in Hv' by lia.
  assert (Ha : 0 < a).
  { apply (frac_num_pos a b Hb). rewrite Hv.
    apply Qmult_lt_0_compat; [by apply inject_pos|apply ten_pos]. }
  assert (Hp : 0 < p).
  { apply (frac_num_pos p q Hq). rewrite Hv'.
    apply Qmult_lt_0_compat; [by apply inject_pos|apply ten_pos]. }
  rewrite (round_binary64_ext neg p q a b); try done.
  - destruct (round_binary64 false a b) as [| | |s0 m' e'] eqn:Hround; try done.
    apply andb_true_iff in Hr as [Hm He].
    apply Z.eqb_eq in Hm, He. injection Hm as <-. subst e'.
    by rewrite (round_binary64_sign neg a b s0 m e).
  - apply frac_eq_inv; [done..|]. by rewrite Hv, Hv', Heq.
Qed.

Lemma strip_minus_digit (c : N) (r : jsstring) :
  is_digit c = true → strip_char 45 (c :: r) = None.
Proof.
  intros Hc. apply is_digit_spec in Hc. cbn [strip_char].
  destruct (N.eqb_spec c 45); [lia|done].
Qed.

(** Number::toString writes digits that [JSON.parse] reads back as the
    same Number. *)
Lemma finite_text_reads_back (x : float) (neg : bool) (m : positive) (e : Z) :
  Prim2SF x = S754_finite neg m e → json_number (NumberToString x) = Some x.
Proof.
  intros Hx. pose proof (Prim2SF_canonical x neg m e Hx) as Hc.
  unfold NumberToString. rewrite Hx.
  destruct (float_digits_reads m e Hc) as (s & t & Hs & Hr & ->).
  pose proof (significant_leading s Hs) as Hl.
  destruct (significant_spec s Hs) as (j & Hj & Hv).
  destruct (layout_value (significant s)
              (t + Z.of_nat (length (dec_digits s))) Hl)
    as (parts & d & k & Hscan & Hparts & Hd & Hdk).
  destruct (layout_number_body (significant s)
              (t + Z.of_nat (length (dec_digits s))) Hl)
    as (_ & (c & r & Hcr & Hcd) & parts' & Hscan' & Hok).
  rewrite Hscan in Hscan'. injection Hscan' as <-.
  assert (Hval : (inject_Z d * 10 ^ k == inject_Z s * 10 ^ t)%Q).
  { assert (Hlen : length (dec_digits s) = (length (significant s) + j)%nat).
    { rewrite Hj at 1. by rewrite length_app, repeat_length. }
    assert (HsQ : (inject_Z s == inject_Z (digits_value (significant s)) * 10 ^ Z.of_nat j)%Q).
    { rewrite <- Hv at 1. by rewrite inject_Z_mult, ten_inject by lia. }
    rewrite Hdk, HsQ, Hlen.
    replace (t + Z.of_nat (length (significant s) + j)
             - Z.of_nat (length (significant s))) with (Z.of_nat j + t) by lia.
    rewrite pow_add by done. ring. }
  assert (Hnum : json_number ((if neg then [45%N] else [])
                                ++ layout_digits (significant s)
                                     (t + Z.of_nat (length (dec_digits s))))
                 = Some (decimal_to_float neg d k)).
  { unfold json_number. destruct neg.
    - cbn [app strip_char N.eqb Pos.eqb]. by rewrite Hscan, Hok, Hparts.
    - rewrite app_nil_l. rewrite Hcr at 1. rewrite strip_minus_digit by done.
      by rewrite Hscan, Hok, Hparts. }
  rewrite Hnum, (decimal_to_float_reads neg d k m e s t) by done.
  by rewrite <- Hx, SF2Prim_Prim2SF.
Qed.

(** Every finite Number but the negative zero. *)
Lemma number_text_reads_back (x : float) :
  PrimFloat.is_finite x = true → negative_zero x = false →
  json_number (NumberToString x) = Some x.
Proof.
  intros Hfin Hnz. unfold negative_zero in Hnz.
  destruct (finite_Prim2SF x Hfin) as [[s Hx]|(s & m & e & Hx)].
  - rewrite Hx in Hnz. destruct s; [done|]. unfold NumberToString. rewrite Hx.
    rewrite <- (SF2Prim_Prim2SF x), Hx. vm_compute. reflexivity.
  - by apply (finite_text_reads_back x s m e).
Qed.

End ReadBack.

(** ** A document reads back as its image *)

Lemma value_ind' (P : value → Prop) :
  P VUndef → P VNull → (∀ b, P (VBool b)) → (∀ x, P (VNum x)) →
  (∀ s, P (VStr s)) →
  (∀ l, Forall P l → P (VArr l)) →
  (∀ o, Forall (fun kv => P kv.2) o → P (VObj o)) →
  ∀ v, P v.
Proof.
  intros Hu Hn Hb Hx Hs Ha Ho.
  fix IH 1. intros [| |b|x|s|l|o].
  - exact Hu.
  - exact Hn.
  - apply Hb.
  - apply Hx.
  - apply Hs.
  - apply Ha. induction l as [|v l IHl]; constructor; [apply IH|exact IHl].
  - apply Ho. induction o as [|[k v] o IHo]; constructor; [apply IH|exact IHo].
Qed.

Lemma skip_ws_idem (s : jsstring) : skip_ws (skip_ws s) = skip_ws s.
Proof.
  induction s as [|c r IH]; simpl; [done|].
  destruct (is_ws c) eqn:Hc; [done|]. simpl. by rewrite Hc.
Qed.

Lemma parse_value_skip (fuel : nat) (s : jsstring) :
  parse_value fuel (skip_ws s) = parse_value fuel s.
Proof. destruct fuel; simpl; [done|]. by rewrite skip_ws_idem. Qed.

Lemma parse_value_newline (fuel d : nat) (s : jsstring) :
  parse_value fuel (newline d ++ s) = parse_value fuel s.
Proof.
  rewrite <- parse_value_skip, skip_ws_newline. apply parse_value_skip.
Qed.

Lemma ser_members_inner (d : nat) (o : list (jsstring * value)) :
  (fix members (o : list (jsstring * value)) : list jsstring :=
     match o with
     | [] => []
     | (k, VUndef) :: r => members r
     | (k, x) :: r =>
       (QuoteJSONString k ++ 58%N :: 32%N :: ser d x) :: members r
     end) o = ser_members d o.
Proof.
  induction o as [|[k x] r IH]; [done|].
  destruct x; first [exact IH | exact (f_equal (cons _) IH)].
Qed.

Lemma ser_obj (d : nat) (o : list (jsstring * value)) :
  ser d (VObj o) =
    match ser_members (S d) o with
    | [] => js "{}"
    | ms => 123%N :: newline (S d) ++ join_with (44%N :: newline (S d)) ms
              ++ newline d ++ [125%N]
    end.
Proof. rewrite <- ser_members_inner. reflexivity. Qed.

Lemma ser_arr (d : nat) (l : list value) :
  ser d (VArr l) =
    match l with
    | [] => js "[]"
    | _ => 91%N :: newline (S d)
             ++ join_with (44%N :: newline (S d)) (map (ser (S d)) l)
             ++ newline d ++ [93%N]
    end.
Proof. reflexivity. Qed.

Lemma image_members_inner (o acc : list (jsstring * value)) :
  (fix members (o acc : list (jsstring * value)) :=
     match o with
     | [] => acc
     | (k, VUndef) :: r => members r acc
     | (k, x) :: r => members r (obj_set acc k (json_image x))
     end) o acc = image_members o acc.
Proof.
  revert acc. induction o as [|[k x] r IH]; intros acc; [done|].
  destruct x; apply IH.
Qed.

Lemma json_image_obj (o : list (jsstring * value)) :
  json_image (VObj o) = VObj (image_members o []).
Proof. rewrite <- image_members_inner. reflexivity. Qed.

Lemma ser_members_cons (d : nat) k x r :
  x ≠ VUndef →
  ser_members d ((k, x) :: r) =
    (QuoteJSONString k ++ 58%N :: 32%N :: ser d x) :: ser_members d r.
Proof. intros Hx. by destruct x. Qed.

Lemma image_members_cons k x r acc :
  x ≠ VUndef →
  image_members ((k, x) :: r) acc = image_members r (obj_set acc k (json_image x)).
Proof. intros Hx. by destruct x. Qed.

(** The first character of a written value starts a JSON value of the
    same kind. *)
Lemma ser_head (d : nat) (v : value) :
  ∃ c r, ser d v = c :: r ∧ is_ws c = false ∧ c ≠ 93%N ∧ c ≠ 125%N.
Proof.
  destruct v as [| |b|x|s|l|o].
  - by eexists _, _.
  - by eexists _, _.
  - destruct b; by eexists _, _.
  - simpl. destruct (PrimFloat.is_finite x) eqn:Hfin; [|by eexists _, _].
    destruct (NumberToString_json x Hfin) as (_ & _ & c & r & -> & Hc & Hws & _).
    exists c, r. repeat split; try done.
    + intros ->. done.
    + intros ->. done.
  - by eexists _, _.
  - rewrite ser_arr. destruct l; by eexists _, _.
  - rewrite ser_obj. destruct (ser_members _ o); by eexists _, _.
Qed.

Lemma ser_nonempty (d : nat) (v : value) : 1 ≤ length (ser d v).
Proof. destruct (ser_head d v) as (c & r & -> & _). simpl. lia. Qed.

Lemma join_with_cons (sep p : jsstring) (ps : list jsstring) :
  join_with sep (p :: ps) =
    match ps with [] => p | _ => p ++ sep ++ join_with sep ps end.
Proof. by destruct ps. Qed.

Lemma parse_value_S (f : nat) (s : jsstring) :
  parse_value (S f) s =
    match skip_ws s with
    | [] => None
    | c :: r =>
      if (c =? 123)%N then
        match strip_char 125 (skip_ws r) with
        | Some r' => Some (VObj [], r')
        | None => parse_members f r []
        end
      else if (c =? 91)%N then
        match strip_char 93 (skip_ws r) with
        | Some r' => Some (VArr [], r')
        | None => parse_elements f r []
        end
      else if (c =? 34)%N then
        match parse_string r with
        | Some (str, r') => Some (VStr str, r')
        | None => None
        end
      else if (c =? 45)%N || is_digit c then parse_number (c :: r)
      else parse_literal (c :: r)
    end.
Proof. reflexivity. Qed.

Lemma parse_elements_S (f : nat) (s : jsstring) (acc : list value) :
  parse_elements (S f) s acc =
    match parse_value f s with
    | Some (v, r) =>
      match skip_ws r with
      | c :: r' =>
        if (c =? 44)%N then parse_elements f r' (acc ++ [v])
        else if (c =? 93)%N then Some (VArr (acc ++ [v]), r')
        else None
      | [] => None
      end
    | None => None
    end.
Proof. reflexivity. Qed.

Lemma parse_members_S (f : nat) (s : jsstring) (acc : list (jsstring * value)) :
  parse_members (S f) s acc =
    match strip_char 34 (skip_ws s) with
    | Some r =>
      match parse_string r with
      | Some (k, r1) =>
        match strip_char 58 (skip_ws r1) with
        | Some r2 =>
          match parse_value f r2 with
          | Some (v, r3) =>
            match skip_ws r3 with
            | c :: r4 =>
              if (c =? 44)%N then parse_members f r4 (obj_set acc k v)
              else if (c =? 125)%N then Some (VObj (obj_set acc k v), r4)
              else None
            | [] => None
            end
          | None => None
          end
        | None => None
        end
      | None => None
      end
    | None => None
    end.
Proof. reflexivity. Qed.

Lemma join_with_more (sep p : jsstring) (ps : list jsstring) :
  ps ≠ [] → join_with sep (p :: ps) = p ++ sep ++ join_with sep ps.
Proof. by destruct ps. Qed.

Lemma parse_elements_text (d : nat) (l : list value) (rest : jsstring) :
  Forall reads_back_at l → l ≠ [] →
  ∀ acc fuel,
    1 + length (join_with (44%N :: newline (S d)) (map (ser (S d)) l)) ≤ fuel →
    parse_elements fuel
      (newline (S d) ++ join_with (44%N :: newline (S d)) (map (ser (S d)) l)
         ++ newline d ++ 93%N :: rest) acc
    = Some (VArr (acc ++ map json_image l), rest).
Proof.
  induction 1 as [|x l Hx Hl IH]; [done|]. intros _ acc fuel Hfuel.
  destruct fuel as [|f]; [lia|].
  rewrite parse_elements_S, parse_value_newline.
  destruct (decide (l = [])) as [->|Hne].
  - simpl map in *. cbn [join_with] in *.
    rewrite (Hx (S d) (newline d ++ 93%N :: rest) f); [|lia|done].
    rewrite skip_ws_newline. simpl. done.
  - assert (Hne' : map (ser (S d)) l ≠ []) by (by destruct l).
    simpl map in *. rewrite join_with_more in * by done.
    rewrite !length_app in Hfuel. simpl length in Hfuel.
    rewrite <- !app_assoc.
    rewrite (Hx (S d) _ f); [|lia|done].
    rewrite <- app_comm_cons.
    rewrite skip_ws_id by done.
    change (44 =? 44)%N with true. cbv iota.
    rewrite IH; [|done|lia].
    by rewrite <- app_assoc.
Qed.

Lemma strip_char_hit (c : N) (r : jsstring) : strip_char c (c :: r) = Some r.
Proof. simpl. by rewrite N.eqb_refl. Qed.

Lemma parse_value_space (fuel : nat) (s : jsstring) :
  parse_value fuel (32%N :: s) = parse_value fuel s.
Proof. rewrite <- parse_value_skip. simpl skip_ws. apply parse_value_skip. Qed.

Lemma image_members_none (d : nat) (o acc : list (jsstring * value)) :
  ser_members d o = [] → image_members o acc = acc.
Proof.
  induction o as [|[k x] r IH]; [done|]. by destruct x.
Qed.

Lemma parse_members_text (d : nat) (o : list (jsstring * value)) (rest : jsstring) :
  Forall (fun kv => reads_back_at kv.2) o → ser_members (S d) o ≠ [] →
  ∀ acc fuel,
    1 + length (join_with (44%N :: newline (S d)) (ser_members (S d) o)) ≤ fuel →
    parse_members fuel
      (newline (S d) ++ join_with (44%N :: newline (S d)) (ser_members (S d) o)
         ++ newline d ++ 125%N :: rest) acc
    = Some (VObj (image_members o acc), rest).
Proof.
  induction 1 as [|[k x] r Hx Hr IH]; [done|]. intros Hne acc fuel Hfuel.
  assert (x = VUndef ∨ x ≠ VUndef) as [->|Hx0] by (destruct x; auto).
  { by apply IH. }
  rewrite ser_members_cons in * by done. rewrite image_members_cons by done.
  simpl in Hx.
  destruct fuel as [|f]; [lia|].
  rewrite parse_members_S, skip_ws_newline.
  assert (Htext : ∀ tail,
    strip_char 34 (skip_ws ((QuoteJSONString k ++ 58%N :: 32%N :: ser (S d) x) ++ tail))
    = Some (quote_chars k ++ 34%N :: 58%N :: 32%N :: ser (S d) x ++ tail)).
  { intros tail. unfold QuoteJSONString. simpl. by rewrite <- !app_assoc. }
  assert (Hlen : length (ser (S d) x)
                 < length (QuoteJSONString k ++ 58%N :: 32%N :: ser (S d) x)).
  { rewrite length_app. simpl. lia. }
  destruct (decide (ser_members (S d) r = [])) as [Hnil|Hmore].
  - rewrite Hnil in *. cbn [join_with] in *.
    rewrite Htext, parse_string_quote_chars.
    rewrite skip_ws_id by done. rewrite strip_char_hit, parse_value_space.
    rewrite (Hx (S d) _ f); [|lia|done].
    rewrite skip_ws_newline. simpl.
    by rewrite (image_members_none (S d)).
  - rewrite join_with_more in * by done.
    rewrite !length_app in Hfuel. simpl length in Hfuel.
    rewrite <- (app_assoc _ _ (newline d ++ _)).
    rewrite Htext, parse_string_quote_chars.
    rewrite skip_ws_id by done. rewrite strip_char_hit, parse_value_space.
    rewrite <- !app_assoc.
    rewrite (Hx (S d) _ f); [|rewrite length_app in Hlen; simpl in Hlen; lia|done].
    rewrite <- app_comm_cons.
    rewrite skip_ws_id by done.
    change (44 =? 44)%N with true. cbv iota.
    apply IH; [done|]. lia.
Qed.

Lemma strip_char_miss (c d : N) (r : jsstring) :
  d ≠ c → strip_char c (d :: r) = None.
Proof. intros Hd. simpl. by destruct (N.eqb_spec d c). Qed.

(** Every written value reads back as its image, whatever follows it
    (a number must not be followed by a number character). *)
Lemma parse_value_text (v : value) : reads_back_at v.
Proof.
  induction v as [| |b|x|s|l IH|o IH] using value_ind';
    intros d rest fuel Hfuel Hrest;
    (destruct fuel as [|f];
     [match type of Hfuel with length (ser d ?v) ≤ _ =>
        pose proof (ser_nonempty d v); lia end|]).
  - reflexivity.
  - reflexivity.
  - by destruct b.
  - rewrite parse_value_S.
    change (ser d (VNum x))
      with (if PrimFloat.is_finite x then NumberToString x else js "null") in *.
    change (json_image (VNum x)) with (reread x). unfold reread.
    destruct (PrimFloat.is_finite x) eqn:Hfin; [|reflexivity].
    destruct (NumberToString_json x Hfin)
      as (_ & _ & c & r & Heq & Hc & Hws & H123 & H91 & H34).
    destruct (parse_number_text x rest Hfin Hrest) as (y & -> & Hparse).
    rewrite Heq in *. rewrite <- app_comm_cons, skip_ws_id by done.
    destruct (N.eqb_spec c 123); [done|]. destruct (N.eqb_spec c 91); [done|].
    destruct (N.eqb_spec c 34); [done|].
    destruct ((c =? 45)%N || is_digit c); [|done].
    by rewrite app_comm_cons, Hparse.
  - rewrite parse_value_S.
    change (ser d (VStr s)) with (QuoteJSONString s).
    destruct (parse_string_quoted s rest) as (c & -> & Hc).
    simpl. by rewrite Hc.
  - rewrite parse_value_S, ser_arr in *.
    destruct l as [|x l]; [reflexivity|].
    remember (x :: l) as l2 eqn:Hl2.
    rewrite <- app_comm_cons, skip_ws_id by done.
    change (91 =? 123)%N with false. change (91 =? 91)%N with true. cbv iota.
    rewrite <- !app_assoc. rewrite skip_ws_newline.
    destruct (ser_head (S d) x) as (c & r & Hser & Hws & H93 & _).
    assert (Hjoin : ∃ r', join_with (44%N :: newline (S d)) (map (ser (S d)) l2)
                          = c :: r').
    { subst l2. simpl map. rewrite join_with_cons, Hser.
      destruct (map _ l); by eexists. }
    destruct Hjoin as [r' Hjoin]. rewrite Hjoin.
    rewrite <- app_comm_cons, skip_ws_id, strip_char_miss by done.
    rewrite app_comm_cons, <- Hjoin.
    simpl json_image.
    replace (newline d ++ [93%N] ++ rest) with (newline d ++ 93%N :: rest) by done.
    rewrite (parse_elements_text d l2 rest IH); [done|by subst|].
    simpl length in Hfuel. rewrite !length_app in Hfuel. lia.
  - rewrite parse_value_S, ser_obj, json_image_obj in *.
    destruct (ser_members (S d) o) as [|m ms] eqn:Hms.
    { by rewrite (image_members_none (S d)). }
    rewrite <- Hms in *.
    rewrite <- app_comm_cons, skip_ws_id by done.
    change (123 =? 123)%N with true. cbv iota.
    rewrite <- !app_assoc. rewrite skip_ws_newline.
    assert (Hjoin : ∃ r', join_with (44%N :: newline (S d)) (ser_members (S d) o)
                          = 34%N :: r').
    { rewrite Hms. rewrite join_with_cons.
      assert (∃ m', m = 34%N :: m') as [m' ->].
      { clear -Hms. induction o as [|[k x] o IHo]; [done|].
        destruct x; simpl in Hms; try (by apply IHo); simplify_eq; by eexists. }
      destruct ms; by eexists. }
    destruct Hjoin as [r' Hjoin]. rewrite Hjoin.
    rewrite <- app_comm_cons, skip_ws_id, strip_char_miss by done.
    rewrite app_comm_cons, <- Hjoin.
    replace (newline d ++ [125%N] ++ rest) with (newline d ++ 125%N :: rest) by done.
    rewrite (parse_members_text d o rest IH); [done|by rewrite Hms|].
    simpl length in Hfuel. rewrite !length_app in Hfuel. lia.
Qed.

(** [JSON.parse(JSON.stringify(v, null, 2))] is the image of [v]. *)
Lemma JSON_parse_stringify (v : value) (text : jsstring) :
  JSON_stringify v = Some text → JSON_parse text = Some (json_image v).
Proof.
  intros Hv. assert (text = ser 0 v) as ->.
  { destruct v; unfold JSON_stringify in Hv; [done|..]; by injection Hv. }
  unfold JSON_parse.
  pose proof (parse_value_text v 0 [] (S (length (ser 0 v)))) as Hp.
  rewrite app_nil_r in Hp. rewrite Hp; [done|lia|done].
Qed.

(** ** Objects as property lists *)

Lemma lookup_prop_None (o : list (jsstring * value)) (k : jsstring) :
  lookup_prop o k = None ↔ k ∉ map fst o.
Proof.
  induction o as [|[k' v] o IH]; simpl.
  - split; [intros _; apply not_elem_of_nil|done].
  - rewrite not_elem_of_cons. case_bool_decide; subst.
    + split; [done|]. intros [? _]. done.
    + rewrite IH. split; [intros ?; split; [congruence|done]|tauto].
Qed.

Lemma obj_set_fresh (o : list (jsstring * value)) (k : jsstring) (v : value) :
  k ∉ map fst o → obj_set o k v = o ++ [(k, v)].
Proof.
  induction o as [|[k' v'] o IH]; simpl; [done|].
  rewrite not_elem_of_cons. intros [Hk Ho].
  case_bool_decide; [congruence|]. by rewrite IH.
Qed.

Lemma obj_set_keys (o : list (jsstring * value)) (k : jsstring) (v : value) :
  map fst (obj_set o k v) = if bool_decide (k ∈ map fst o) then map fst o
                            else map fst o ++ [k].
Proof.
  induction o as [|[k' v'] o IH].
  - case_bool_decide as Hin; [by apply elem_of_nil in Hin|done].
  - cbn [obj_set map fst]. destruct (decide (k' = k)) as [->|Hne].
    + rewrite bool_decide_eq_true_2 by done. cbn [map fst].
      rewrite bool_decide_eq_true_2; [done|]. apply elem_of_cons. auto.
    + rewrite bool_decide_eq_false_2 by done. cbn [map fst]. rewrite IH.
      destruct (decide (k ∈ map fst o)) as [Hin|Hin].
      * rewrite !bool_decide_eq_true_2; [done|apply elem_of_cons; auto|done].
      * rewrite !bool_decide_eq_false_2; [done| |done].
        rewrite elem_of_cons. intros [?|?]; [congruence|done].
Qed.

Lemma obj_set_NoDup (o : list (jsstring * value)) (k : jsstring) (v : value) :
  NoDup (map fst o) → NoDup (map fst (obj_set o k v)).
Proof.
  intros Ho. rewrite obj_set_keys. case_bool_decide; [done|].
  apply NoDup_app. split; [done|]. split; [|apply NoDup_singleton].
  intros x Hx ->%list_elem_of_singleton. done.
Qed.

Lemma lookup_obj_set (o : list (jsstring * value)) (k k' : jsstring) (v : value) :
  lookup_prop (obj_set o k v) k' =
    if bool_decide (k = k') then Some v else lookup_prop o k'.
Proof.
  induction o as [|[k0 v0] o IH]; [done|].
  cbn [obj_set lookup_prop].
  destruct (decide (k0 = k)) as [->|Hne0].
  - rewrite bool_decide_eq_true_2 by done. cbn [lookup_prop].
    by destruct (bool_decide (k = k')).
  - rewrite bool_decide_eq_false_2 by done. cbn [lookup_prop]. rewrite IH.
    destruct (decide (k0 = k')) as [->|Hne1].
    + rewrite bool_decide_eq_true_2 by done.
      by rewrite bool_decide_eq_false_2 by congruence.
    + by rewrite (bool_decide_eq_false_2 (k0 = k')) by done.
Qed.

Lemma obj_set_Forall (P : value → Prop) (o : list (jsstring * value)) k v :
  Forall (fun kv => P kv.2) o → P v → Forall (fun kv => P kv.2) (obj_set o k v).
Proof.
  intros Ho Hv. induction Ho as [|[k0 v0] o H0 Ho IH]; cbn [obj_set].
  - by repeat constructor.
  - destruct (bool_decide (k0 = k)); constructor; done.
Qed.

(** ** Values the parser builds, values a document keeps *)

Lemma parsed_arr (l : list value) : parsed (VArr l) ↔ Forall parsed l.
Proof.
  induction l as [|x l IH]; [by split; [constructor|]|].
  change (parsed (VArr (x :: l))) with (parsed x ∧ parsed (VArr l)).
  rewrite IH, Forall_cons. done.
Qed.

Lemma parsed_obj (o : list (jsstring * value)) :
  parsed (VObj o) ↔ NoDup (map fst o) ∧ Forall (fun kv => parsed kv.2) o.
Proof.
  change (parsed (VObj o)) with
    (NoDup (map fst o) ∧
     (fix all (o : list (jsstring * value)) : Prop :=
        match o with
        | [] => True
        | (_, x) :: r => parsed x ∧ all r
        end) o).
  apply and_iff_compat_l.
  induction o as [|[k x] o IH]; [by split; [constructor|]|].
  rewrite Forall_cons, <- IH. done.
Qed.

Lemma serializable_arr (l : list value) :
  serializable (VArr l) ↔ Forall serializable l.
Proof.
  induction l as [|x l IH]; [by split; [constructor|]|].
  change (serializable (VArr (x :: l))) with (serializable x ∧ serializable (VArr l)).
  rewrite IH, Forall_cons. done.
Qed.

Lemma serializable_obj (o : list (jsstring * value)) :
  serializable (VObj o) ↔ NoDup (map fst o) ∧ Forall (fun kv => serializable kv.2) o.
Proof.
  change (serializable (VObj o)) with
    (NoDup (map fst o) ∧
     (fix all (o : list (jsstring * value)) : Prop :=
        match o with
        | [] => True
        | (_, x) :: r => serializable x ∧ all r
        end) o).
  apply and_iff_compat_l.
  induction o as [|[k x] o IH]; [by split; [constructor|]|].
  rewrite Forall_cons, <- IH. done.
Qed.

Lemma image_members_plain (o acc : list (jsstring * value)) :
  NoDup (map fst acc ++ map fst o) → Forall (fun kv => kv.2 ≠ VUndef) o →
  image_members o acc = acc ++ map image_prop o.
Proof.
  revert acc. induction o as [|[k x] o IH]; intros acc Hnd Ho.
  - simpl. by rewrite app_nil_r.
  - apply Forall_cons in Ho as [Hx Ho]. simpl in Hx.
    rewrite image_members_cons by done.
    assert (Hk : k ∉ map fst acc).
    { apply NoDup_app in Hnd as (_ & Hk & _). intros Hin.
      apply (Hk k Hin). simpl. apply elem_of_cons. auto. }
    rewrite obj_set_fresh by done. rewrite IH; [|by rewrite map_app, <- app_assoc|done].
    by rewrite <- app_assoc.
Qed.

Lemma json_image_plain (o : list (jsstring * value)) :
  plain o → json_image (VObj o) = VObj (map image_prop o).
Proof.
  intros [Hnd Ho]. rewrite json_image_obj.
  by rewrite image_members_plain.
Qed.

Lemma lookup_image_prop (o : list (jsstring * value)) (k : jsstring) :
  lookup_prop (map image_prop o) k = json_image <$> lookup_prop o k.
Proof.
  induction o as [|[k' x] o IH]; [done|]. simpl.
  by destruct (bool_decide (k' = k)).
Qed.

Lemma parsed_not_undef (v : value) : parsed v → v ≠ VUndef.
Proof. by intros Hv ->. Qed.

Lemma parsed_plain (o : list (jsstring * value)) : parsed (VObj o) → plain o.
Proof.
  rewrite parsed_obj. intros [Hnd Ho]. split; [done|].
  eapply Forall_impl; [exact Ho|]. intros [k x]. apply parsed_not_undef.
Qed.

Lemma serializable_plain (o : list (jsstring * value)) : serializable (VObj o) → plain o.
Proof.
  rewrite serializable_obj. intros [Hnd Ho]. split; [done|].
  eapply Forall_impl; [exact Ho|]. intros [k x] Hx Hu. simpl in *. by subst.
Qed.

(** A serializable value is its own image. *)
Lemma json_image_serializable (v : value) : serializable v → json_image v = v.
Proof.
  induction v as [| |b|x|s|l IH|o IH] using value_ind'; try done.
  - intros [Hfin Hx]. simpl. unfold reread.
    by rewrite Hfin, number_text_reads_back.
  - rewrite serializable_arr. intros Hl. simpl. f_equal.
    induction Hl as [|x l Hx Hl IHl]; [done|].
    apply Forall_cons in IH as [IHx IH]. simpl. f_equal; auto.
  - intros Ho. rewrite json_image_plain by by apply serializable_plain.
    apply serializable_obj in Ho as [_ Ho]. f_equal.
    induction Ho as [|[k x] o Hx Ho IHo]; [done|].
    apply Forall_cons in IH as [IHx IH]. simpl. f_equal; auto.
    unfold image_prop. simpl in *. f_equal. auto.
Qed.

(** Whatever [JSON.parse] returns is [parsed]. *)
Lemma parse_value_parsed (fuel : nat) :
  (∀ s v r, parse_value fuel s = Some (v, r) → parsed v)
  ∧ (∀ s acc v r, parse_elements fuel s acc = Some (v, r) →
       Forall parsed acc → parsed v)
  ∧ (∀ s acc v r, parse_members fuel s acc = Some (v, r) →
       parsed (VObj acc) → parsed v).
Proof.
  induction fuel as [|f (IHv & IHe & IHm)]; [done|].
  split; [|split].
  - intros s v r. rewrite parse_value_S.
    destruct (skip_ws s) as [|c s']; [done|].
    destruct (c =? 123)%N.
    { assert (parsed (VObj [])) by (apply parsed_obj; split; constructor).
      destruct (strip_char 125 _); [by intros [= <- <-]|].
      intros Hm. by eapply IHm. }
    destruct (c =? 91)%N.
    { destruct (strip_char 93 _); [by intros [= <- <-]|].
      intros He. eapply IHe; [exact He|constructor]. }
    destruct (c =? 34)%N.
    { destruct (parse_string s') as [[str r']|]; [by intros [= <- <-]|done]. }
    destruct ((c =? 45)%N || is_digit c).
    { unfold parse_number. destruct (span _ _) as [tok rest].
      destruct (json_number tok); [by intros [= <- <-]|done]. }
    unfold parse_literal.
    repeat (destruct (strip_prefix _ _); [by intros [= <- <-]|]). done.
  - intros s acc v r Hacc. rewrite parse_elements_S in Hacc.
    destruct (parse_value f s) as [[x r1]|] eqn:Hx; [|done].
    apply IHv in Hx. intros Hall.
    assert (Hall' : Forall parsed (acc ++ [x])).
    { apply Forall_app. split; [done|by constructor]. }
    destruct (skip_ws r1) as [|c r2]; [done|].
    destruct (c =? 44)%N; [by eapply IHe|].
    destruct (c =? 93)%N; [|done].
    injection Hacc as <- <-. by apply parsed_arr.
  - intros s acc v r Hacc. rewrite parse_members_S in Hacc.
    destruct (strip_char 34 _) as [r0|]; [|done].
    destruct (parse_string r0) as [[k r1]|]; [|done].
    destruct (strip_char 58 _) as [r2|]; [|done].
    destruct (parse_value f r2) as [[x r3]|] eqn:Hx; [|done].
    apply IHv in Hx. intros Hall.
    assert (Hall' : parsed (VObj (obj_set acc k x))).
    { apply parsed_obj in Hall as [Hnd Hall]. apply parsed_obj. split.
      - by apply obj_set_NoDup.
      - by apply (obj_set_Forall parsed). }
    destruct (skip_ws r3) as [|c r4]; [done|].
    destruct (c =? 44)%N; [by eapply IHm|].
    destruct (c =? 125)%N; [|done].
    by injection Hacc as <- <-.
Qed.

Lemma JSON_parse_parsed (text : jsstring) (v : value) :
  JSON_parse text = Some v → parsed v.
Proof.
  unfold JSON_parse.
  destruct (parse_value _ text) as [[x r]|] eqn:Hx; [|done].
  destruct (skip_ws r); [|done]. intros [= <-].
  destruct (parse_value_parsed (S (length text))) as [Hv _]. by eapply Hv.
Qed.

(** * The document store *)

Lemma saveJson_spec (name : jsstring) (v : value) (w : World) :
  v ≠ VUndef → saveJson name v w = (Ret tt, put name (ser 0 v) w).
Proof. intros Hv. unfold saveJson. by destruct v. Qed.

Lemma loadJson_put (name text : jsstring) (v fallback : value) (w : World) :
  JSON_parse text = Some v →
  loadJson name fallback (put name text w) = (Ret v, put name text w).
Proof.
  intros Hv. unfold loadJson, put. simpl.
  by rewrite lookup_insert_eq, Hv.
Qed.

Lemma loadJson_stored (name : jsstring) (fallback : value) (w : World) :
  fst (loadJson name fallback w) = Ret (stored name fallback w)
  ∧ files (snd (loadJson name fallback w)) = files w.
Proof.
  unfold loadJson, stored. destruct (files w !! name) as [raw|]; [|done].
  by destruct (JSON_parse raw).
Qed.

Lemma stored_put (name : jsstring) (v fallback : value) (w : World) :
  v ≠ VUndef → stored name fallback (put name (ser 0 v) w) = json_image v.
Proof.
  intros Hv. unfold stored, put. simpl. rewrite lookup_insert_eq.
  rewrite (JSON_parse_stringify v); [done|by destruct v].
Qed.

(** C2.  Saving a value of the JSON data model (no [undefined], every
    Number finite) that holds no negative zero and loading the same
    name right after returns that very value, whatever the name and the
    fallback. *)
Theorem save_load_roundtrip (name : jsstring) (v fallback : value) (w : World) :
  serializable v →
  ∃ w', saveJson name v w = (Ret tt, w')
        ∧ loadJson name fallback w' = (Ret v, w').
Proof.
  intros Hv. assert (Hu : v ≠ VUndef) by by intros ->.
  exists (put name (ser 0 v) w). split; [by apply saveJson_spec|].
  apply loadJson_put.
  rewrite (JSON_parse_stringify v (ser 0 v)); [|by destruct v].
  by rewrite json_image_serializable.
Qed.

Ltac distinct_keys := apply (bool_decide_unpack _); vm_compute; exact I.

Lemma sample_record_serializable : serializable (VArr [sample_record]).
Proof.
  apply serializable_arr. constructor; [|constructor].
  apply serializable_obj. split; [distinct_keys|].
  repeat constructor; exact I.
Qed.

(** The negative zero is a value of JSON ([JSON.parse] reads the text
    [-0] as it), but it does not come back from the store:
    [JSON.stringify] writes it [0], which is read as the positive
    zero. *)
Lemma save_load_negative_zero :
  JSON_parse (js "-0") = Some (VNum (-0))
  ∧ JSON_stringify (VNum (-0)) = Some (js "0")
  ∧ JSON_parse (js "0") = Some (VNum 0)
  ∧ negative_zero (-0) = true ∧ negative_zero 0 = false
  ∧ ∃ w', saveJson users_json (VArr [signed_zero_record (-0)]) empty_world
            = (Ret tt, w')
          ∧ loadJson users_json (VArr []) w'
            = (Ret (VArr [signed_zero_record 0]), w').
Proof.
  repeat (split; [vm_compute; reflexivity|]).
  eexists. split; [reflexivity|]. vm_compute. reflexivity.
Qed.

Lemma save_load_roundtrip_witness :
  serializable (VArr [sample_record])
  ∧ ∃ w', saveJson users_json (VArr [sample_record]) empty_world = (Ret tt, w')
          ∧ loadJson users_json VNull w' = (Ret (VArr [sample_record]), w').
Proof.
  split; [exact sample_record_serializable|].
  exact (save_load_roundtrip users_json (VArr [sample_record]) VNull empty_world
           sample_record_serializable).
Defined.

(** C3.  A document that exists but does not parse makes [loadJson]
    return the fallback: the caller gets a value, not an exception; the
    failure goes to the console and the files stay as they are. *)
Theorem load_corrupt_returns_fallback
    (name raw : jsstring) (fallback : value) (w : World) :
  files w !! name = Some raw → JSON_parse raw = None →
  loadJson name fallback w =
    (Ret fallback,
     {| files := files w;
        console := console w ++ [(js "Error reading", name)] |}).
Proof. intros Hraw Hbad. unfold loadJson. by rewrite Hraw, Hbad. Qed.

Lemma load_corrupt_returns_fallback_witness :
  files corrupt_world !! users_json = Some (js "not valid json")
  ∧ JSON_parse (js "not valid json") = None
  ∧ loadJson users_json (VArr []) corrupt_world =
      (Ret (VArr []),
       {| files := files corrupt_world;
          console := [(js "Error reading", users_json)] |}).
Proof.
  assert (H1 : files corrupt_world !! users_json = Some (js "not valid json"))
    by apply lookup_insert_eq.
  assert (H2 : JSON_parse (js "not valid json") = None) by reflexivity.
  split; [exact H1|]. split; [exact H2|].
  exact (load_corrupt_returns_fallback users_json (js "not valid json")
           (VArr []) corrupt_world H1 H2).
Defined.

(** C4.  Loading a name that has no document returns exactly the
    fallback and leaves the world (files and console) untouched. *)
Theorem load_missing_returns_fallback
    (name : jsstring) (fallback : value) (w : World) :
  files w !! name = None → loadJson name fallback w = (Ret fallback, w).
Proof. intros Hnone. unfold loadJson. by rewrite Hnone. Qed.

Lemma load_missing_returns_fallback_witness :
  files empty_world !! questions_json = None
  ∧ loadJson questions_json (VArr [str "x"]) empty_world
    = (Ret (VArr [str "x"]), empty_world).
Proof.
  assert (H1 : files empty_world !! questions_json = None) by apply lookup_empty.
  split; [exact H1|].
  exact (load_missing_returns_fallback questions_json (VArr [str "x"])
           empty_world H1).
Defined.

(** * The routes *)

Lemma loadJson_run (name : jsstring) (fallback : value) (w : World) :
  loadJson name fallback w = (Ret (stored name fallback w), after_load name w).
Proof.
  unfold loadJson, stored, after_load.
  destruct (files w !! name) as [raw|]; [|done]. by destruct (JSON_parse raw).
Qed.

Lemma after_load_files (name : jsstring) (w : World) :
  files (after_load name w) = files w.
Proof.
  unfold after_load. destruct (files w !! name) as [raw|]; [|done].
  by destruct (JSON_parse raw).
Qed.

Lemma stored_after_load (name name' : jsstring) (fallback : value) (w : World) :
  stored name fallback (after_load name' w) = stored name fallback w.
Proof. unfold stored. by rewrite after_load_files. Qed.

Lemma stored_put_after (name : jsstring) (v fallback : value) (w : World) :
  v ≠ VUndef → stored name fallback (put name (ser 0 v) w) = json_image v.
Proof. apply stored_put. Qed.

Lemma after_load_put (name : jsstring) (v : value) (w : World) :
  v ≠ VUndef → after_load name (put name (ser 0 v) w) = put name (ser 0 v) w.
Proof.
  intros Hv. unfold after_load, put. simpl. rewrite lookup_insert_eq.
  rewrite (JSON_parse_stringify v); [done|by destruct v].
Qed.

Lemma stored_parsed (name : jsstring) (fallback : value) (w : World) :
  parsed fallback → parsed (stored name fallback w).
Proof.
  intros Hfb. unfold stored. destruct (files w !! name) as [raw|]; [|done].
  destruct (JSON_parse raw) eqn:Hraw; [|done]. by eapply JSON_parse_parsed.
Qed.

Lemma users_of_parsed (w : World) : parsed (users_of w).
Proof. by apply stored_parsed. Qed.

Lemma bind_run {A B : Type} (m : M A) (k : A → M B) (w : World) :
  (m ≫= k) w = match m w with
               | (Ret a, w') => k a w'
               | (Throw e, w') => (Throw e, w')
               end.
Proof. reflexivity. Qed.

Lemma lift_run {A : Type} (r : res A) (w : World) : lift r w = (r, w).
Proof. reflexivity. Qed.

Lemma respond_run (st : nat) (b : value) (w : World) :
  respond st b w = (Ret {| status := st; body := b |}, w).
Proof. reflexivity. Qed.

(** ** Looking a user up by email *)

Section Lookup.
Context `{Engine}.

Lemma same_email_spec (email u : value) :
  same_email email u =
    match email_of u, email with
    | Some e', VStr e => Ret (bool_decide (toLowerCase e' = toLowerCase e))
    | _, _ => Throw TypeError
    end.
Proof.
  unfold same_email, email_of.
  destruct u as [| | | | | |o]; try reflexivity.
  cbn -[js]. destruct (lookup_prop o (js "email")) as [[]|]; try reflexivity.
  by destruct email.
Qed.

Lemma has_email_spec (e : jsstring) (u : value) :
  has_email e u =
    match email_of u with
    | Some e' => Ret (bool_decide (toLowerCase e' = e))
    | None => Throw TypeError
    end.
Proof.
  unfold has_email, email_of.
  destruct u as [| | | | | |o]; try reflexivity.
  cbn -[js]. by destruct (lookup_prop o (js "email")) as [[]|].
Qed.

End Lookup.

Lemma json_image_str (x : value) (e : jsstring) : json_image x = VStr e ↔ x = VStr e.
Proof.
  destruct x; simpl; try (split; congruence).
  unfold reread. repeat case_match; split; congruence.
Qed.

Lemma email_of_image (u : value) : parsed u → email_of (json_image u) = email_of u.
Proof.
  intros Hu. destruct u as [| |b|x|s|l|o]; try done.
  - change (json_image (VNum x)) with (reread x). unfold reread.
    destruct (PrimFloat.is_finite x); [destruct (json_number _)|]; reflexivity.
  - rewrite json_image_plain by (apply parsed_plain; exact Hu).
    cbn -[js]. rewrite lookup_image_prop.
    destruct (lookup_prop o (js "email")) as [x|]; [|done]. cbn -[js].
    destruct x as [| |b|x|s|l|o']; try reflexivity.
    change (json_image (VNum x)) with (reread x). unfold reread.
    destruct (PrimFloat.is_finite x); [destruct (json_number _)|]; reflexivity.
Qed.

(** ** Scans *)

Lemma find_from_inv (p : value → res bool) (l : list value) (x : value) :
  find_from p l = Ret x →
  (x = VUndef ∧ rejects p l)
  ∨ ∃ l1 l2, l = l1 ++ x :: l2 ∧ rejects p l1 ∧ p x = Ret true.
Proof.
  induction l as [|u l IH]; simpl.
  - intros [= <-]. left. split; [done|constructor].
  - destruct (p u) as [[|]|] eqn:Hu; [| |done].
    + intros [= <-]. right. exists [], l. repeat split; [constructor|done].
    + intros Hx. destruct (IH Hx) as [[-> Hl]|(l1 & l2 & -> & Hl1 & Hpx)].
      * left. split; [done|by constructor].
      * right. exists (u :: l1), l2. repeat split; [by constructor|done].
Qed.

Lemma find_from_skip (p : value → res bool) (l l' : list value) :
  rejects p l → find_from p (l ++ l') = find_from p l'.
Proof. induction 1 as [|u l Hu Hl IH]; simpl; [done|]. by rewrite Hu. Qed.

Lemma find_from_hit (p : value → res bool) (l l' : list value) (x : value) :
  rejects p l → p x = Ret true → find_from p (l ++ x :: l') = Ret x.
Proof. intros Hl Hx. rewrite find_from_skip by done. simpl. by rewrite Hx. Qed.

Lemma findIndex_from_inv (p : value → res bool) (l : list value) (n : nat)
    (r : option nat) :
  findIndex_from p l n = Ret r →
  match r with
  | None => rejects p l
  | Some k => ∃ l1 x l2, l = l1 ++ x :: l2 ∧ k = n + length l1
                         ∧ rejects p l1 ∧ p x = Ret true
  end.
Proof.
  revert n. induction l as [|u l IH]; intros n; simpl.
  - intros [= <-]. constructor.
  - destruct (p u) as [[|]|] eqn:Hu; [| |done].
    + intros [= <-]. exists [], u, l. simpl. repeat split; [lia|constructor|done].
    + intros Hx. specialize (IH _ Hx). destruct r as [k|].
      * destruct IH as (l1 & x & l2 & -> & -> & Hl1 & Hpx).
        exists (u :: l1), x, l2. simpl. repeat split; [lia|by constructor|done].
      * by constructor.
Qed.

Lemma findIndex_from_hit (p : value → res bool) (l l' : list value) (x : value)
    (n : nat) :
  rejects p l → p x = Ret true →
  findIndex_from p (l ++ x :: l') n = Ret (Some (n + length l)).
Proof.
  intros Hl Hx. revert n. induction Hl as [|u l Hu Hl IH]; intros n; simpl.
  - rewrite Hx. f_equal. f_equal. lia.
  - rewrite Hu, IH. f_equal. f_equal. lia.
Qed.

Lemma findIndex_from_miss (p : value → res bool) (l : list value) (n : nat) :
  rejects p l → findIndex_from p l n = Ret None.
Proof.
  intros Hl. revert n. induction Hl as [|u l Hu Hl IH]; intros n; simpl; [done|].
  by rewrite Hu.
Qed.

Section Signup.
Context `{Engine}.

(** What the signup route does, read off the stored collection. *)
Lemma signup_run (b : value) (t : Z) (w : World) :
  signup b t w =
    if signup_incomplete b
    then (Ret {| status := 400; body := message "Missing required fields" |}, w)
    else
      match Array_find (same_email (field b (js "email"))) (users_of w) with
      | Throw e => (Throw e, after_load users_json w)
      | Ret found =>
        if truthy found
        then (Ret {| status := 409; body := message "Email already registered" |},
              after_load users_json w)
        else
          match users_of w with
          | VArr us =>
            (Ret {| status := 201;
                    body := VObj [
                      (js "message", str "Signup successful (pending approval)");
                      (js "user", new_user b t)] |},
             put users_json (ser 0 (VArr (us ++ [new_user b t])))
               (after_load users_json w))
          | _ => (Throw TypeError, after_load users_json w)
          end
      end.
Proof.
  unfold signup. destruct (signup_incomplete b); [done|].
  rewrite bind_run, loadJson_run. fold (users_of w).
  rewrite bind_run, lift_run.
  destruct (Array_find _ (users_of w)) as [found|e]; [|done].
  destruct (truthy found); [done|].
  rewrite bind_run, lift_run.
  destruct (users_of w) as [| | | | |us|]; try done.
Qed.

End Signup.

Section SignupFacts.
Context `{Engine}.

Lemma same_email_true_truthy (email u : value) :
  same_email email u = Ret true → truthy u = true.
Proof.
  rewrite same_email_spec. unfold email_of. by destruct u.
Qed.

(** An accepted signup: the request was complete, the stored collection
    is an array none of whose users has the email, and the collection
    with the new user appended has been written. *)
Lemma signup_accepted (b : value) (t : Z) (w w1 : World) (r : reply) :
  signup b t w = (Ret r, w1) → status r = 201 →
  signup_incomplete b = false
  ∧ ∃ us, users_of w = VArr us
          ∧ rejects (same_email (field b (js "email"))) us
          ∧ w1 = put users_json (ser 0 (VArr (us ++ [new_user b t])))
                   (after_load users_json w)
          ∧ body r = VObj [
              (js "message", str "Signup successful (pending approval)");
              (js "user", new_user b t)].
Proof.
  rewrite signup_run. intros Hrun Hst.
  destruct (signup_incomplete b); [by simplify_eq|]. split; [done|].
  destruct (Array_find _ _) as [found|] eqn:Hfind; [|done].
  destruct (truthy found) eqn:Htr; [by simplify_eq|].
  destruct (users_of w) as [| | | | |us|]; try done.
  exists us. simpl in Hfind.
  destruct (find_from_inv _ _ _ Hfind) as [[_ Hrej]|(l1 & l2 & _ & _ & Hhit)].
  - by simplify_eq.
  - apply same_email_true_truthy in Hhit. congruence.
Qed.

Lemma truthy_not_undef (v : value) : truthy v = true → v ≠ VUndef.
Proof. by intros Hv ->. Qed.

Lemma new_user_plain (b : value) (t : Z) :
  signup_incomplete b = false →
  ∃ o, new_user b t = VObj o ∧ plain o
       ∧ lookup_prop o (js "email") = Some (field b (js "email")).
Proof.
  intros Hb. unfold signup_incomplete in Hb.
  repeat (apply orb_false_iff in Hb as [Hb ?]).
  repeat match goal with
         | H : negb (truthy _) = false |- _ =>
           apply negb_false_iff, truthy_not_undef in H
         end.
  eexists. split; [reflexivity|]. split; [split|reflexivity].
  - apply (bool_decide_unpack _). vm_compute. exact I.
  - repeat constructor; simpl; try done.
    destruct (strict_eq _ _); [|done]. unfold js_or.
    destruct (truthy (field b (js "courseType"))) eqn:Hct; [|done].
    by apply truthy_not_undef.
Qed.

Lemma new_user_email (b : value) (t : Z) (e : jsstring) :
  signup_incomplete b = false → field b (js "email") = VStr e →
  email_of (json_image (new_user b t)) = Some e.
Proof.
  intros Hb He. destruct (new_user_plain b t Hb) as (o & -> & Hplain & Hlook).
  rewrite json_image_plain by done. cbn -[js].
  by rewrite lookup_image_prop, Hlook, He.
Qed.

Lemma rejects_others (e : jsstring) (us : list value) :
  rejects (same_email (VStr e)) us ↔ others e us.
Proof.
  unfold rejects, others. apply Forall_proper; [|done]. intros u.
  rewrite same_email_spec. destruct (email_of u) as [e'|].
  - split.
    + intros [= Hne%bool_decide_eq_false]. by exists e'.
    + intros (? & [= <-] & Hne). f_equal. by apply bool_decide_eq_false.
  - split; [done|]. by intros (? & ? & _).
Qed.

Lemma others_image (e : jsstring) (us : list value) :
  Forall parsed us → others e us → others e (map json_image us).
Proof.
  unfold others. intros Hp Ho. apply Forall_map. rewrite Forall_forall in *.
  intros u Hu. destruct (Ho u Hu) as (e' & He' & Hne).
  exists e'. split; [|done]. simpl. by rewrite email_of_image by auto.
Qed.

Lemma others_same_case (e e2 : jsstring) (us : list value) :
  toLowerCase e = toLowerCase e2 → others e us → others e2 us.
Proof.
  intros Heq Ho. unfold others in *. eapply Forall_impl; [exact Ho|].
  intros u (e' & He' & Hne). exists e'. split; [done|]. by rewrite <- Heq.
Qed.

End SignupFacts.

Section DuplicateSignup.
Context `{Engine}.

Lemma users_of_put (v : value) (w : World) :
  v ≠ VUndef → users_of (put users_json (ser 0 v) w) = json_image v.
Proof. apply stored_put. Qed.

Lemma users_of_parsed_list (w : World) (us : list value) :
  users_of w = VArr us → Forall parsed us.
Proof. intros Hus. apply parsed_arr. rewrite <- Hus. apply users_of_parsed. Qed.

(** C5.  Once a signup with email [b@x.com] has been accepted, a
    complete signup request with [B@X.com] is answered 409 and changes
    nothing. *)
Theorem duplicate_signup_rejected (b1 b2 : value) (t1 t2 : Z) (w w1 : World)
    (r1 : reply) :
  toLowerCase (js "B@X.com") = toLowerCase (js "b@x.com") →
  field b1 (js "email") = str "b@x.com" →
  signup b1 t1 w = (Ret r1, w1) → status r1 = 201 →
  field b2 (js "email") = str "B@X.com" →
  signup_incomplete b2 = false →
  signup b2 t2 w1 =
    (Ret {| status := 409; body := message "Email already registered" |}, w1).
Proof.
  intros Hcase He1 Hrun Hst He2 Hb2.
  destruct (signup_accepted _ _ _ _ _ Hrun Hst)
    as (Hb1 & us & Hus & Hrej & -> & _).
  rewrite signup_run, Hb2, He2.
  rewrite users_of_put by done.
  rewrite (after_load_put users_json (VArr (us ++ [new_user b1 t1]))) by done.
  change (json_image (VArr (us ++ [new_user b1 t1])))
    with (VArr (map json_image (us ++ [new_user b1 t1]))).
  rewrite map_app. change (map json_image [new_user b1 t1])
    with [json_image (new_user b1 t1)].
  rewrite He1 in Hrej. apply rejects_others in Hrej.
  assert (Hfind : find_from (same_email (str "B@X.com"))
                    (map json_image us ++ [json_image (new_user b1 t1)])
                  = Ret (json_image (new_user b1 t1))).
  { apply find_from_hit.
    - apply rejects_others. apply (others_same_case (js "b@x.com")); [done|].
      apply others_image; [by eapply users_of_parsed_list|done].
    - rewrite same_email_spec, (new_user_email b1 t1 (js "b@x.com")) by done.
      unfold str. by rewrite Hcase, bool_decide_eq_true_2. }
  cbn [Array_find]. rewrite Hfind.
  destruct (new_user_plain b1 t1 Hb1) as (o & -> & Hplain & _).
  by rewrite json_image_plain.
Qed.

End DuplicateSignup.

(** ** A worked scenario on the reference engine *)

Lemma duplicate_signup_rejected_witness :
  toLowerCase (js "B@X.com") = toLowerCase (js "b@x.com")
  ∧ signup (signup_body "b@x.com") 1700000000000 empty_world
    = (Ret {| status := 201;
              body := VObj [
                (js "message", str "Signup successful (pending approval)");
                (js "user", new_user (signup_body "b@x.com") 1700000000000)] |},
       signed_up "b@x.com" empty_world)
  ∧ signup (signup_body "B@X.com") 1700000060000 (signed_up "b@x.com" empty_world)
    = (Ret {| status := 409; body := message "Email already registered" |},
       signed_up "b@x.com" empty_world).
Proof.
  assert (Hcase : toLowerCase (js "B@X.com") = toLowerCase (js "b@x.com"))
    by reflexivity.
  assert (Hrun : signup (signup_body "b@x.com") 1700000000000 empty_world
    = (Ret {| status := 201;
              body := VObj [
                (js "message", str "Signup successful (pending approval)");
                (js "user", new_user (signup_body "b@x.com") 1700000000000)] |},
       signed_up "b@x.com" empty_world)) by (vm_compute; reflexivity).
  split; [exact Hcase|]. split; [exact Hrun|].
  exact (duplicate_signup_rejected (signup_body "b@x.com") (signup_body "B@X.com")
           1700000000000 1700000060000 empty_world _ _
           Hcase eq_refl Hrun eq_refl eq_refl eq_refl).
Defined.

Section Login.
Context `{Engine}.

Lemma login_run (l : value) (w : World) :
  login l w =
    if negb (truthy (field l (js "email")))
       || negb (truthy (field l (js "password")))
       || negb (truthy (field l (js "role")))
    then (Ret {| status := 400; body := message "Missing email/password/role" |}, w)
    else
      match Array_find (credentials_match (field l (js "email"))
                          (field l (js "password")) (field l (js "role")))
              (users_of w) with
      | Throw e => (Throw e, after_load users_json w)
      | Ret user =>
        if negb (truthy user)
        then (Ret {| status := 401; body := message "Invalid credentials" |},
              after_load users_json w)
        else
          match Get user (js "status") with
          | Throw e => (Throw e, after_load users_json w)
          | Ret st =>
            if strict_eq st (str "pending")
            then (Ret {| status := 403;
                         body := message "Account pending admin approval" |},
                  after_load users_json w)
            else if strict_eq st (str "rejected")
            then (Ret {| status := 403; body := message "Account rejected" |},
                  after_load users_json w)
            else (Ret {| status := 200;
                         body := VObj [(js "message", str "Login successful");
                                       (js "user", login_user user)] |},
                  after_load users_json w)
          end
      end.
Proof.
  unfold login. destruct (_ || _); [done|].
  rewrite bind_run, loadJson_run. fold (users_of w).
  rewrite bind_run, lift_run.
  destruct (Array_find _ (users_of w)) as [user|e]; [|done].
  destruct (negb (truthy user)); [done|].
  rewrite bind_run, lift_run.
  destruct (Get user (js "status")) as [st|e]; [|done].
  by repeat destruct (strict_eq st _).
Qed.

(** C9.  The [user] object of a successful login has exactly the fields
    name, email, role, status and courseType, each read from the matched
    record; the record's password is not among them. *)
Theorem login_response_fields (l : value) (w w' : World) (r : reply) :
  login l w = (Ret r, w') → status r = 200 →
  ∃ us user,
    users_of w = VArr us ∧ user ∈ us
    ∧ credentials_match (field l (js "email")) (field l (js "password"))
        (field l (js "role")) user = Ret true
    ∧ body r = VObj [
        (js "message", str "Login successful");
        (js "user", VObj [
           (js "name", prop user (js "name"));
           (js "email", prop user (js "email"));
           (js "role", prop user (js "role"));
           (js "status", prop user (js "status"));
           (js "courseType", prop user (js "courseType"))])].
Proof.
  rewrite login_run. intros Hrun Hst.
  destruct (_ || _); [by simplify_eq|].
  destruct (Array_find _ _) as [user|] eqn:Hfind; [|done].
  destruct (truthy user) eqn:Htr; simpl in Hrun; [|by simplify_eq].
  destruct (Get user (js "status")) as [st|]; [|done].
  destruct (strict_eq st (str "pending")); [by simplify_eq|].
  destruct (strict_eq st (str "rejected")); [by simplify_eq|].
  destruct (users_of w) as [| | | | |us|]; try done.
  exists us, user. split; [done|]. simpl in Hfind.
  destruct (find_from_inv _ _ _ Hfind) as [[-> _]|(l1 & l2 & -> & _ & Hhit)];
    [done|].
  split; [|split; [done|]].
  - apply elem_of_app. right. apply elem_of_cons. by left.
  - by simplify_eq.
Qed.

End Login.

Lemma insert_middle {A : Type} (l1 l2 : list A) (x y : A) :
  <[length l1 := y]> (l1 ++ x :: l2) = l1 ++ y :: l2.
Proof. by rewrite <- (Nat.add_0_r (length l1)), insert_app_r. Qed.

Lemma lookup_middle {A : Type} (l1 l2 : list A) (x : A) :
  (l1 ++ x :: l2) !! length l1 = Some x.
Proof. by apply list_lookup_middle. Qed.

Section StatusUpdate.
Context `{Engine}.

Lemma patch_status_run (e : jsstring) (b : value) (w : World) :
  patch_status e b w =
    if negb (valid_status (field b (js "status")))
    then (Ret {| status := 400; body := message "Invalid status" |}, w)
    else
      match Array_findIndex (same_email (VStr e)) (users_of w) with
      | Throw err => (Throw err, after_load users_json w)
      | Ret None =>
        (Ret {| status := 404; body := message "User not found" |},
         after_load users_json w)
      | Ret (Some i) =>
        match Set_prop (Array_get (users_of w) i) (js "status")
                (field b (js "status")) with
        | Throw err => (Throw err, after_load users_json w)
        | Ret u =>
          match JSON_stringify (Array_set (users_of w) i u) with
          | Some text =>
            (Ret {| status := 200;
                    body := VObj [(js "message", str "Status updated");
                                  (js "user", u)] |},
             put users_json text (after_load users_json w))
          | None => (Throw TypeError, after_load users_json w)
          end
        end
      end.
Proof.
  unfold patch_status, valid_status. destruct (negb _); [done|].
  rewrite bind_run, loadJson_run. fold (users_of w).
  rewrite bind_run, lift_run.
  destruct (Array_findIndex _ (users_of w)) as [[i|]|err]; [|done|done].
  rewrite bind_run, lift_run.
  destruct (Set_prop _ _ _) as [u|err]; [|done].
  rewrite bind_run. unfold saveJson, put.
  by destruct (JSON_stringify _).
Qed.

Lemma valid_status_str (s : value) : valid_status s = true → ∃ t, s = VStr t.
Proof. destruct s; try done. by eexists. Qed.

(** An accepted status update: the first user with the email, an
    object, has its status set and the collection is written back. *)
Lemma patch_status_accepted (e : jsstring) (b : value) (w w' : World) (r : reply) :
  patch_status e b w = (Ret r, w') → status r = 200 →
  ∃ l1 o l2 s,
    users_of w = VArr (l1 ++ VObj o :: l2)
    ∧ rejects (same_email (VStr e)) l1
    ∧ same_email (VStr e) (VObj o) = Ret true
    ∧ field b (js "status") = VStr s
    ∧ body r = VObj [(js "message", str "Status updated");
                     (js "user", VObj (obj_set o (js "status") (VStr s)))]
    ∧ w' = put users_json
             (ser 0 (VArr (l1 ++ VObj (obj_set o (js "status") (VStr s)) :: l2)))
             (after_load users_json w).
Proof.
  rewrite patch_status_run. intros Hrun Hst.
  destruct (valid_status _) eqn:Hvalid; simpl in Hrun; [|by simplify_eq].
  destruct (valid_status_str _ Hvalid) as [s Hs]. rewrite Hs in *.
  destruct (Array_findIndex _ _) as [[i|]|] eqn:Hidx; [|by simplify_eq|done].
  destruct (users_of w) as [| | | | |us|]; try done.
  simpl in Hidx. apply findIndex_from_inv in Hidx
    as (l1 & x & l2 & -> & -> & Hrej & Hhit).
  assert (∃ o, x = VObj o) as [o ->].
  { rewrite same_email_spec in Hhit. unfold email_of in Hhit.
    destruct x; try done. by eexists. }
  exists l1, o, l2, s. cbn [Array_get Array_set Nat.add] in Hrun.
  rewrite lookup_middle in Hrun.
  cbn [default from_option id Set_prop] in Hrun.
  rewrite insert_middle in Hrun.
  cbn [JSON_stringify] in Hrun. by simplify_eq.
Qed.

Lemma patch_status_effect (e : jsstring) (b : value) (w w' : World) (x : res reply) :
  patch_status e b w = (x, w') →
  users_of w' = users_of w ∨ ∃ r, x = Ret r ∧ status r = 200.
Proof.
  intros Hrun. pose proof Hrun as Hrun'. rewrite patch_status_run in Hrun'.
  repeat case_match; simplify_eq;
    try (left; by rewrite ?stored_after_load);
    try (left; unfold users_of; by rewrite ?stored_after_load).
  right. by eexists.
Qed.

Lemma signup_effect (b : value) (t : Z) (w w' : World) (x : res reply) :
  signup b t w = (x, w') →
  users_of w' = users_of w ∨ ∃ r, x = Ret r ∧ status r = 201.
Proof.
  intros Hrun. pose proof Hrun as Hrun'. rewrite signup_run in Hrun'.
  repeat case_match; simplify_eq;
    try (left; unfold users_of; by rewrite ?stored_after_load).
  right. by eexists.
Qed.

End StatusUpdate.

(** ** Email uniqueness *)

Section Uniqueness.
Context `{Engine}.

Lemma distinct_emails_same (us us' : list value) :
  map email_of us' = map email_of us → distinct_emails us → distinct_emails us'.
Proof.
  intros Hmap Hd i j ui uj ei ej Hij Hi Hj Hei Hej.
  assert (Hi' : map email_of us !! i = Some (Some ei)).
  { rewrite <- Hmap. change (map email_of us') with (email_of <$> us').
    by rewrite list_lookup_fmap, Hi; simpl; rewrite Hei. }
  assert (Hj' : map email_of us !! j = Some (Some ej)).
  { rewrite <- Hmap. change (map email_of us') with (email_of <$> us').
    by rewrite list_lookup_fmap, Hj; simpl; rewrite Hej. }
  change (map email_of us) with (email_of <$> us) in Hi', Hj'.
  rewrite list_lookup_fmap in Hi', Hj'.
  destruct (us !! i) as [vi|] eqn:Hvi; [|done].
  destruct (us !! j) as [vj|] eqn:Hvj; [|done].
  simpl in *. eapply (Hd i j vi vj); eauto; congruence.
Qed.

Lemma emails_image (us : list value) :
  Forall parsed us → map email_of (map json_image us) = map email_of us.
Proof.
  induction 1 as [|u us Hu Hus IH]; [done|]. simpl.
  by rewrite email_of_image, IH.
Qed.

Lemma distinct_emails_snoc (us : list value) (u : value) :
  distinct_emails us →
  (∀ e, email_of u = Some e → others e us) →
  distinct_emails (us ++ [u]).
Proof.
  intros Hd Hu i j ui uj ei ej Hij Hi Hj Hei Hej.
  assert (Hlast : ∀ k uk ek v e,
    k < length us → us !! k = Some uk → email_of uk = Some ek →
    email_of v = Some e → v = u → toLowerCase ek ≠ toLowerCase e).
  { intros k uk ek v e Hk Huk Hek Hv ->.
    specialize (Hu e Hv). unfold others in Hu. rewrite Forall_forall in Hu.
    destruct (Hu uk) as (e' & He' & Hne).
    { apply list_elem_of_lookup. eauto. }
    congruence. }
  destruct (decide (i < length us)) as [Hil|Hil];
    destruct (decide (j < length us)) as [Hjl|Hjl].
  - rewrite lookup_app_l in Hi, Hj by done. by eapply (Hd i j).
  - rewrite lookup_app_l in Hi by done. rewrite lookup_app_r in Hj by lia.
    apply list_lookup_singleton_Some in Hj as [_ <-]. by eapply Hlast.
  - rewrite lookup_app_l in Hj by done. rewrite lookup_app_r in Hi by lia.
    apply list_lookup_singleton_Some in Hi as [_ <-].
    intros Heq. by eapply (Hlast j uj ej u ei).
  - rewrite lookup_app_r in Hi, Hj by lia.
    apply list_lookup_singleton_Some in Hi as [Hi0 _].
    apply list_lookup_singleton_Some in Hj as [Hj0 _]. lia.
Qed.

Lemma email_of_set_status (o : list (jsstring * value)) (s : value) :
  email_of (VObj (obj_set o (js "status") s)) = email_of (VObj o).
Proof.
  unfold email_of. rewrite lookup_obj_set.
  rewrite bool_decide_eq_false_2; [done|]. by vm_compute.
Qed.

Lemma parsed_set (o : list (jsstring * value)) (k : jsstring) (v : value) :
  parsed (VObj o) → parsed v → parsed (VObj (obj_set o k v)).
Proof.
  rewrite !parsed_obj. intros [Hnd Ho] Hv. split.
  - by apply obj_set_NoDup.
  - by apply (obj_set_Forall parsed).
Qed.

Lemma new_user_others (b : value) (t : Z) (us : list value) (e : jsstring) :
  signup_incomplete b = false →
  rejects (same_email (field b (js "email"))) us →
  email_of (json_image (new_user b t)) = Some e → others e us.
Proof.
  intros Hb Hrej He. destruct us as [|u us]; [constructor|].
  assert (∃ e0, field b (js "email") = VStr e0) as [e0 He0].
  { apply Forall_cons in Hrej as [Hu _]. rewrite same_email_spec in Hu.
    destruct (email_of u); [|done]. destruct (field b (js "email")); try done.
    by eexists. }
  rewrite (new_user_email b t e0) in He by done. injection He as <-.
  rewrite He0 in Hrej. by apply rejects_others.
Qed.

Lemma signup_keeps_unique (b : value) (t : Z) (w : World) :
  unique_emails (users_of w) → unique_emails (users_of (snd (signup b t w))).
Proof.
  intros Hinv. destruct (signup b t w) as [x w'] eqn:Hrun. simpl.
  destruct (signup_effect _ _ _ _ _ Hrun) as [->|(r & -> & Hst)]; [done|].
  destruct (signup_accepted _ _ _ _ _ Hrun Hst)
    as (Hb & us & Hus & Hrej & -> & _).
  rewrite users_of_put by done.
  destruct Hinv as (us0 & Hus0 & Hd). rewrite Hus in Hus0. injection Hus0 as <-.
  exists (map json_image (us ++ [new_user b t])). split; [done|].
  rewrite map_app. apply distinct_emails_snoc.
  - eapply distinct_emails_same; [|exact Hd].
    apply emails_image. by eapply users_of_parsed_list.
  - intros e He. apply others_image; [by eapply users_of_parsed_list|].
    by eapply new_user_others.
Qed.

Lemma patch_status_keeps_unique (e : jsstring) (b : value) (w : World) :
  unique_emails (users_of w) →
  unique_emails (users_of (snd (patch_status e b w))).
Proof.
  intros Hinv. destruct (patch_status e b w) as [x w'] eqn:Hrun. simpl.
  destruct (patch_status_effect _ _ _ _ _ Hrun) as [->|(r & -> & Hst)]; [done|].
  destruct (patch_status_accepted _ _ _ _ _ Hrun Hst)
    as (l1 & o & l2 & s & Hus & _ & _ & _ & _ & ->).
  rewrite users_of_put by done.
  destruct Hinv as (us0 & Hus0 & Hd). rewrite Hus in Hus0. injection Hus0 as <-.
  eexists. split; [reflexivity|].
  pose proof (users_of_parsed_list _ _ Hus) as Hp.
  apply Forall_app in Hp as [Hp1 Hp2]. apply Forall_cons in Hp2 as [Hpo Hp2].
  eapply distinct_emails_same; [|exact Hd].
  rewrite emails_image.
  - rewrite !map_app. cbn [map]. by rewrite email_of_set_status.
  - apply Forall_app. split; [done|]. constructor; [|done].
    by apply parsed_set.
Qed.

(** C8.  In every state of the users collection reached from the empty
    collection by signups and status updates, no two user records have
    emails that are equal up to case. *)
Theorem reachable_unique_emails (w : World) :
  reachable w → unique_emails (users_of w).
Proof.
  induction 1 as [w Hw|w b t _ IH|w e b _ IH].
  - exists []. split; [done|]. intros i j ui uj ei ej _ Hi. done.
  - by apply signup_keeps_unique.
  - by apply patch_status_keeps_unique.
Qed.

End Uniqueness.

(** ** Login after signup *)

Lemma json_image_defined (x : value) : json_image x ≠ VUndef.
Proof.
  destruct x as [| |b|x|s|l|o]; try done.
  change (json_image (VNum x)) with (reread x). unfold reread.
  destruct (PrimFloat.is_finite x); [destruct (json_number _)|]; done.
Qed.

Section LoginAfterSignup.
Context `{Engine}.

Lemma credentials_match_other (email password role u : value) :
  same_email email u = Ret false →
  credentials_match email password role u = Ret false.
Proof. intros Hu. unfold credentials_match. by rewrite Hu. Qed.

Lemma credentials_match_obj (e e0 pw role : jsstring) (o : list (jsstring * value)) :
  lookup_prop o (js "email") = Some (VStr e0) →
  toLowerCase e0 = toLowerCase e →
  lookup_prop o (js "password") = Some (VStr pw) →
  lookup_prop o (js "role") = Some (VStr role) →
  role ≠ [] →
  credentials_match (VStr e) (VStr pw) (VStr role) (VObj o) = Ret true.
Proof.
  intros He0 Hcase Hpw Hrole Hne. unfold credentials_match.
  rewrite same_email_spec. unfold email_of. rewrite He0.
  rewrite bool_decide_eq_true_2 by done.
  cbn [mbind res_mbind res_bind Get]. rewrite Hpw. cbn [default from_option id strict_eq].
  rewrite bool_decide_eq_true_2 by done.
  cbn [mbind res_mbind res_bind Get]. rewrite Hrole. cbn [default from_option id].
  unfold js_or. destruct role; [done|]. cbn [truthy strict_eq].
  by rewrite bool_decide_eq_true_2.
Qed.

Lemma rejects_credentials (e : jsstring) (password role : value) (us : list value) :
  others e us → rejects (credentials_match (VStr e) password role) us.
Proof.
  intros Ho. apply rejects_others in Ho. unfold rejects in *.
  eapply Forall_impl; [exact Ho|]. intros u. apply credentials_match_other.
Qed.

(** The stored image of a new user: the properties the login route
    reads. *)
Lemma new_user_image (b : value) (t : Z) :
  signup_incomplete b = false →
  ∃ o, json_image (new_user b t) = VObj o
       ∧ plain o
       ∧ lookup_prop o (js "name") = Some (json_image (field b (js "name")))
       ∧ lookup_prop o (js "email") = Some (json_image (field b (js "email")))
       ∧ lookup_prop o (js "password") = Some (json_image (field b (js "password")))
       ∧ lookup_prop o (js "role") = Some (json_image (field b (js "role")))
       ∧ lookup_prop o (js "status") = Some (str "pending").
Proof.
  intros Hb. destruct (new_user_plain b t Hb) as (o & Ho & Hplain & _).
  exists (map image_prop o). rewrite Ho, json_image_plain by done.
  split; [done|]. unfold new_user in Ho. injection Ho as <-.
  split.
  { destruct Hplain as [Hnd Hdef]. split.
    - replace (map fst (map image_prop _)) with
        (map fst [(js "name", field b (js "name"));
           (js "email", field b (js "email")); (js "phone", field b (js "phone"));
           (js "password", field b (js "password"));
           (js "role", field b (js "role"));
           (js "courseType",
            if strict_eq (field b (js "role")) (str "student")
            then js_or (field b (js "courseType")) VNull
            else VNull); (js "status", str "pending");
           (js "createdAt", VStr (toISOString t)); (js "courses", VArr []);
           (js "projectLog", VArr []); (js "profile", VObj [])]) by done.
      done.
    - apply Forall_map. eapply Forall_impl; [exact Hdef|].
      intros [k x] Hx. apply json_image_defined. }
  rewrite !lookup_image_prop. repeat split; reflexivity.
Qed.

End LoginAfterSignup.

Section LoginAfterSignupTheorem.
Context `{Engine}.

Lemma plain_set (o : list (jsstring * value)) (k : jsstring) (v : value) :
  plain o → v ≠ VUndef → plain (obj_set o k v).
Proof.
  intros [Hnd Ho] Hv. split; [by apply obj_set_NoDup|].
  by apply (obj_set_Forall (fun x => x ≠ VUndef)).
Qed.

(** C1, as the code has it.  A signup with email [A@X.com] and a string
    password and role having been accepted, a login with [a@x.com] and
    the same password and role finds the account (the email is matched
    whatever the case) and is answered 403, the account being pending;
    once an admin has approved the account, the same login is answered
    200 with the account's fields. *)
Theorem login_after_signup (b l : value) (t : Z) (w w1 : World) (r1 : reply)
    (pw role : jsstring) :
  toLowerCase (js "a@x.com") = toLowerCase (js "A@X.com") →
  field b (js "email") = str "A@X.com" →
  field b (js "password") = VStr pw → field b (js "role") = VStr role →
  signup b t w = (Ret r1, w1) → status r1 = 201 →
  field l (js "email") = str "a@x.com" →
  field l (js "password") = VStr pw → field l (js "role") = VStr role →
  login l w1 =
    (Ret {| status := 403; body := message "Account pending admin approval" |}, w1)
  ∧ ∃ r2 w2 user,
      patch_status (js "a@x.com") approve w1 = (Ret r2, w2)
      ∧ status r2 = 200
      ∧ login l w2 =
          (Ret {| status := 200;
                  body := VObj [(js "message", str "Login successful");
                                (js "user", login_user user)] |}, w2)
      ∧ prop user (js "email") = str "A@X.com"
      ∧ prop user (js "role") = VStr role
      ∧ prop user (js "status") = str "approved".
Proof.
  intros Hcase Hbe Hbp Hbr Hrun Hst Hle Hlp Hlr.
  destruct (signup_accepted _ _ _ _ _ Hrun Hst)
    as (Hb & us & Hus & Hrej & -> & _).
  pose proof (users_of_parsed_list _ _ Hus) as Hparsed.
  assert (Hpw : pw ≠ [] ∧ role ≠ []).
  { unfold signup_incomplete in Hb. rewrite Hbp, Hbr in Hb.
    repeat (apply orb_false_iff in Hb as [Hb ?]).
    split; intros ->; done. }
  destruct Hpw as [Hpw Hrole].
  rewrite Hbe in Hrej. apply rejects_others in Hrej.
  assert (Hothers : others (js "a@x.com") (map json_image us)).
  { apply (others_same_case (js "A@X.com")); [done|]. by apply others_image. }
  destruct (new_user_image b t Hb)
    as (o & Ho & Hplain & _ & Hoe & Hop & Hor & Hos).
  rewrite Hbe in Hoe. rewrite Hbp in Hop. rewrite Hbr in Hor.
  change (lookup_prop o (js "email") = Some (VStr (js "A@X.com"))) in Hoe.
  change (lookup_prop o (js "password") = Some (VStr pw)) in Hop.
  change (lookup_prop o (js "role") = Some (VStr role)) in Hor.
  set (w1 := put users_json (ser 0 (VArr (us ++ [new_user b t])))
               (after_load users_json w)) in *.
  assert (Hw1 : users_of w1 = VArr (map json_image us ++ [VObj o])).
  { unfold w1. rewrite users_of_put by done.
    change (json_image (VArr (us ++ [new_user b t])))
      with (VArr (map json_image (us ++ [new_user b t]))).
    rewrite map_app. cbn [map]. by rewrite Ho. }
  assert (Hload1 : after_load users_json w1 = w1).
  { unfold w1. by rewrite (after_load_put users_json (VArr (us ++ [new_user b t]))). }
  assert (Htruthy : negb (truthy (field l (js "email")))
                    || negb (truthy (field l (js "password")))
                    || negb (truthy (field l (js "role"))) = false).
  { rewrite Hle, Hlp, Hlr. by destruct pw, role. }
  split.
  - rewrite login_run, Htruthy, Hw1, Hload1, Hle, Hlp, Hlr. cbn [Array_find].
    rewrite (find_from_hit _ _ [] (VObj o)).
    + cbn [truthy negb Get]. rewrite Hos. reflexivity.
    + by apply rejects_credentials.
    + by apply (credentials_match_obj _ (js "A@X.com")).
  - set (o' := obj_set o (js "status") (str "approved")).
    set (w2 := put users_json (ser 0 (VArr (map json_image us ++ [VObj o']))) w1).
    exists {| status := 200;
              body := VObj [(js "message", str "Status updated"); (js "user", VObj o')] |},
           w2, (VObj (map image_prop o')).
    assert (Hplain' : plain o') by by apply plain_set.
    assert (Hlook : ∀ k, k ≠ js "status" →
              lookup_prop (map image_prop o') k = json_image <$> lookup_prop o k).
    { intros k Hk. rewrite lookup_image_prop. unfold o'. rewrite lookup_obj_set.
      by rewrite bool_decide_eq_false_2. }
    assert (Hstat : lookup_prop (map image_prop o') (js "status")
                    = Some (str "approved")).
    { rewrite lookup_image_prop. unfold o'. rewrite lookup_obj_set.
      by rewrite bool_decide_eq_true_2. }
    split; [|split; [done|split; [|split; [|split]]]].
    + rewrite patch_status_run. change (valid_status _) with true. cbn [negb].
      rewrite Hw1, Hload1. cbn [Array_findIndex].
      rewrite (findIndex_from_hit _ _ [] (VObj o)).
      * cbn [Nat.add Array_get].
        rewrite lookup_middle. cbn [default from_option id Set_prop Array_set].
        rewrite insert_middle. reflexivity.
      * by apply rejects_others.
      * rewrite same_email_spec. unfold email_of. rewrite Hoe.
        by rewrite bool_decide_eq_true_2.
    + assert (Hw2 : users_of w2
                    = VArr (map json_image (map json_image us)
                            ++ [VObj (map image_prop o')])).
      { unfold w2. rewrite users_of_put by done.
        change (json_image (VArr (map json_image us ++ [VObj o'])))
          with (VArr (map json_image (map json_image us ++ [VObj o']))).
        rewrite map_app. cbn [map]. by rewrite json_image_plain. }
      rewrite login_run, Htruthy, Hw2.
      unfold w2 at 1 2 3 4 5.
      rewrite (after_load_put users_json (VArr (map json_image us ++ [VObj o']))) by done.
      fold w2. rewrite Hle, Hlp, Hlr. cbn [Array_find].
      rewrite (find_from_hit _ _ [] (VObj (map image_prop o'))).
      * cbn [truthy negb Get]. rewrite Hstat. reflexivity.
      * apply rejects_credentials. apply others_image; [|done].
        pose proof (users_of_parsed_list _ _ Hw1) as Hp1.
        by apply Forall_app in Hp1 as [Hp1 _].
      * apply (credentials_match_obj _ (js "A@X.com")); try done.
        -- by rewrite Hlook, Hoe.
        -- by rewrite Hlook, Hop.
        -- by rewrite Hlook, Hor.
    + cbn [prop]. by rewrite Hlook, Hoe.
    + cbn [prop]. by rewrite Hlook, Hor.
    + cbn [prop]. by rewrite Hstat.
Qed.

End LoginAfterSignupTheorem.

(** ** Course lists *)

Lemma image_members_parsed (o acc : list (jsstring * value)) :
  Forall (fun kv => parsed (json_image kv.2)) o →
  parsed (VObj acc) → parsed (VObj (image_members o acc)).
Proof.
  revert acc. induction o as [|[k x] o IH]; intros acc Ho Hacc; [done|].
  apply Forall_cons in Ho as [Hx Ho].
  assert (x = VUndef ∨ x ≠ VUndef) as [->|Hx0] by (destruct x; auto).
  - by apply IH.
  - rewrite image_members_cons by done. apply IH; [done|]. by apply parsed_set.
Qed.

Lemma json_image_parsed (v : value) : parsed (json_image v).
Proof.
  induction v as [| |b|x|s|l IH|o IH] using value_ind'; try done.
  - change (json_image (VNum x)) with (reread x). unfold reread.
    destruct (PrimFloat.is_finite x); [destruct (json_number _)|]; done.
  - change (json_image (VArr l)) with (VArr (map json_image l)).
    apply parsed_arr. by apply Forall_map.
  - rewrite json_image_obj. apply image_members_parsed; [done|].
    apply parsed_obj. split; constructor.
Qed.

Lemma json_image_object (v : value) : is_object (json_image v) = is_object v.
Proof.
  destruct v as [| |b|x|s|l|o]; try done.
  change (json_image (VNum x)) with (reread x). unfold reread.
  destruct (PrimFloat.is_finite x); [destruct (json_number _)|]; done.
Qed.


Lemma strict_eq_str_image (x : value) (n : jsstring) :
  strict_eq (json_image x) (VStr n) = strict_eq x (VStr n).
Proof.
  destruct x as [| |b|x|s|l|o]; try done.
  change (json_image (VNum x)) with (reread x). unfold reread.
  destruct (PrimFloat.is_finite x); [destruct (json_number _)|]; done.
Qed.

Lemma lookup_prop_elem (o : list (jsstring * value)) (k : jsstring) (x : value) :
  lookup_prop o k = Some x → (k, x) ∈ o.
Proof.
  induction o as [|[k' v] o IH]; [done|]. cbn [lookup_prop].
  destruct (decide (k' = k)) as [->|Hne].
  - rewrite bool_decide_eq_true_2 by done. intros [= ->]. apply elem_of_cons. by left.
  - rewrite bool_decide_eq_false_2 by done. intros Hx. apply elem_of_cons. right. auto.
Qed.

Lemma parsed_lookup (o : list (jsstring * value)) (k : jsstring) (x : value) :
  parsed (VObj o) → lookup_prop o k = Some x → parsed x.
Proof.
  intros [_ Ho]%parsed_obj Hx%lookup_prop_elem.
  rewrite Forall_forall in Ho. apply (Ho _ Hx).
Qed.

Lemma prop_image (c : value) (k : jsstring) :
  parsed c → is_object c = true →
  prop (json_image c) k = match prop c k with
                          | VUndef => VUndef
                          | x => json_image x
                          end.
Proof.
  intros Hc Hobj. destruct c as [| | | | | |o]; try done.
  rewrite json_image_plain by by apply parsed_plain.
  cbn [prop]. rewrite lookup_image_prop.
  destruct (lookup_prop o k) as [x|] eqn:Hx; [|done]. cbn.
  apply (parsed_lookup _ _ _ Hc) in Hx. by destruct x.
Qed.


Lemma obj_set_twice (o : list (jsstring * value)) (k : jsstring) (v1 v2 : value) :
  obj_set (obj_set o k v1) k v2 = obj_set o k v2.
Proof.
  induction o as [|[k' v'] o IH]; cbn [obj_set].
  - by rewrite bool_decide_eq_true_2.
  - destruct (decide (k' = k)) as [->|Hne].
    + rewrite !bool_decide_eq_true_2 by done. cbn [obj_set].
      by rewrite bool_decide_eq_true_2.
    + rewrite !bool_decide_eq_false_2 by done. cbn [obj_set].
      by rewrite bool_decide_eq_false_2, IH.
Qed.

Lemma obj_set_same (o : list (jsstring * value)) (k : jsstring) (v : value) :
  lookup_prop o k = Some v → obj_set o k v = o.
Proof.
  induction o as [|[k' v'] o IH]; [done|]. cbn [obj_set lookup_prop].
  destruct (bool_decide (k' = k)); [by intros [= ->]|].
  intros Hv. by rewrite IH.
Qed.

Section Courses.
Context `{Engine}.

Lemma with_courses_obj (o : list (jsstring * value)) :
  with_courses (VObj o) = Ret (VObj (obj_set o (js "courses") (course_list o))).
Proof. reflexivity. Qed.

(** The add-course route once the student is located: first user with
    the email is [VObj o], at index [length l1]. *)
Lemma add_course_at (e : jsstring) (b : value) (w : World)
    (l1 l2 : list value) (o : list (jsstring * value)) (cs : list value) :
  users_of w = VArr (l1 ++ VObj o :: l2) →
  rejects (has_email (toLowerCase e)) l1 →
  has_email (toLowerCase e) (VObj o) = Ret true →
  course_list o = VArr cs →
  add_course e b w =
    if negb (truthy (field b (js "name")))
    then (Ret {| status := 400; body := message "Course name required" |}, w)
    else
      match find_from (named (field b (js "name"))) cs with
      | Throw err => (Throw err, after_load users_json w)
      | Ret found =>
        if truthy found
        then (Ret {| status := 409; body := message "Course already added" |},
              after_load users_json w)
        else
          (Ret {| status := 201;
                  body := VObj [(js "message", str "Course added");
                                (js "courses",
                                 VArr (cs ++ [new_course (field b (js "name"))]))] |},
           put users_json
             (ser 0 (VArr (l1 ++ set_courses o
                                   (cs ++ [new_course (field b (js "name"))]) :: l2)))
             (after_load users_json w))
      end.
Proof.
  intros Hus Hrej Hhit Hcs. unfold add_course.
  destruct (negb _); [done|].
  rewrite bind_run, loadJson_run. fold (users_of w). rewrite Hus.
  rewrite bind_run, lift_run. cbn [Array_findIndex].
  rewrite findIndex_from_hit by done. cbn [Nat.add Array_get].
  rewrite lookup_middle. cbn [default from_option id].
  rewrite bind_run, lift_run, with_courses_obj, Hcs.
  rewrite bind_run, lift_run. cbn [Get]. rewrite lookup_obj_set.
  rewrite bool_decide_eq_true_2 by done. cbn [default from_option id].
  rewrite bind_run, lift_run. cbn [Array_find].
  destruct (find_from _ cs) as [found|err]; [|done].
  destruct (truthy found); [done|].
  rewrite bind_run, lift_run. cbn [Array_push].
  rewrite bind_run, lift_run. cbn [Set_prop]. rewrite obj_set_twice.
  cbn [Array_set]. rewrite insert_middle. reflexivity.
Qed.

(** The progress route once the student is located. *)
Lemma patch_course_at (e : jsstring) (b : value) (w : World)
    (l1 l2 : list value) (o : list (jsstring * value)) (cs : list value) :
  users_of w = VArr (l1 ++ VObj o :: l2) →
  rejects (has_email (toLowerCase e)) l1 →
  has_email (toLowerCase e) (VObj o) = Ret true →
  course_list o = VArr cs →
  patch_course e b w =
    if negb (truthy (field b (js "name")))
    then (Ret {| status := 400; body := message "Course name required" |}, w)
    else
      match findIndex_from (named (field b (js "name"))) cs 0 with
      | Throw err => (Throw err, after_load users_json w)
      | Ret None =>
        (Ret {| status := 404; body := message "Course not found for student" |},
         after_load users_json w)
      | Ret (Some j) =>
        match ToNumber (js_or (field b (js "progress")) (VNum 0)) with
        | Throw err => (Throw err, after_load users_json w)
        | Ret x =>
          match Set_prop (default VUndef (cs !! j)) (js "progress") (VNum x) with
          | Throw err => (Throw err, after_load users_json w)
          | Ret c =>
            (Ret {| status := 200;
                    body := VObj [(js "message", str "Progress updated");
                                  (js "course", c)] |},
             put users_json
               (ser 0 (VArr (l1 ++ set_courses o (<[j := c]> cs) :: l2)))
               (after_load users_json w))
          end
        end
      end.
Proof.
  intros Hus Hrej Hhit Hcs. unfold patch_course.
  destruct (negb _); [done|].
  rewrite bind_run, loadJson_run. fold (users_of w). rewrite Hus.
  rewrite bind_run, lift_run. cbn [Array_findIndex].
  rewrite findIndex_from_hit by done. cbn [Nat.add Array_get].
  rewrite lookup_middle. cbn [default from_option id].
  rewrite bind_run, lift_run, with_courses_obj, Hcs.
  rewrite bind_run, lift_run. cbn [Get]. rewrite lookup_obj_set.
  rewrite bool_decide_eq_true_2 by done. cbn [default from_option id].
  rewrite bind_run, lift_run. cbn [Array_findIndex].
  destruct (findIndex_from _ cs 0) as [[j|]|err]; [|done|done].
  rewrite bind_run, lift_run.
  destruct (ToNumber _) as [x|err]; [|done].
  rewrite bind_run, lift_run. cbn [Array_get default from_option id].
  destruct (Set_prop _ _ _) as [c|err]; [|done].
  rewrite bind_run, lift_run. cbn [Set_prop Array_set]. rewrite obj_set_twice.
  rewrite insert_middle. reflexivity.
Qed.

End Courses.

Ltac answered :=
  rewrite ?respond_run in *; simplify_eq; simpl in *; congruence.

Section CoursesLocate.
Context `{Engine}.

Lemma locate_student (e : jsstring) (users : value) (i : nat) :
  Array_findIndex (has_email e) users = Ret (Some i) →
  ∃ l1 o l2, users = VArr (l1 ++ VObj o :: l2) ∧ i = length l1
             ∧ rejects (has_email e) l1 ∧ has_email e (VObj o) = Ret true.
Proof.
  destruct users as [| | | | |us|]; try done. cbn [Array_findIndex].
  intros (l1 & x & l2 & -> & -> & Hrej & Hhit)%findIndex_from_inv.
  assert (∃ o, x = VObj o) as [o ->].
  { rewrite has_email_spec in Hhit. unfold email_of in Hhit.
    destruct x; try done. by eexists. }
  by exists l1, o, l2.
Qed.

Lemma add_course_locates (e : jsstring) (b : value) (w w' : World) (r : reply) :
  add_course e b w = (Ret r, w') → status r ≠ 400 → status r ≠ 404 →
  ∃ l1 o l2 cs, located e (users_of w) l1 o l2 cs.
Proof.
  unfold add_course. intros Hrun H400 H404.
  destruct (negb _); [answered|].
  rewrite bind_run, loadJson_run in Hrun. fold (users_of w) in Hrun.
  rewrite bind_run, lift_run in Hrun.
  destruct (Array_findIndex _ _) as [[i|]|err] eqn:Hidx; [|answered|done].
  destruct (locate_student _ _ _ Hidx) as (l1 & o & l2 & Hus & -> & Hrej & Hhit).
  rewrite Hus in Hrun. cbn [Array_get] in Hrun. rewrite lookup_middle in Hrun.
  cbn [default from_option id] in Hrun.
  rewrite bind_run, lift_run, with_courses_obj in Hrun.
  rewrite bind_run, lift_run in Hrun. cbn [Get] in Hrun.
  rewrite lookup_obj_set, bool_decide_eq_true_2 in Hrun by done.
  cbn [default from_option id] in Hrun.
  rewrite bind_run, lift_run in Hrun.
  destruct (course_list o) as [| | | | |cs|] eqn:Hcs; try done.
  by exists l1, o, l2, cs.
Qed.

Lemma patch_course_locates (e : jsstring) (b : value) (w w' : World) (r : reply) :
  patch_course e b w = (Ret r, w') → status r = 200 →
  ∃ l1 o l2 cs, located e (users_of w) l1 o l2 cs.
Proof.
  unfold patch_course. intros Hrun Hst.
  destruct (negb _); [answered|].
  rewrite bind_run, loadJson_run in Hrun. fold (users_of w) in Hrun.
  rewrite bind_run, lift_run in Hrun.
  destruct (Array_findIndex _ _) as [[i|]|err] eqn:Hidx; [|answered|done].
  destruct (locate_student _ _ _ Hidx) as (l1 & o & l2 & Hus & -> & Hrej & Hhit).
  rewrite Hus in Hrun. cbn [Array_get] in Hrun. rewrite lookup_middle in Hrun.
  cbn [default from_option id] in Hrun.
  rewrite bind_run, lift_run, with_courses_obj in Hrun.
  rewrite bind_run, lift_run in Hrun. cbn [Get] in Hrun.
  rewrite lookup_obj_set, bool_decide_eq_true_2 in Hrun by done.
  cbn [default from_option id] in Hrun.
  rewrite bind_run, lift_run in Hrun.
  destruct (course_list o) as [| | | | |cs|] eqn:Hcs; try done.
  by exists l1, o, l2, cs.
Qed.

Lemma named_true_object (name c : value) :
  truthy name = true → named name c = Ret true → is_object c = true.
Proof.
  intros Hname. destruct c; try done; cbn; intros [= Heq]; by destruct name.
Qed.

(** An accepted progress update, in full. *)
Lemma patch_course_accepted (e : jsstring) (b : value) (w w' : World) (r : reply) :
  patch_course e b w = (Ret r, w') → status r = 200 →
  ∃ l1 o l2 c1 c c2 x,
    located e (users_of w) l1 o l2 (c1 ++ VObj c :: c2)
    ∧ truthy (field b (js "name")) = true
    ∧ rejects (named (field b (js "name"))) c1
    ∧ named (field b (js "name")) (VObj c) = Ret true
    ∧ ToNumber (js_or (field b (js "progress")) (VNum 0)) = Ret x
    ∧ body r = VObj [(js "message", str "Progress updated");
                     (js "course", VObj (obj_set c (js "progress") (VNum x)))]
    ∧ w' = put users_json
             (ser 0 (VArr (l1 ++ set_courses o
                       (c1 ++ VObj (obj_set c (js "progress") (VNum x)) :: c2) :: l2)))
             (after_load users_json w).
Proof.
  intros Hrun Hst.
  destruct (patch_course_locates _ _ _ _ _ Hrun Hst)
    as (l1 & o & l2 & cs & Hus & Hrej & Hhit & Hcs).
  rewrite (patch_course_at e b w l1 l2 o cs) in Hrun by done.
  destruct (truthy (field b (js "name"))) eqn:Hname; cbn [negb] in Hrun;
    [|answered].
  destruct (findIndex_from _ cs 0) as [[j|]|] eqn:Hj; [|answered|done].
  apply findIndex_from_inv in Hj as (c1 & x0 & c2 & -> & -> & Hrej' & Hhit').
  destruct (ToNumber _) as [x|] eqn:Hx; [|done].
  pose proof (named_true_object _ _ Hname Hhit') as Hobj.
  destruct x0 as [| | | | | |c]; try done.
  cbn [Nat.add] in Hrun. rewrite lookup_middle in Hrun.
  cbn [default from_option id Set_prop] in Hrun. rewrite insert_middle in Hrun.
  exists l1, o, l2, c1, c, c2, x. by simplify_eq.
Qed.

(** An accepted add, in full. *)
Lemma add_course_accepted (e : jsstring) (b : value) (w w' : World) (r : reply) :
  add_course e b w = (Ret r, w') → status r = 201 →
  ∃ l1 o l2 cs,
    located e (users_of w) l1 o l2 cs
    ∧ truthy (field b (js "name")) = true
    ∧ find_from (named (field b (js "name"))) cs = Ret VUndef
    ∧ w' = put users_json
             (ser 0 (VArr (l1 ++ set_courses o
                             (cs ++ [new_course (field b (js "name"))]) :: l2)))
             (after_load users_json w).
Proof.
  intros Hrun Hst.
  destruct (add_course_locates _ _ _ _ _ Hrun) as (l1 & o & l2 & cs & Hloc);
    [lia..|].
  pose proof Hloc as (Hus & Hrej & Hhit & Hcs).
  rewrite (add_course_at e b w l1 l2 o cs) in Hrun by done.
  destruct (truthy (field b (js "name"))) eqn:Hname; cbn [negb] in Hrun;
    [|answered].
  destruct (find_from _ cs) as [found|] eqn:Hfind; [|done].
  destruct (truthy found) eqn:Hfound; [answered|].
  exists l1, o, l2, cs. split; [done|]. split; [done|]. split; [|by simplify_eq].
  destruct (find_from_inv _ _ _ Hfind) as [[-> _]|(? & ? & _ & _ & Hhit')]; [done|].
  apply (named_true_object _ _ Hname) in Hhit'. by destruct found.
Qed.

End CoursesLocate.

Section CoursesTheorems.
Context `{Engine}.

Lemma located_student (e : jsstring) (w : World) l1 o l2 cs :
  located e (users_of w) l1 o l2 cs →
  student e w = Some (VObj o) ∧ student_courses e w = cs.
Proof.
  intros (Hus & Hrej & Hhit & Hcs).
  assert (Hst : student e w = Some (VObj o)).
  { unfold student. rewrite Hus. cbn [Array_findIndex].
    rewrite findIndex_from_hit by done. cbn [Nat.add Array_get].
    by rewrite lookup_middle. }
  split; [done|]. unfold student_courses. rewrite Hst. unfold courses_of.
  cbn [prop]. unfold course_list in Hcs. by rewrite Hcs.
Qed.

Lemma has_email_image (e : jsstring) (u : value) (b : bool) :
  parsed u → has_email e u = Ret b → has_email e (json_image u) = Ret b.
Proof. intros Hu. rewrite !has_email_spec. by rewrite email_of_image. Qed.

Lemma rejects_has_email_image (e : jsstring) (l : list value) :
  Forall parsed l → rejects (has_email e) l → rejects (has_email e) (map json_image l).
Proof.
  intros Hp Hr. apply Forall_map. unfold rejects in Hr.
  rewrite Forall_forall in *. intros u Hu. apply has_email_image; auto.
Qed.

Lemma json_image_arr (l : list value) :
  json_image (VArr l) = VArr (map json_image l).
Proof. reflexivity. Qed.

(** The collection read back after a student's course list was
    replaced: the same student is located, with the image of the list. *)
Lemma located_saved (e : jsstring) (w : World) l1 o l2 cs cs' :
  located e (users_of w) l1 o l2 cs →
  located e (json_image (VArr (l1 ++ set_courses o cs' :: l2)))
    (map json_image l1) (map image_prop (obj_set o (js "courses") (VArr cs')))
    (map json_image l2) (map json_image cs').
Proof.
  intros (Hus & Hrej & Hhit & Hcs).
  pose proof (users_of_parsed_list _ _ Hus) as Hp.
  apply Forall_app in Hp as [Hp1 Hp2]. apply Forall_cons in Hp2 as [Hpo Hp2].
  assert (Hpl : plain (obj_set o (js "courses") (VArr cs'))).
  { apply plain_set; [by apply parsed_plain|done]. }
  split.
  { rewrite json_image_arr, map_app, map_cons. unfold set_courses.
    by rewrite json_image_plain. }
  split; [by apply rejects_has_email_image|].
  split.
  - rewrite has_email_spec in *. unfold email_of in *.
    rewrite lookup_image_prop, lookup_obj_set, bool_decide_eq_false_2 by done.
    destruct (lookup_prop o (js "email")) as [[| | | |s| |]|]; done.
  - unfold course_list.
    rewrite lookup_image_prop, lookup_obj_set, bool_decide_eq_true_2 by done.
    reflexivity.
Qed.

Lemma located_put (e : jsstring) (w w0 : World) l1 o l2 cs cs' :
  located e (users_of w) l1 o l2 cs →
  located e
    (users_of (put users_json (ser 0 (VArr (l1 ++ set_courses o cs' :: l2))) w0))
    (map json_image l1) (map image_prop (obj_set o (js "courses") (VArr cs')))
    (map json_image l2) (map json_image cs').
Proof.
  intros Hloc. rewrite (users_of_put (VArr (l1 ++ set_courses o cs' :: l2))) by done.
  by apply (located_saved e w l1 o l2 cs).
Qed.

Lemma located_courses_parsed (e : jsstring) (w : World) l1 o l2 cs :
  located e (users_of w) l1 o l2 cs → Forall parsed cs.
Proof.
  intros (Hus & _ & _ & Hcs).
  pose proof (users_of_parsed_list _ _ Hus) as Hp.
  apply Forall_app in Hp as [_ Hp]. apply Forall_cons in Hp as [Hpo _].
  unfold course_list in Hcs.
  destruct (lookup_prop o (js "courses")) as [x|] eqn:Hx.
  - pose proof (parsed_lookup _ _ _ Hpo Hx) as Hpx. cbn in Hcs.
    unfold js_or in Hcs. destruct (truthy x); [|by simplify_eq].
    subst x. by apply parsed_arr.
  - cbn in Hcs. simplify_eq. constructor.
Qed.



Lemma images_objects (cs : list value) :
  Forall (fun c => is_object c = true) cs →
  Forall (fun c => is_object c = true) (map json_image cs).
Proof.
  intros Ho. apply Forall_map. eapply Forall_impl; [exact Ho|].
  intros c Hc. cbn. by rewrite json_image_object.
Qed.

Lemma images_parsed (cs : list value) : Forall parsed (map json_image cs).
Proof. apply Forall_map, Forall_forall. intros c _. apply json_image_parsed. Qed.

Lemma find_from_none (name : value) (cs : list value) :
  truthy name = true → find_from (named name) cs = Ret VUndef →
  rejects (named name) cs.
Proof.
  intros Hname [[_ Hr]|(c1 & c2 & _ & _ & Hhit)]%find_from_inv; [done|].
  done.
Qed.


End CoursesTheorems.


Section ProgressUpdate.
Context `{Engine}.

Lemma falsy_or_zero (v : value) :
  truthy v = false → ToNumber (js_or v (VNum 0)) = Ret 0%float.
Proof. intros Hv. unfold js_or. by rewrite Hv. Qed.

Lemma reread_zero : reread 0 = VNum 0.
Proof. vm_compute. reflexivity. Qed.

Lemma reread_not_finite (x : float) : PrimFloat.is_finite x = false → reread x = VNull.
Proof. intros Hx. unfold reread. by rewrite Hx. Qed.

Lemma progress_image (c : list (jsstring * value)) (x : float) :
  parsed (VObj c) →
  prop (json_image (VObj (obj_set c (js "progress") (VNum x)))) (js "progress")
  = reread x.
Proof.
  intros Hc. rewrite json_image_plain by (apply plain_set; [by apply parsed_plain|done]).
  cbn [prop]. rewrite lookup_image_prop, lookup_obj_set.
  by rewrite bool_decide_eq_true_2.
Qed.

(** C10. An accepted progress update (200) converts the request's
    progress with [Number(progress || 0)] to a Number [x] and sets it on
    the first course record of the student that has the requested name,
    say at position [j]: the record of the response has progress [x],
    and the record at position [j] of the student read back from the
    store has what the document keeps of [x], which is [0] when the
    request's progress is absent or falsy, and [null] when [x] is NaN or
    an infinity. *)
Theorem progress_update_stored (e : jsstring) (b : value) (w w' : World) (r : reply) :
  patch_course e b w = (Ret r, w') → status r = 200 →
  ∃ (x : float) (j : nat) (c s : value),
    ToNumber (js_or (field b (js "progress")) (VNum 0)) = Ret x
    ∧ findIndex_from (named (field b (js "name"))) (student_courses e w) 0
      = Ret (Some j)
    ∧ body r = VObj [(js "message", str "Progress updated"); (js "course", c)]
    ∧ prop c (js "progress") = VNum x
    ∧ student_courses e w' = map json_image (<[j := c]> (student_courses e w))
    ∧ student_courses e w' !! j = Some s
    ∧ prop s (js "progress") = reread x
    ∧ (truthy (field b (js "progress")) = false → x = 0%float ∧ reread x = VNum 0)
    ∧ (PrimFloat.is_finite x = false → reread x = VNull).
Proof.
  intros Hrun H200.
  destruct (patch_course_accepted _ _ _ _ _ Hrun H200)
    as (l1 & o & l2 & c1 & c & c2 & x & Hloc & Hname & Hrej & Hhit & Hx & Hbody & ->).
  pose proof (located_student _ _ _ _ _ _ Hloc) as [_ Hcs].
  pose proof (located_courses_parsed _ _ _ _ _ _ Hloc) as Hpcs.
  apply Forall_app in Hpcs as [_ Hpcs]. apply Forall_cons in Hpcs as [Hpc _].
  pose proof (located_put e w (after_load users_json w) l1 o l2 _
    (c1 ++ VObj (obj_set c (js "progress") (VNum x)) :: c2) Hloc) as Hloc'.
  apply located_student in Hloc' as [_ Hcs'].
  exists x, (length c1), (VObj (obj_set c (js "progress") (VNum x))),
    (json_image (VObj (obj_set c (js "progress") (VNum x)))).
  rewrite Hcs, Hcs'. split; [done|].
  split; [by rewrite (findIndex_from_hit _ c1 c2 (VObj c) 0)|].
  split; [done|].
  split; [cbn [prop]; by rewrite lookup_obj_set, bool_decide_eq_true_2|].
  split; [by rewrite insert_middle|].
  split.
  { rewrite map_app, map_cons. rewrite <- (length_map json_image c1).
    apply lookup_middle. }
  split; [by apply progress_image|].
  split; [|apply reread_not_finite].
  intros Hfalsy. rewrite falsy_or_zero in Hx by done.
  injection Hx as <-. split; [done|apply reread_zero].
Qed.

End ProgressUpdate.

(** A progress update whose progress is the text abc is answered 200
    with progress NaN in the response record, and the student read back
    from the store has progress [null]. *)
Lemma text_progress_stored_null :
  ∃ w' c,
    patch_course (js "b@x.com") (text_progress "Math" "abc") math_student =
      (Ret {| status := 200;
              body := VObj [(js "message", str "Progress updated");
                            (js "course",
                             VObj [(js "name", str "Math");
                                   (js "progress", VNum PrimFloat.nan)])] |}, w')
    ∧ student_courses (js "b@x.com") w' = [c]
    ∧ prop c (js "name") = str "Math"
    ∧ prop c (js "progress") = VNull.
Proof.
  eexists _, _. split; [vm_compute; reflexivity|].
  split; [vm_compute; reflexivity|]. split; reflexivity.
Defined.

Lemma progress_update_stored_witness :
  ∃ (x : float) (j : nat) (c s : value),
    ToNumber (js_or (field (progress_body "Math" 75) (js "progress")) (VNum 0)) = Ret x
    ∧ findIndex_from (named (field (progress_body "Math" 75) (js "name")))
        (student_courses (js "b@x.com") math_student) 0 = Ret (Some j)
    ∧ VObj [(js "message", str "Progress updated");
            (js "course", VObj [(js "name", str "Math"); (js "progress", VNum 75)])]
      = VObj [(js "message", str "Progress updated"); (js "course", c)]
    ∧ prop c (js "progress") = VNum x
    ∧ student_courses (js "b@x.com")
        (snd (patch_course (js "b@x.com") (progress_body "Math" 75) math_student))
      = map json_image (<[j := c]> (student_courses (js "b@x.com") math_student))
    ∧ student_courses (js "b@x.com")
        (snd (patch_course (js "b@x.com") (progress_body "Math" 75) math_student))
      !! j = Some s
    ∧ prop s (js "progress") = reread x
    ∧ (truthy (field (progress_body "Math" 75) (js "progress")) = false →
       x = 0%float ∧ reread x = VNum 0)
    ∧ (PrimFloat.is_finite x = false → reread x = VNull).
Proof.
  apply (progress_update_stored (js "b@x.com") (progress_body "Math" 75) math_student
           (snd (patch_course (js "b@x.com") (progress_body "Math" 75) math_student))
           {| status := 200;
              body := VObj [(js "message", str "Progress updated");
                            (js "course",
                             VObj [(js "name", str "Math");
                                   (js "progress", VNum 75)])] |}).
  - vm_compute. reflexivity.
  - reflexivity.
Defined.

Section Questions.
Context `{Engine}.

Lemma newest_first_dated (a b : value) (ta tb : Z) :
  time_of a = Some ta → time_of b = Some tb →
  newest_first a b = Ret (Some (tb - ta)%Z).
Proof.
  unfold time_of, newest_first. intros Ha Hb.
  destruct (Get b _) as [cb|]; [|done]. cbn.
  destruct (new_Date cb) as [?|]; [|done]. cbn.
  destruct (Get a _) as [ca|]; [|done]. cbn.
  destruct (new_Date ca) as [?|]; [|done]. cbn.
  by simplify_eq.
Qed.

Lemma no_older_trans (a b c : value) : no_older a b → no_older b c → no_older a c.
Proof.
  intros (ta & tb & Ha & Hb & Hab) (tb' & tc & Hb' & Hc & Hbc).
  exists ta, tc. simplify_eq. repeat split; [done..|lia].
Qed.

Lemma sort_insert_dated (x : value) (l : list value) :
  dated x → Forall dated l → StronglySorted no_older l →
  ∃ l', sort_insert newest_first x l = Ret l'
        ∧ l' ≡ₚ x :: l ∧ StronglySorted no_older l'.
Proof.
  intros [tx Hx] Hl Hs. induction l as [|y r IH].
  - exists [x]. repeat split; [done|]. repeat constructor.
  - apply Forall_cons in Hl as [[ty Hy] Hr].
    apply StronglySorted_inv in Hs as [Hsr Hyr].
    cbn [sort_insert]. rewrite (newest_first_dated x y tx ty) by done.
    cbn [default from_option id].
    destruct (0 <? ty - tx)%Z eqn:Hcmp.
    + destruct (IH Hr Hsr) as (r' & -> & Hperm & Hsr').
      exists (y :: r'). split; [done|]. split.
      { rewrite Hperm. apply perm_swap. }
      constructor; [done|]. rewrite Hperm. constructor; [|done].
      exists ty, tx. repeat split; [done..|lia].
    + exists (x :: y :: r). split; [done|]. split; [done|].
      assert (Hxy : no_older x y) by (exists tx, ty; repeat split; [done..|lia]).
      constructor; [by constructor|]. constructor; [done|].
      eapply Forall_impl; [exact Hyr|]. intros z Hz. by eapply no_older_trans.
Qed.

Lemma sort_from_dated (l : list value) :
  Forall dated l →
  ∃ l', sort_from newest_first l = Ret l'
        ∧ l' ≡ₚ l ∧ StronglySorted no_older l'.
Proof.
  induction l as [|x r IH]; intros Hl.
  - exists []. repeat split; [done|constructor].
  - apply Forall_cons in Hl as [Hx Hr].
    destruct (IH Hr) as (r' & Hr' & Hperm & Hs). cbn [sort_from]. rewrite Hr'.
    destruct (sort_insert_dated x r') as (l' & Hl' & Hperm' & Hs');
      [done|by rewrite Hperm|done|].
    exists l'. split; [done|]. split; [|done]. by rewrite Hperm', Hperm.
Qed.

Lemma sorted_newest_to_oldest (l : list value) :
  StronglySorted no_older l → newest_to_oldest l.
Proof.
  induction 1 as [|x l Hs IH Hx]; intros i j a b Hij Hi Hj; [done|].
  destruct j as [|j]; [lia|]. cbn in Hj.
  destruct i as [|i]; cbn in Hi.
  - simplify_eq. rewrite Forall_forall in Hx.
    apply Hx. by eapply list_elem_of_lookup_2.
  - apply (IH i j); [lia|done..].
Qed.

Lemma dated_defined (l : list value) :
  Forall dated l →
  filter (fun v => negb (is_undefined v)) l = l
  ∧ filter (fun v => is_undefined v) l = [].
Proof.
  induction 1 as [|x l [t Hx] Hl [IH1 IH2]]; [done|].
  destruct x; try done; rewrite ?filter_cons; cbn; by rewrite ?IH1, ?IH2.
Qed.

Lemma created_at_time (q : value) (t : Z) : created_at q t → time_of q = Some t.
Proof.
  intros (s & Hs & Ht). unfold time_of.
  destruct q; try done. cbn [Get]. cbn [prop] in Hs. by rewrite Hs.
Qed.

(** C7. When every stored question record carries a createdAt text
    that Date.parse reads, listing without a course filter answers 200
    with all the stored records, each as often as it is stored, most
    recent first by those creation times: of two records of the answer
    the earlier one was not created before the later one. *)
Theorem questions_listed_newest_first (course : value) (w : World)
    (qs : list value) :
  truthy course = false →
  stored questions_json (VArr []) w = VArr qs →
  Forall (fun q => ∃ t, created_at q t) qs →
  ∃ sorted,
    list_questions course w =
      (Ret {| status := 200; body := VArr sorted |}, after_load questions_json w)
    ∧ sorted ≡ₚ qs
    ∧ by_creation_descending sorted.
Proof.
  intros Hcourse Hqs Hcreated.
  assert (Hdated : Forall dated qs).
  { eapply Forall_impl; [exact Hcreated|]. intros q [t Ht]. exists t.
    by apply created_at_time. }
  destruct (sort_from_dated qs Hdated) as (sorted & Hsort & Hperm & Hs).
  destruct (dated_defined qs Hdated) as [Hdef Hundef].
  exists sorted. split; [|split; [done|]].
  - unfold list_questions. rewrite bind_run, loadJson_run, Hqs, Hcourse.
    rewrite bind_run, lift_run, bind_run, lift_run.
    cbn [Array_sort]. rewrite Hdef, Hundef, Hsort. cbn.
    by rewrite app_nil_r.
  - intros i j a b ta tb Hij Ha Hb Hta Htb.
    destruct (sorted_newest_to_oldest sorted Hs i j a b Hij Ha Hb)
      as (ta' & tb' & Hta' & Htb' & Hle).
    apply created_at_time in Hta, Htb. by simplify_eq.
Qed.

End Questions.

(** ** The scenarios, run on the reference engine *)

(** A stored collection with an entry that is no record: the
    comparator reads [createdAt] of [null], which throws, and no record
    is returned. *)
Lemma questions_listing_null_entry :
  stored questions_json (VArr []) null_among_questions
    = VArr [question "first" "2024-01-01T10:00:00.000Z"; VNull]
  ∧ list_questions VUndef null_among_questions
    = (Throw TypeError, null_among_questions).
Proof. split; vm_compute; reflexivity. Qed.

(** Three questions stored out of order, with their creation times in
    milliseconds, and the answer. *)
Lemma questions_listed_newest_first_witness :
  stored questions_json (VArr []) asked
    = VArr [question "first" "2024-01-01T10:00:00.000Z";
            question "third" "2024-03-01T10:00:00.000Z";
            question "second" "2024-02-01T10:00:00.000Z"]
  ∧ created_at (question "first" "2024-01-01T10:00:00.000Z") 1704103200000
  ∧ created_at (question "second" "2024-02-01T10:00:00.000Z") 1706781600000
  ∧ created_at (question "third" "2024-03-01T10:00:00.000Z") 1709287200000
  ∧ list_questions VUndef asked =
      (Ret {| status := 200;
              body := VArr [question "third" "2024-03-01T10:00:00.000Z";
                            question "second" "2024-02-01T10:00:00.000Z";
                            question "first" "2024-01-01T10:00:00.000Z"] |},
       asked)
  ∧ by_creation_descending
      [question "third" "2024-03-01T10:00:00.000Z";
       question "second" "2024-02-01T10:00:00.000Z";
       question "first" "2024-01-01T10:00:00.000Z"].
Proof.
  assert (H1 : created_at (question "first" "2024-01-01T10:00:00.000Z") 1704103200000)
    by (exists (js "2024-01-01T10:00:00.000Z"); split; vm_compute; reflexivity).
  assert (H2 : created_at (question "second" "2024-02-01T10:00:00.000Z") 1706781600000)
    by (exists (js "2024-02-01T10:00:00.000Z"); split; vm_compute; reflexivity).
  assert (H3 : created_at (question "third" "2024-03-01T10:00:00.000Z") 1709287200000)
    by (exists (js "2024-03-01T10:00:00.000Z"); split; vm_compute; reflexivity).
  assert (Hst : stored questions_json (VArr []) asked = VArr three_questions)
    by (vm_compute; reflexivity).
  assert (Hc : list_questions VUndef asked =
      (Ret {| status := 200;
              body := VArr [question "third" "2024-03-01T10:00:00.000Z";
                            question "second" "2024-02-01T10:00:00.000Z";
                            question "first" "2024-01-01T10:00:00.000Z"] |},
       asked)) by (vm_compute; reflexivity).
  destruct (questions_listed_newest_first VUndef asked three_questions)
    as (sorted & Hrun & _ & Hord); [reflexivity|exact Hst| |].
  { repeat (constructor; [eexists; eassumption|]). constructor. }
  rewrite Hc in Hrun. apply (f_equal fst) in Hrun. cbn [fst] in Hrun.
  injection Hrun as <-.
  repeat (split; [assumption|]). exact Hord.
Defined.

(** Right after an accepted signup with A@X.com the login with a@x.com
    and the same password and role is answered 403. *)
Lemma login_after_signup_pending :
  signup (signup_body "A@X.com") 1700000000000 empty_world =
    (Ret {| status := 201;
            body := VObj [
              (js "message", str "Signup successful (pending approval)");
              (js "user", new_user (signup_body "A@X.com") 1700000000000)] |},
     ada_pending)
  ∧ login (login_body "a@x.com") ada_pending =
      (Ret {| status := 403; body := message "Account pending admin approval" |},
       ada_pending).
Proof. split; vm_compute; reflexivity. Defined.

Lemma login_after_signup_witness :
  login (login_body "a@x.com") ada_pending =
    (Ret {| status := 403; body := message "Account pending admin approval" |},
     ada_pending)
  ∧ ∃ r2 w2 user,
      patch_status (js "a@x.com") approve ada_pending = (Ret r2, w2)
      ∧ status r2 = 200
      ∧ login (login_body "a@x.com") w2 =
          (Ret {| status := 200;
                  body := VObj [(js "message", str "Login successful");
                                (js "user", login_user user)] |}, w2)
      ∧ prop user (js "email") = str "A@X.com"
      ∧ prop user (js "role") = VStr (js "student")
      ∧ prop user (js "status") = str "approved".
Proof.
  apply (login_after_signup (signup_body "A@X.com") (login_body "a@x.com")
           1700000000000 empty_world ada_pending
           {| status := 201;
              body := VObj [
                (js "message", str "Signup successful (pending approval)");
                (js "user", new_user (signup_body "A@X.com") 1700000000000)] |}
           (js "pw") (js "student")).
  - vm_compute. reflexivity.
  - reflexivity.
  - reflexivity.
  - reflexivity.
  - vm_compute. reflexivity.
  - reflexivity.
  - reflexivity.
  - reflexivity.
  - reflexivity.
Defined.

Lemma reachable_unique_emails_witness :
  unique_emails (users_of (approved "a@x.com" (signed_up "b@x.com" ada_pending))).
Proof.
  apply reachable_unique_emails.
  apply reach_status, reach_signup, reach_signup, reach_empty.
  vm_compute. reflexivity.
Defined.

Lemma login_response_fields_witness :
  ∃ us user,
    users_of ada_approved = VArr us ∧ user ∈ us
    ∧ credentials_match (field (login_body "a@x.com") (js "email"))
        (field (login_body "a@x.com") (js "password"))
        (field (login_body "a@x.com") (js "role")) user = Ret true
    ∧ VObj [(js "message", str "Login successful");
            (js "user", VObj [
               (js "name", str "Ada");
               (js "email", str "A@X.com");
               (js "role", str "student");
               (js "status", str "approved");
               (js "courseType", VNull)])]
      = VObj [
        (js "message", str "Login successful");
        (js "user", VObj [
           (js "name", prop user (js "name"));
           (js "email", prop user (js "email"));
           (js "role", prop user (js "role"));
           (js "status", prop user (js "status"));
           (js "courseType", prop user (js "courseType"))])].
Proof.
  apply (login_response_fields (login_body "a@x.com") ada_approved ada_approved
           {| status := 200;
              body := VObj [
                (js "message", str "Login successful");
                (js "user", VObj [
                   (js "name", str "Ada");
                   (js "email", str "A@X.com");
                   (js "role", str "student");
                   (js "status", str "approved");
                   (js "courseType", VNull)])] |}).
  - vm_compute. reflexivity.
  - reflexivity.
Defined.

(** * What a request does to the data directory *)

Lemma reads_respond (st : nat) (b : value) : reads (respond st b).
Proof. by intros w. Qed.

Lemma reads_lift {A : Type} (r : res A) : reads (lift r).
Proof. by intros w. Qed.

Lemma reads_loadJson (name : jsstring) (fallback : value) :
  reads (loadJson name fallback).
Proof. intros w. rewrite loadJson_run. apply after_load_files. Qed.

Lemma reads_bind {A B : Type} (m : M A) (k : A → M B) :
  reads m → (∀ a, reads (k a)) → reads (m ≫= k).
Proof.
  intros Hm Hk w. rewrite bind_run. specialize (Hm w).
  destruct (m w) as [[a|e] w1]; [|done]. cbn in Hm. by rewrite Hk.
Qed.

Lemma reads_writes (name : jsstring) (st : nat) (m : M reply) :
  reads m → writes name st m.
Proof. intros Hm w. by left. Qed.

Lemma writes_bind {A : Type} (name : jsstring) (st : nat) (m : M A)
    (k : A → M reply) :
  reads m → (∀ a, writes name st (k a)) → writes name st (m ≫= k).
Proof.
  intros Hm Hk w. rewrite bind_run. specialize (Hm w).
  destruct (m w) as [[a|e] w1]; [|by left]. cbn in Hm.
  destruct (Hk a w1) as [Hsame|(v & r & Hv & Hfiles & Hr)].
  - left. by rewrite Hsame.
  - right. exists v, r. by rewrite Hfiles, Hm.
Qed.

Lemma writes_save (name : jsstring) (st : nat) (v b : value) :
  writes name st (saveJson name v ;; respond st b).
Proof.
  intros w. change (saveJson name v ;; respond st b)
    with (saveJson name v ≫= fun _ => respond st b).
  rewrite bind_run.
  assert (Hv : v = VUndef ∨ v ≠ VUndef) by (destruct v; auto).
  destruct Hv as [->|Hv]; [by left|].
  rewrite saveJson_spec by done. right.
  exists v, {| status := st; body := b |}. by rewrite respond_run.
Qed.

Ltac store_effect :=
  repeat first
    [ apply writes_save
    | apply reads_respond
    | apply reads_lift
    | apply reads_loadJson
    | apply reads_bind; [|intros ?]
    | apply writes_bind; [|intros ?]
    | match goal with
      | |- reads (if ?b then _ else _) => destruct b
      | |- reads (match ?x with _ => _ end) => destruct x
      | |- writes _ _ (if ?b then _ else _) => destruct b
      | |- writes _ _ (match ?x with _ => _ end) => destruct x
      | |- reads (let x := _ in _) => cbv zeta
      | |- writes _ _ (let x := _ in _) => cbv zeta
      | |- writes _ _ (respond _ _) => apply reads_writes
      end ].

Section StoreEffects.
Context `{Engine}.

Lemma list_by_course_reads (name : jsstring) (course : value) :
  reads (list_by_course name course).
Proof. unfold list_by_course. store_effect. Qed.

Lemma handle_effect (q : request) :
  match written q with
  | Some st => writes (document q) st (handle q)
  | None => reads (handle q)
  end.
Proof.
  destruct q; cbn [written handle document].
  - unfold signup. store_effect.
  - unfold login. store_effect.
  - unfold list_users. store_effect.
  - unfold patch_status. store_effect.
  - unfold dashboard. store_effect.
  - unfold add_course. store_effect.
  - unfold patch_course. store_effect.
  - unfold post_project_log. store_effect.
  - apply list_by_course_reads.
  - unfold post_video. store_effect.
  - apply list_by_course_reads.
  - unfold post_test. store_effect.
  - unfold submit_result. store_effect.
  - apply list_by_course_reads.
  - unfold post_question. store_effect.
  - unfold list_questions. store_effect.
Qed.

End StoreEffects.

Section StoreTheorems.
Context `{Engine}.

(** X1. Login, the listings and the dashboard never write: whatever the
    request and the store, every document is afterwards what it was. *)
Theorem read_requests_never_write (q : request) (w : World) :
  written q = None → files (snd (handle q w)) = files w.
Proof.
  intros Hq. pose proof (handle_effect q) as Heff. rewrite Hq in Heff. apply Heff.
Qed.

(** X2. A writing route that answers with another status than its
    success status (201, or 200 for the two updates), that is with one
    of its 4xx refusals, has written nothing: every document is as it
    was. *)
Theorem refused_request_writes_nothing (q : request) (st : nat) (w w' : World)
    (r : reply) :
  written q = Some st →
  handle q w = (Ret r, w') →
  status r ≠ st →
  files w' = files w.
Proof.
  intros Hq Hrun Hst. pose proof (handle_effect q) as Heff. rewrite Hq in Heff.
  destruct (Heff w) as [Hsame|(v & r' & _ & _ & Hr & Hr')].
  - by rewrite Hrun in Hsame.
  - rewrite Hrun in Hr. cbn in Hr. by simplify_eq.
Qed.

(** X3. A request changes no document but the one of its collection. *)
Theorem request_writes_own_document (q : request) (w : World) (n : jsstring) :
  n ≠ document q → files (snd (handle q w)) !! n = files w !! n.
Proof.
  intros Hn. pose proof (handle_effect q) as Heff.
  destruct (written q) as [st|]; [|by rewrite Heff].
  destruct (Heff w) as [->|(v & r & _ & -> & _)]; [done|].
  by rewrite lookup_insert_ne.
Qed.

(** X4. What a route of the table writes is JSON text: a document
    that a request has changed is the document of its collection, and
    its new content is the text [JSON.stringify(v, null, 2)] of a value
    [v] other than [undefined], which [JSON.parse] reads.  The write
    itself is taken to complete. *)
Theorem written_document_is_json (q : request) (w : World) (n raw : jsstring) :
  files (snd (handle q w)) !! n = Some raw →
  files w !! n ≠ Some raw →
  n = document q
  ∧ ∃ v, v ≠ VUndef ∧ raw = ser 0 v ∧ JSON_parse raw = Some (json_image v).
Proof.
  intros Hnew Hold. pose proof (handle_effect q) as Heff.
  destruct (written q) as [st|]; [|by rewrite Heff in Hnew].
  destruct (Heff w) as [Hsame|(v & r & Hv & Hfiles & _)];
    [by rewrite Hsame in Hnew|].
  rewrite Hfiles in Hnew.
  destruct (decide (n = document q)) as [->|Hn].
  - rewrite lookup_insert_eq in Hnew. injection Hnew as <-.
    split; [done|]. exists v. split; [done|]. split; [done|].
    apply JSON_parse_stringify. by destruct v.
  - by rewrite lookup_insert_ne in Hnew.
Qed.

(** X5. A users document that is not JSON is lost at the next accepted
    signup: the signup is checked against the empty collection, and the
    document is overwritten with the new user alone. *)
Theorem signup_replaces_corrupt_document (b : value) (t : Z) (raw : jsstring)
    (w : World) :
  files w !! users_json = Some raw → JSON_parse raw = None →
  signup_incomplete b = false →
  ∃ w', signup b t w =
          (Ret {| status := 201;
                  body := VObj [
                    (js "message", str "Signup successful (pending approval)");
                    (js "user", new_user b t)] |}, w')
        ∧ users_of w' = VArr [json_image (new_user b t)].
Proof.
  intros Hraw Hparse Hb.
  assert (Hus : users_of w = VArr []).
  { unfold users_of, stored. by rewrite Hraw, Hparse. }
  exists (put users_json (ser 0 (VArr [new_user b t])) (after_load users_json w)).
  split.
  - rewrite signup_run, Hb, Hus. reflexivity.
  - rewrite (users_of_put (VArr [new_user b t])) by discriminate.
    apply json_image_arr.
Qed.

End StoreTheorems.

Lemma read_requests_never_write_witness :
  files (snd (handle (Dashboard (js "b@x.com")) math_student)) = files math_student.
Proof. by apply read_requests_never_write. Defined.

Lemma refused_request_writes_nothing_witness :
  fst (handle (Signup (signup_body "B@X.com") 1700000060000)
         (signed_up "b@x.com" empty_world))
  = Ret {| status := 409; body := message "Email already registered" |}
  ∧ files (snd (handle (Signup (signup_body "B@X.com") 1700000060000)
                  (signed_up "b@x.com" empty_world)))
    = files (signed_up "b@x.com" empty_world).
Proof.
  assert (Hrun : handle (Signup (signup_body "B@X.com") 1700000060000)
                   (signed_up "b@x.com" empty_world)
                 = (Ret {| status := 409;
                           body := message "Email already registered" |},
                    signed_up "b@x.com" empty_world))
    by (vm_compute; reflexivity).
  split; [by rewrite Hrun|].
  apply (refused_request_writes_nothing
           (Signup (signup_body "B@X.com") 1700000060000) 201
           (signed_up "b@x.com" empty_world) _
           {| status := 409; body := message "Email already registered" |}).
  - reflexivity.
  - by rewrite Hrun.
  - cbn. lia.
Defined.

Lemma request_writes_own_document_witness :
  files (snd (handle (PostVideo (video_body "CS101" "Intro") 1700000000000)
                math_student)) !! users_json
  = files math_student !! users_json.
Proof.
  apply request_writes_own_document.
  intros Heq. vm_compute in Heq. discriminate.
Defined.

Lemma written_document_is_json_witness :
  ∃ raw v,
    files (snd (handle (Signup (signup_body "b@x.com") 1700000000000) empty_world))
      !! users_json = Some raw
    ∧ raw = ser 0 v ∧ JSON_parse raw = Some (json_image v).
Proof.
  destruct (files (snd (handle (Signup (signup_body "b@x.com") 1700000000000)
                          empty_world)) !! users_json) as [raw|] eqn:Hraw.
  - destruct (written_document_is_json
                (Signup (signup_body "b@x.com") 1700000000000) empty_world
                users_json raw Hraw) as (_ & v & _ & Hv & Hparse).
    { cbn. rewrite lookup_empty. discriminate. }
    exists raw, v. done.
  - vm_compute in Hraw. discriminate.
Defined.

Lemma signup_replaces_corrupt_document_witness :
  ∃ w', signup (signup_body "b@x.com") 1700000000000 corrupt_world =
          (Ret {| status := 201;
                  body := VObj [
                    (js "message", str "Signup successful (pending approval)");
                    (js "user", new_user (signup_body "b@x.com") 1700000000000)] |},
           w')
        ∧ users_of w' = VArr [json_image (new_user (signup_body "b@x.com") 1700000000000)].
Proof.
  apply (signup_replaces_corrupt_document _ _ (js "not valid json")).
  - reflexivity.
  - vm_compute. reflexivity.
  - reflexivity.
Defined.

(** * Listings *)

Lemma Get_prop (x : value) (k : jsstring) :
  x ≠ VUndef → x ≠ VNull → Get x k = Ret (prop x k).
Proof. by destruct x. Qed.

Lemma filter_from_by_course (course : value) (l : list value) :
  Forall parsed l → Forall (fun x => x ≠ VNull) l →
  filter_from (by_course course) l = Ret (List.filter (has_course course) l).
Proof.
  induction l as [|x l IH]; intros Hp Hn; [done|].
  apply Forall_cons in Hp as [Hx Hp]. apply Forall_cons in Hn as [Hnx Hn].
  cbn [filter_from List.filter]. unfold by_course at 1.
  rewrite Get_prop by (done || by apply parsed_not_undef). cbn.
  rewrite IH by done. done.
Qed.

Lemma filter_from_null (course : value) (l : list value) :
  VNull ∈ l → filter_from (by_course course) l = Throw TypeError.
Proof.
  induction l as [|x l IH]; [by intros ?%elem_of_nil|].
  intros [<-|Hl]%elem_of_cons; [done|].
  cbn [filter_from]. rewrite IH by done.
  by destruct (by_course course x) as [b|[]].
Qed.

Lemma stored_parsed_list (name : jsstring) (w : World) (l : list value) :
  stored name (VArr []) w = VArr l → Forall parsed l.
Proof.
  intros Hl. apply parsed_arr. rewrite <- Hl. by apply stored_parsed.
Qed.

Lemma list_by_course_run (name : jsstring) (course : value) (w : World) :
  list_by_course name course w =
    if truthy course
    then
      match Array_filter (by_course course) (stored name (VArr []) w) with
      | Ret l => (Ret {| status := 200; body := l |}, after_load name w)
      | Throw e => (Throw e, after_load name w)
      end
    else (Ret {| status := 200; body := stored name (VArr []) w |},
          after_load name w).
Proof.
  unfold list_by_course. rewrite bind_run, loadJson_run.
  destruct (truthy course); [|done].
  rewrite bind_run, lift_run. by destruct (Array_filter _ _).
Qed.

(** X6. A listing with a course filter (videos, tests, results) answers
    200 with exactly the stored records whose course is the requested
    one, in the order of the document, none of the stored entries being
    [null]. *)
Theorem listing_by_course (name : jsstring) (course : value) (w : World)
    (items : list value) :
  truthy course = true →
  stored name (VArr []) w = VArr items →
  Forall (fun x => x ≠ VNull) items →
  list_by_course name course w =
    (Ret {| status := 200;
            body := VArr (List.filter (has_course course) items) |},
     after_load name w).
Proof.
  intros Hc Hitems Hn. rewrite list_by_course_run, Hc, Hitems.
  cbn [Array_filter]. rewrite filter_from_by_course; [done| |done].
  by apply (stored_parsed_list name w).
Qed.

(** X7. One [null] entry in the document makes every filtered listing
    fail with an exception, while the listing without a filter still
    answers 200 with the document as it is. *)
Theorem listing_with_null_entry (name : jsstring) (course : value) (w : World)
    (items : list value) :
  stored name (VArr []) w = VArr items → VNull ∈ items →
  list_by_course name course w =
    if truthy course
    then (Throw TypeError, after_load name w)
    else (Ret {| status := 200; body := VArr items |}, after_load name w).
Proof.
  intros Hitems Hnull. rewrite list_by_course_run, Hitems.
  destruct (truthy course); [|done].
  cbn [Array_filter]. by rewrite filter_from_null.
Qed.

Lemma listing_by_course_witness :
  list_videos (str "CS101") video_shelf =
    (Ret {| status := 200;
            body := VArr [video "v_1" "CS101" "Intro"; video "v_3" "CS101" "Loops"] |},
     video_shelf).
Proof.
  apply (listing_by_course courseVideos_json (str "CS101") video_shelf three_videos).
  - reflexivity.
  - vm_compute. reflexivity.
  - repeat constructor; discriminate.
Defined.

Lemma listing_with_null_entry_witness :
  list_videos (str "CS101") holed_shelf = (Throw TypeError, holed_shelf).
Proof.
  apply (listing_with_null_entry courseVideos_json (str "CS101") holed_shelf
           [video "v_1" "CS101" "Intro"; VNull]).
  - vm_compute. reflexivity.
  - apply elem_of_cons. right. apply elem_of_cons. by left.
Defined.

(** * The users collection under every request *)

Section UsersSteps.
Context `{Engine}.

Lemma with_projectLog_obj (o : list (jsstring * value)) :
  with_projectLog (VObj o) = Ret (VObj (obj_set o (js "projectLog") (log_list o))).
Proof. reflexivity. Qed.

(** The project-log route once the student is located. *)
Lemma post_project_log_at (e : jsstring) (b : value) (lt : jsstring) (w : World)
    (l1 l2 : list value) (o : list (jsstring * value)) (log : list value) :
  users_of w = VArr (l1 ++ VObj o :: l2) →
  rejects (has_email (toLowerCase e)) l1 →
  has_email (toLowerCase e) (VObj o) = Ret true →
  log_list o = VArr log →
  truthy (field b (js "text")) = true →
  post_project_log e b lt w =
    (Ret {| status := 201;
            body := VObj [(js "message", str "Project update added");
                          (js "log",
                           VArr (log_entry (field b (js "text")) lt :: log))] |},
     put users_json
       (ser 0 (VArr (l1 ++ VObj (obj_set o (js "projectLog")
                                   (VArr (log_entry (field b (js "text")) lt :: log)))
                       :: l2)))
       (after_load users_json w)).
Proof.
  intros Hus Hrej Hhit Hlog Htext. unfold post_project_log. rewrite Htext.
  cbn [negb].
  rewrite bind_run, loadJson_run. fold (users_of w). rewrite Hus.
  rewrite bind_run, lift_run. cbn [Array_findIndex].
  rewrite findIndex_from_hit by done. cbn [Nat.add Array_get].
  rewrite lookup_middle. cbn [default from_option id].
  rewrite bind_run, lift_run, with_projectLog_obj, Hlog.
  rewrite bind_run, lift_run. cbn [Get]. rewrite lookup_obj_set.
  rewrite bool_decide_eq_true_2 by done. cbn [default from_option id].
  rewrite bind_run, lift_run. cbn [Array_unshift].
  rewrite bind_run, lift_run. cbn [Set_prop]. rewrite obj_set_twice.
  cbn [Array_set]. rewrite insert_middle. reflexivity.
Qed.

Lemma post_project_log_locates (e : jsstring) (b : value) (lt : jsstring)
    (w w' : World) (r : reply) :
  post_project_log e b lt w = (Ret r, w') → status r = 201 →
  ∃ l1 o l2 log,
    users_of w = VArr (l1 ++ VObj o :: l2)
    ∧ rejects (has_email (toLowerCase e)) l1
    ∧ has_email (toLowerCase e) (VObj o) = Ret true
    ∧ log_list o = VArr log
    ∧ truthy (field b (js "text")) = true.
Proof.
  unfold post_project_log. intros Hrun Hst.
  destruct (truthy (field b (js "text"))) eqn:Htext; cbn [negb] in Hrun;
    [|answered].
  rewrite bind_run, loadJson_run in Hrun. fold (users_of w) in Hrun.
  rewrite bind_run, lift_run in Hrun.
  destruct (Array_findIndex _ _) as [[i|]|err] eqn:Hidx; [|answered|done].
  destruct (locate_student _ _ _ Hidx) as (l1 & o & l2 & Hus & -> & Hrej & Hhit).
  rewrite Hus in Hrun. cbn [Array_get] in Hrun. rewrite lookup_middle in Hrun.
  cbn [default from_option id] in Hrun.
  rewrite bind_run, lift_run, with_projectLog_obj in Hrun.
  rewrite bind_run, lift_run in Hrun. cbn [Get] in Hrun.
  rewrite lookup_obj_set, bool_decide_eq_true_2 in Hrun by done.
  cbn [default from_option id] in Hrun.
  rewrite bind_run, lift_run in Hrun.
  destruct (log_list o) as [| | | | |log|] eqn:Hlog; try done.
  by exists l1, o, l2, log.
Qed.

Lemma patch_status_valid (e : jsstring) (b : value) (w w' : World) (r : reply) :
  patch_status e b w = (Ret r, w') → status r = 200 →
  valid_status (field b (js "status")) = true.
Proof.
  rewrite patch_status_run. intros Hrun Hst.
  destruct (valid_status _); [done|]. cbn in Hrun. by simplify_eq.
Qed.

Lemma users_of_files (w w' : World) :
  files w' !! users_json = files w !! users_json → users_of w' = users_of w.
Proof. intros Hf. unfold users_of, stored. by rewrite Hf. Qed.

Lemma handle_frame (q : request) (w : World) (n : jsstring) :
  n ≠ document q → files (snd (handle q w)) !! n = files w !! n.
Proof.
  intros Hn. pose proof (handle_effect q) as Heff.
  destruct (written q) as [st|]; [|by rewrite Heff].
  destruct (Heff w) as [->|(v & r & _ & -> & _)]; [done|].
  by rewrite lookup_insert_ne.
Qed.

(** A request leaves the users collection as it reads it, or writes
    back the result of one step. *)
Lemma handle_users (q : request) (w : World) :
  users_of (snd (handle q w)) = users_of w
  ∨ ∃ us us', users_of w = VArr us ∧ users_step us us'
              ∧ users_of (snd (handle q w)) = VArr (map json_image us').
Proof.
  assert (Hcase : files (snd (handle q w)) = files w
                  ∨ ∃ r st, written q = Some st ∧ fst (handle q w) = Ret r
                            ∧ status r = st).
  { pose proof (handle_effect q) as Heff.
    destruct (written q) as [st|]; [|left; apply Heff].
    destruct (Heff w) as [Hsame|(_ & r & _ & _ & Hr & Hst)]; [by left|].
    right. by exists r, st. }
  destruct Hcase as [Hsame|(r & st & Hq & Hr & Hst)];
    [left; apply users_of_files; by rewrite Hsame|].
  destruct q as [b t|b| |e b|e|e b|e b|e b lt|c|b t|c|b t|b t|c|b t t'|c];
    cbn [written] in Hq; try discriminate; injection Hq as <-;
    try (left; apply users_of_files; by apply handle_frame).
  all: cbn [handle] in *.
  all: match goal with
       | Hr : fst ?run = Ret _ |- _ =>
         destruct run as [x w'] eqn:Hrun; cbn [fst snd] in *; subst x
       end.
  - (* signup *)
    destruct (signup_accepted _ _ _ _ _ Hrun Hst)
      as (Hb & us & Hus & Hrej & -> & _).
    right. exists us, (us ++ [new_user b t]). split; [done|].
    split; [by constructor|].
    by rewrite (users_of_put (VArr (us ++ [new_user b t]))).
  - (* status *)
    pose proof (patch_status_valid _ _ _ _ _ Hrun Hst) as Hvalid.
    destruct (patch_status_accepted _ _ _ _ _ Hrun Hst)
      as (l1 & o & l2 & s & Hus & _ & _ & Hs & _ & ->).
    rewrite Hs in Hvalid.
    right. exists (l1 ++ VObj o :: l2), (l1 ++ VObj (obj_set o (js "status") (VStr s)) :: l2).
    split; [done|]. split; [by econstructor|].
    by rewrite (users_of_put (VArr (l1 ++ _ :: l2))).
  - (* add course *)
    destruct (add_course_accepted _ _ _ _ _ Hrun Hst)
      as (l1 & o & l2 & cs & (Hus & _ & _ & Hcs) & Hname & Hfind & ->).
    right. exists (l1 ++ VObj o :: l2),
      (l1 ++ set_courses o (cs ++ [new_course (field b (js "name"))]) :: l2).
    split; [done|]. split; [by econstructor|].
    by rewrite (users_of_put (VArr (l1 ++ _ :: l2))).
  - (* progress *)
    destruct (patch_course_accepted _ _ _ _ _ Hrun Hst)
      as (l1 & o & l2 & c1 & c & c2 & x & (Hus & _ & _ & Hcs) & _ & _ & _ & _ & _ & ->).
    right. exists (l1 ++ VObj o :: l2),
      (l1 ++ set_courses o (c1 ++ VObj (obj_set c (js "progress") (VNum x)) :: c2) :: l2).
    split; [done|]. split; [by econstructor|].
    by rewrite (users_of_put (VArr (l1 ++ _ :: l2))).
  - (* project log *)
    destruct (post_project_log_locates _ _ _ _ _ _ Hrun Hst)
      as (l1 & o & l2 & log & Hus & Hrej & Hhit & Hlog & Htext).
    rewrite (post_project_log_at e b lt w l1 l2 o log) in Hrun by done.
    apply (f_equal snd) in Hrun. cbn [snd] in Hrun. subst w'.
    right. exists (l1 ++ VObj o :: l2),
      (l1 ++ VObj (obj_set o (js "projectLog")
                     (VArr (log_entry (field b (js "text")) lt :: log))) :: l2).
    split; [done|]. split; [by econstructor|].
    by rewrite (users_of_put (VArr (l1 ++ _ :: l2))).
Qed.

End UsersSteps.

Section Invariants.
Context `{Engine}.

Lemma serve_snoc (qs : list request) (q : request) (w : World) :
  serve (qs ++ [q]) w = snd (handle q (serve qs w)).
Proof. unfold serve. by rewrite foldl_app. Qed.

(** A property of the users collection that every step keeps holds
    after every sequence of requests. *)
Lemma serve_users_invariant (P : list value → Prop) (qs : list request) (w : World) :
  (∀ us us', P us → Forall parsed us → users_step us us' →
             P (map json_image us')) →
  (∃ us, users_of w = VArr us ∧ P us) →
  ∃ us, users_of (serve qs w) = VArr us ∧ P us.
Proof.
  intros Hstep Hw. induction qs as [|q qs IH] using rev_ind; [done|].
  rewrite serve_snoc. destruct IH as (us & Hus & HP).
  destruct (handle_users q (serve qs w))
    as [->|(us0 & us' & Hus0 & Hs & ->)]; [by exists us|].
  rewrite Hus in Hus0. injection Hus0 as <-.
  exists (map json_image us'). split; [done|].
  apply (Hstep us); [done| |done]. by eapply users_of_parsed_list.
Qed.

Lemma prop_image_plain (o : list (jsstring * value)) (k : jsstring) :
  plain o →
  prop (json_image (VObj o)) k = from_option json_image VUndef (lookup_prop o k).
Proof.
  intros Ho. rewrite json_image_plain by done. cbn [prop].
  rewrite lookup_image_prop. by destruct (lookup_prop o k).
Qed.

(** Setting one property leaves the others as the document gives them
    back. *)
Lemma prop_set_image (o : list (jsstring * value)) (k k' : jsstring) (v : value) :
  plain o → v ≠ VUndef → k ≠ k' →
  prop (json_image (VObj (obj_set o k v))) k' = prop (json_image (VObj o)) k'.
Proof.
  intros Ho Hv Hk. rewrite !prop_image_plain by (done || by apply plain_set).
  by rewrite lookup_obj_set, bool_decide_eq_false_2.
Qed.

Lemma prop_set_image_same (o : list (jsstring * value)) (k : jsstring) (v : value) :
  plain o → v ≠ VUndef →
  prop (json_image (VObj (obj_set o k v))) k = json_image v.
Proof.
  intros Ho Hv. rewrite prop_image_plain by by apply plain_set.
  by rewrite lookup_obj_set, bool_decide_eq_true_2.
Qed.

Lemma email_of_prop (u : value) :
  email_of u = match prop u (js "email") with VStr e => Some e | _ => None end.
Proof.
  destruct u as [| | | | | |o]; try done. cbn [email_of prop].
  by destruct (lookup_prop o (js "email")) as [[]|].
Qed.

Lemma email_of_set_image (o : list (jsstring * value)) (k : jsstring) (v : value) :
  parsed (VObj o) → v ≠ VUndef → k ≠ js "email" →
  email_of (json_image (VObj (obj_set o k v))) = email_of (VObj o).
Proof.
  intros Ho Hv Hk. rewrite <- (email_of_image (VObj o)) by done.
  rewrite !email_of_prop. by rewrite prop_set_image by (done || by apply parsed_plain).
Qed.

(** The steps that replace one property of one record keep every
    email where it is. *)
Lemma emails_set_image (l1 l2 : list value) (o : list (jsstring * value))
    (k : jsstring) (v : value) :
  Forall parsed (l1 ++ VObj o :: l2) → v ≠ VUndef → k ≠ js "email" →
  map email_of (map json_image (l1 ++ VObj (obj_set o k v) :: l2))
  = map email_of (l1 ++ VObj o :: l2).
Proof.
  intros Hp Hv Hk.
  apply Forall_app in Hp as [Hp1 Hp2]. apply Forall_cons in Hp2 as [Hpo Hp2].
  rewrite !map_app. cbn [map]. rewrite !emails_image by done.
  by rewrite email_of_set_image.
Qed.

Lemma step_keeps_emails (us us' : list value) :
  distinct_emails us → Forall parsed us → users_step us us' →
  distinct_emails (map json_image us').
Proof.
  intros Hd Hp Hs. destruct Hs as [b t Hb Hrej|l1 l2 o s ->|l1 l2 o cs name ->
                                  |l1 l2 o c1 c2 c x ->|l1 l2 o log text lt ->].
  - rewrite map_app. apply distinct_emails_snoc.
    + eapply distinct_emails_same; [|exact Hd]. by apply emails_image.
    + intros e He. apply others_image; [done|]. by eapply new_user_others.
  - eapply distinct_emails_same; [|exact Hd]. by apply emails_set_image.
  - eapply distinct_emails_same; [|exact Hd]. by apply emails_set_image.
  - eapply distinct_emails_same; [|exact Hd]. by apply emails_set_image.
  - eapply distinct_emails_same; [|exact Hd]. by apply emails_set_image.
Qed.

(** X8. Case-insensitive uniqueness of emails survives every request of
    the API, the course and project-log routes included: after any
    sequence of requests on a store whose users collection is empty, no
    two user records have emails that are equal up to case. *)
Theorem served_emails_unique (qs : list request) (w : World) :
  users_of w = VArr [] → unique_emails (users_of (serve qs w)).
Proof.
  intros Hw.
  destruct (serve_users_invariant distinct_emails qs w) as (us & Hus & Hd).
  - apply step_keeps_emails.
  - exists []. split; [done|]. intros i j ui uj ei ej _ Hi. done.
  - by exists us.
Qed.

End Invariants.

Lemma served_emails_unique_witness :
  unique_emails (users_of (serve busy_day empty_world)).
Proof. apply served_emails_unique. reflexivity. Defined.

Section StatusInvariant.
Context `{Engine}.

Lemma status_known_object (u : value) : status_known u → is_object u = true.
Proof. intros (s & Hs & _). by destruct u. Qed.

Lemma status_known_image (u : value) :
  parsed u → status_known u → status_known (json_image u).
Proof.
  intros Hp Hu. pose proof (status_known_object u Hu) as Hobj.
  destruct Hu as (s & Hs & Hv). exists s. split; [|done].
  rewrite prop_image by done. by rewrite Hs.
Qed.

Lemma statuses_image (us : list value) :
  Forall parsed us → Forall status_known us →
  Forall status_known (map json_image us).
Proof.
  intros Hp Hs. apply Forall_map. rewrite Forall_forall in *.
  intros u Hu. apply status_known_image; auto.
Qed.

Lemma status_known_set (o : list (jsstring * value)) (k : jsstring) (v : value) :
  parsed (VObj o) → v ≠ VUndef → k ≠ js "status" →
  status_known (VObj o) → status_known (json_image (VObj (obj_set o k v))).
Proof.
  intros Hp Hv Hk Hu. apply (status_known_image _ Hp) in Hu.
  destruct Hu as (s & Hs & Hvalid). exists s. split; [|done].
  by rewrite prop_set_image by (done || by apply parsed_plain).
Qed.

Lemma statuses_set (l1 l2 : list value) (o : list (jsstring * value))
    (k : jsstring) (v : value) :
  Forall parsed (l1 ++ VObj o :: l2) → v ≠ VUndef → k ≠ js "status" →
  Forall status_known (l1 ++ VObj o :: l2) →
  Forall status_known (map json_image (l1 ++ VObj (obj_set o k v) :: l2)).
Proof.
  intros Hp Hv Hk Hs.
  apply Forall_app in Hp as [Hp1 Hp2]. apply Forall_cons in Hp2 as [Hpo Hp2].
  apply Forall_app in Hs as [Hs1 Hs2]. apply Forall_cons in Hs2 as [Hso Hs2].
  rewrite map_app, map_cons. apply Forall_app. split; [by apply statuses_image|].
  constructor; [by apply status_known_set|by apply statuses_image].
Qed.

Lemma step_keeps_statuses (us us' : list value) :
  Forall status_known us → Forall parsed us → users_step us us' →
  Forall status_known (map json_image us').
Proof.
  intros Hs Hp Hstep.
  destruct Hstep as [b t Hb Hrej|l1 l2 o s -> Hvalid|l1 l2 o cs name ->
                    |l1 l2 o c1 c2 c x ->|l1 l2 o log text lt ->].
  - rewrite map_app. apply Forall_app. split; [by apply statuses_image|].
    constructor; [|constructor].
    destruct (new_user_image b t Hb) as (o & -> & _ & _ & _ & _ & _ & Hst).
    exists (js "pending"). split; [|by vm_compute].
    cbn [prop]. by rewrite Hst.
  - apply Forall_app in Hp as [Hp1 Hp2]. apply Forall_cons in Hp2 as [Hpo Hp2].
    apply Forall_app in Hs as [Hs1 Hs2]. apply Forall_cons in Hs2 as [_ Hs2].
    rewrite map_app, map_cons. apply Forall_app. split; [by apply statuses_image|].
    constructor; [|by apply statuses_image].
    exists s. split; [|done].
    by rewrite prop_set_image_same by (done || by apply parsed_plain).
  - by apply statuses_set.
  - by apply statuses_set.
  - by apply statuses_set.
Qed.

(** A successful login, in full: the user found and what the route
    checked of its status. *)
Lemma login_accepted (l : value) (w w' : World) (r : reply) :
  login l w = (Ret r, w') → status r = 200 →
  ∃ us user,
    users_of w = VArr us ∧ user ∈ us
    ∧ strict_eq (prop user (js "status")) (str "pending") = false
    ∧ strict_eq (prop user (js "status")) (str "rejected") = false
    ∧ body r = VObj [(js "message", str "Login successful");
                     (js "user", login_user user)].
Proof.
  rewrite login_run. intros Hrun Hst.
  destruct (_ || _); [answered|].
  destruct (Array_find _ _) as [user|] eqn:Hfind; [|done].
  destruct (truthy user) eqn:Huser; cbn [negb] in Hrun; [|answered].
  destruct (users_of w) as [| | | | |us|]; try done. cbn [Array_find] in Hfind.
  apply find_from_inv in Hfind as [[-> _]|(l1 & l2 & -> & _ & _)]; [done|].
  rewrite Get_prop in Hrun by by destruct user.
  destruct (strict_eq _ (str "pending")) eqn:Hpending; [answered|].
  destruct (strict_eq _ (str "rejected")) eqn:Hrejected; [answered|].
  exists (l1 ++ user :: l2), user. split; [done|].
  split; [apply elem_of_app; right; apply elem_of_cons; by left|].
  repeat split; [done..|]. by simplify_eq.
Qed.

(** X9. Only approved accounts log in: in a store grown from an empty
    users collection by any requests, every successful login (200)
    returns a user whose status is approved. *)
Theorem login_needs_approval (qs : list request) (l : value) (w w' : World)
    (r : reply) :
  users_of w = VArr [] →
  login l (serve qs w) = (Ret r, w') → status r = 200 →
  prop (prop (body r) (js "user")) (js "status") = str "approved".
Proof.
  intros Hw Hrun Hst.
  destruct (serve_users_invariant (Forall status_known) qs w) as (us & Hus & Hs).
  { apply step_keeps_statuses. }
  { exists []. by split. }
  destruct (login_accepted _ _ _ _ Hrun Hst)
    as (us' & user & Hus' & Huser & Hpending & Hrejected & ->).
  rewrite Hus in Hus'. injection Hus' as <-.
  rewrite Forall_forall in Hs. destruct (Hs user Huser) as (s & Hprop & Hvalid).
  cbn -[js]. change (prop (login_user user) (js "status")) with (prop user (js "status")).
  rewrite Hprop in *. unfold valid_status, includes in Hvalid.
  cbn [existsb strict_eq] in Hvalid. unfold str in *. cbn [strict_eq] in *.
  repeat case_bool_decide; simplify_eq; done.
Qed.

End StatusInvariant.

Lemma login_needs_approval_witness :
  prop (prop (VObj [(js "message", str "Login successful");
                    (js "user", VObj [
                       (js "name", str "Ada");
                       (js "email", str "b@x.com");
                       (js "role", str "student");
                       (js "status", str "approved");
                       (js "courseType", VNull)])]) (js "user")) (js "status")
  = str "approved".
Proof.
  apply (login_needs_approval (firstn 5 busy_day) (login_body "b@x.com")
           empty_world (serve (firstn 5 busy_day) empty_world)
           {| status := 200;
              body := VObj [(js "message", str "Login successful");
                            (js "user", VObj [
                               (js "name", str "Ada");
                               (js "email", str "b@x.com");
                               (js "role", str "student");
                               (js "status", str "approved");
                               (js "courseType", VNull)])] |}).
  - reflexivity.
  - vm_compute. reflexivity.
  - reflexivity.
Defined.

Section CourseInvariant.
Context `{Engine}.

Lemma courses_of_or (x : value) :
  match js_or x (VArr []) with VArr cs => cs | _ => [] end
  = match x with VArr cs => cs | _ => [] end.
Proof. unfold js_or. destruct x as [| |[]|x|[]|l|o]; try done. by destruct (truthy _). Qed.

Lemma courses_of_image (u : value) :
  parsed u → courses_of (json_image u) = map json_image (courses_of u).
Proof.
  intros Hu. unfold courses_of. rewrite !courses_of_or.
  destruct (is_object u) eqn:Hobj.
  - rewrite prop_image by done.
    destruct (prop u (js "courses")) as [| |b|x|s|l|o] eqn:Hx; try done.
    all: try (change (json_image (VNum x)) with (reread x); unfold reread;
              destruct (PrimFloat.is_finite x); [destruct (json_number _)|]; done).
    all: try by rewrite json_image_obj.
  - assert (Hobj' : is_object (json_image u) = false) by by rewrite json_image_object.
    destruct u; try done. by destruct (json_image _).
Qed.

Lemma name_of_image (c : value) : parsed c → name_of (json_image c) = name_of c.
Proof.
  intros Hc. unfold name_of. destruct (is_object c) eqn:Hobj.
  - rewrite prop_image by done.
    destruct (prop c (js "name")) as [| |b|x|s|l|o] eqn:Hx; try done.
    all: try (change (json_image (VNum x)) with (reread x); unfold reread;
              destruct (PrimFloat.is_finite x); [destruct (json_number _)|]; done).
    all: try by rewrite json_image_obj.
  - assert (Hobj' : is_object (json_image c) = false) by by rewrite json_image_object.
    destruct c; try done. by destruct (json_image _).
Qed.

Lemma omap_cons {A B : Type} (f : A → option B) (x : A) (l : list A) :
  omap f (x :: l) = match f x with Some y => y :: omap f l | None => omap f l end.
Proof. reflexivity. Qed.

Lemma names_image (cs : list value) :
  Forall parsed cs → omap name_of (map json_image cs) = omap name_of cs.
Proof.
  induction 1 as [|c cs Hc _ IH]; [done|].
  cbn [map]. rewrite !omap_cons, name_of_image, IH; done.
Qed.

Lemma tidy_image (cs : list value) :
  Forall parsed cs → tidy_courses cs → tidy_courses (map json_image cs).
Proof.
  intros Hp [Ho Hn]. split; [by apply images_objects|by rewrite names_image].
Qed.

Lemma courses_parsed (u : value) : parsed u → Forall parsed (courses_of u).
Proof.
  intros Hu. unfold courses_of. rewrite courses_of_or.
  destruct u as [| | | | | |o]; try by constructor. cbn [prop].
  destruct (lookup_prop o (js "courses")) as [x|] eqn:Hx; [|by constructor].
  apply (parsed_lookup _ _ _ Hu) in Hx. cbn.
  destruct x; try by constructor. by apply parsed_arr.
Qed.

Lemma tidy_user_image (u : value) :
  parsed u → tidy_courses (courses_of u) → tidy_courses (courses_of (json_image u)).
Proof.
  intros Hu Ht. rewrite courses_of_image by done.
  apply tidy_image; [by apply courses_parsed|done].
Qed.

Lemma tidy_users_image (us : list value) :
  Forall parsed us → Forall (fun u => tidy_courses (courses_of u)) us →
  Forall (fun u => tidy_courses (courses_of u)) (map json_image us).
Proof.
  intros Hp Ht. apply Forall_map. rewrite Forall_forall in *.
  intros u Hu. apply tidy_user_image; auto.
Qed.

Lemma courses_of_set_other (o : list (jsstring * value)) (k : jsstring) (v : value) :
  parsed (VObj o) → v ≠ VUndef → k ≠ js "courses" →
  courses_of (json_image (VObj (obj_set o k v))) = courses_of (json_image (VObj o)).
Proof.
  intros Ho Hv Hk. unfold courses_of.
  by rewrite prop_set_image by (done || by apply parsed_plain).
Qed.

Lemma courses_of_set (o : list (jsstring * value)) (cs : list value) :
  parsed (VObj o) →
  courses_of (json_image (set_courses o cs)) = map json_image cs.
Proof.
  intros Ho. unfold courses_of, set_courses.
  by rewrite prop_set_image_same by (done || by apply parsed_plain).
Qed.

Lemma course_list_courses (o : list (jsstring * value)) (cs : list value) :
  course_list o = VArr cs → courses_of (VObj o) = cs.
Proof. unfold courses_of, course_list. cbn [prop]. by intros ->. Qed.

Lemma tidy_set (l1 l2 : list value) (o : list (jsstring * value)) (u' : value) :
  Forall parsed (l1 ++ VObj o :: l2) →
  Forall (fun u => tidy_courses (courses_of u)) (l1 ++ VObj o :: l2) →
  tidy_courses (courses_of (json_image u')) →
  Forall (fun u => tidy_courses (courses_of u)) (map json_image (l1 ++ u' :: l2)).
Proof.
  intros Hp Ht Hu'.
  apply Forall_app in Hp as [Hp1 Hp2]. apply Forall_cons in Hp2 as [Hpo Hp2].
  apply Forall_app in Ht as [Ht1 Ht2]. apply Forall_cons in Ht2 as [Hto Ht2].
  rewrite map_app, map_cons. apply Forall_app. split; [by apply tidy_users_image|].
  constructor; [done|by apply tidy_users_image].
Qed.

Lemma rejects_name (n : jsstring) (cs : list value) :
  rejects (named (VStr n)) cs → n ∉ omap name_of cs.
Proof.
  induction 1 as [|c cs Hc _ IH]; [by intros ?%elem_of_nil|].
  rewrite omap_cons. destruct (name_of c) as [m|] eqn:Hm; [|done].
  intros [->|?]%elem_of_cons; [|done].
  unfold name_of in Hm. destruct c as [| |b|x|s|l|o]; try done.
  cbn [prop] in Hm. cbn -[js] in Hc.
  destruct (default VUndef (lookup_prop o (js "name"))) as [| | | |s| |];
    try done.
  injection Hm as ->. cbn in Hc. by rewrite bool_decide_eq_true_2 in Hc.
Qed.

Lemma step_keeps_courses (us us' : list value) :
  Forall (fun u => tidy_courses (courses_of u)) us → Forall parsed us →
  users_step us us' →
  Forall (fun u => tidy_courses (courses_of u)) (map json_image us').
Proof.
  intros Ht Hp Hstep.
  destruct Hstep as [b t Hb Hrej|l1 l2 o s -> Hvalid
                    |l1 l2 o cs name -> Hcs Hname Hfind
                    |l1 l2 o c1 c2 c x -> Hcs|l1 l2 o log text lt -> Hlog].
  - rewrite map_app. apply Forall_app. split; [by apply tidy_users_image|].
    constructor; [|constructor].
    destruct (new_user_plain b t Hb) as (o & Ho & Hplain & _).
    assert (Hc : lookup_prop o (js "courses") = Some (VArr [])).
    { unfold new_user in Ho. injection Ho as <-. by vm_compute. }
    rewrite Ho. unfold courses_of. rewrite prop_image_plain, Hc by done.
    split; [constructor|]. cbn. constructor.
  - pose proof Hp as Hp'. apply Forall_app in Hp' as [_ [Hpo _]%Forall_cons].
    pose proof Ht as Ht'. apply Forall_app in Ht' as [_ [Hto _]%Forall_cons].
    apply (tidy_set l1 l2 o); [done..|].
    rewrite courses_of_set_other by done. by apply tidy_user_image.
  - pose proof Hp as Hp'. apply Forall_app in Hp' as [_ [Hpo _]%Forall_cons].
    pose proof Ht as Ht'. apply Forall_app in Ht' as [_ [Hto _]%Forall_cons].
    apply (tidy_set l1 l2 o); [done..|].
    rewrite courses_of_set by done.
    rewrite (course_list_courses _ _ Hcs) in Hto. destruct Hto as [Hobj Hnd].
    pose proof (courses_parsed _ Hpo) as Hpcs.
    rewrite (course_list_courses _ _ Hcs) in Hpcs.
    rewrite map_app. split.
    + apply Forall_app. split; [by apply images_objects|].
      constructor; [|constructor]. unfold new_course. by rewrite json_image_object.
    + rewrite omap_app, names_image by done.
      assert (Hnew : omap name_of (map json_image [new_course name])
                     = match name with VStr n => [n] | _ => [] end).
      { cbn [map]. rewrite omap_cons.
        assert (Hn : name_of (json_image (new_course name))
                     = match name with VStr n => Some n | _ => None end).
        { unfold name_of, new_course. rewrite prop_image_plain.
          - cbn -[js json_image]. rewrite bool_decide_eq_true_2 by done.
            cbn -[js json_image].
            destruct name as [| |b|x|s|l|o']; try done.
            all: try (change (json_image (VNum x)) with (reread x); unfold reread;
                      destruct (PrimFloat.is_finite x); [destruct (json_number _)|];
                      done).
            all: try by rewrite json_image_obj.
          - split; [apply (bool_decide_unpack _); by vm_compute|].
            repeat constructor; cbn; [by apply truthy_not_undef|done]. }
        rewrite Hn. by destruct name. }
      rewrite Hnew. destruct name as [| |b|x|n|l|o']; rewrite ?app_nil_r; try done.
      apply NoDup_app. split; [done|]. split; [|apply NoDup_singleton].
      intros m Hm [->|?%elem_of_nil]%elem_of_cons; [|done].
      revert Hm. apply rejects_name. by apply find_from_none.
  - pose proof Hp as Hp'. apply Forall_app in Hp' as [_ [Hpo _]%Forall_cons].
    pose proof Ht as Ht'. apply Forall_app in Ht' as [_ [Hto _]%Forall_cons].
    apply (tidy_set l1 l2 o); [done..|].
    rewrite courses_of_set by done.
    rewrite (course_list_courses _ _ Hcs) in Hto. destruct Hto as [Hobj Hnd].
    pose proof (courses_parsed _ Hpo) as Hpcs.
    rewrite (course_list_courses _ _ Hcs) in Hpcs.
    apply Forall_app in Hpcs as [Hp1 [Hpc Hp2]%Forall_cons].
    apply Forall_app in Hobj as [Ho1 [_ Ho2]%Forall_cons].
    rewrite map_app, map_cons. split.
    + apply Forall_app. split; [by apply images_objects|].
      constructor; [by rewrite json_image_object|by apply images_objects].
    + rewrite omap_app, omap_cons in Hnd.
      rewrite omap_app, omap_cons, !names_image by done.
      assert (Hsame : name_of (json_image (VObj (obj_set c (js "progress") (VNum x))))
                      = name_of (VObj c)).
      { rewrite <- (name_of_image (VObj c)) by done. unfold name_of.
        by rewrite prop_set_image by (done || by apply parsed_plain). }
      by rewrite Hsame.
  - pose proof Hp as Hp'. apply Forall_app in Hp' as [_ [Hpo _]%Forall_cons].
    pose proof Ht as Ht'. apply Forall_app in Ht' as [_ [Hto _]%Forall_cons].
    apply (tidy_set l1 l2 o); [done..|].
    rewrite courses_of_set_other by done. by apply tidy_user_image.
Qed.

Lemma served_courses_tidy (qs : list request) (w : World) :
  users_of w = VArr [] →
  ∃ us, users_of (serve qs w) = VArr us
        ∧ Forall (fun u => tidy_courses (courses_of u)) us.
Proof.
  intros Hw. apply serve_users_invariant.
  - apply step_keeps_courses.
  - exists []. by split.
Qed.

End CourseInvariant.

Section CourseTheorems.
Context `{Engine}.

Lemma student_member (e : jsstring) (w : World) (u : value) :
  student e w = Some u → ∃ us, users_of w = VArr us ∧ u ∈ us.
Proof.
  unfold student.
  destruct (Array_findIndex _ _) as [[i|]|] eqn:Hidx; [|done..].
  destruct (locate_student _ _ _ Hidx) as (l1 & o & l2 & Hus & -> & _ & _).
  rewrite Hus. cbn [Array_get]. rewrite lookup_middle. intros [= <-].
  exists (l1 ++ VObj o :: l2). split; [done|].
  apply elem_of_app. right. apply elem_of_cons. by left.
Qed.

Lemma served_student_tidy (qs : list request) (w : World) (e : jsstring) :
  users_of w = VArr [] → tidy_courses (student_courses e (serve qs w)).
Proof.
  intros Hw. unfold student_courses.
  destruct (student e (serve qs w)) as [u|] eqn:Hu; [|split; constructor].
  destruct (student_member _ _ _ Hu) as (us & Hus & Hin).
  destruct (served_courses_tidy qs w Hw) as (us' & Hus' & Ht).
  rewrite Hus in Hus'. injection Hus' as <-.
  rewrite Forall_forall in Ht. by apply Ht.
Qed.

(** X10. In a store grown from an empty users collection by any
    requests, every course entry of every student is a record: what the
    course routes scan never makes them throw. *)
Theorem served_course_entries_are_records (qs : list request) (w : World)
    (e : jsstring) :
  users_of w = VArr [] →
  Forall (fun c => is_object c = true) (student_courses e (serve qs w)).
Proof. intros Hw. by apply served_student_tidy. Qed.

(** X11. In such a store no student has two course entries with the
    same string name: the add route refuses the second. *)
Theorem served_course_names_unique (qs : list request) (w : World) (e : jsstring) :
  users_of w = VArr [] →
  NoDup (omap name_of (student_courses e (serve qs w))).
Proof. intros Hw. by apply served_student_tidy. Qed.

End CourseTheorems.

Lemma served_course_entries_are_records_witness :
  Forall (fun c => is_object c = true)
    (student_courses (js "b@x.com") (serve course_rush empty_world)).
Proof. apply served_course_entries_are_records. reflexivity. Defined.

Lemma served_course_names_unique_witness :
  NoDup (omap name_of (student_courses (js "b@x.com") (serve course_rush empty_world))).
Proof. apply served_course_names_unique. reflexivity. Defined.

(** * Questions *)

Section QuestionsServed.
Context `{Engine}.









End QuestionsServed.


(** * The four collections that only grow *)

Section Appends.
Context `{Engine}.

(** What the four routes do with the record: the collection has to be
    an array, the record goes last, the answer is 201. *)
Lemma append_run (q : request) (name : jsstring) (item : value) (w : World) :
  appended q = Some (name, item) →
  ∃ b,
    handle q w =
      match stored name (VArr []) w with
      | VArr items =>
        (Ret {| status := 201; body := b |},
         put name (ser 0 (VArr (items ++ [item]))) (after_load name w))
      | _ => (Throw TypeError, after_load name w)
      end.
Proof.
  destruct q as [b0 t|b0| |e b0|e|e b0|e b0|e b0 lt|c|b0 t|c|b0 t|b0 t|c|b0 t t'|c];
    try done; cbn [appended handle].
  - unfold post_video. destruct (_ || _); [done|]. intros [= <- <-].
    eexists. rewrite bind_run, loadJson_run. cbv zeta. rewrite bind_run, lift_run.
    destruct (stored _ _ w) as [| | | | |items|]; try done.
  - unfold post_test. destruct (test_incomplete _); [done|]. intros [= <- <-].
    eexists. rewrite bind_run, loadJson_run. cbv zeta. rewrite bind_run, lift_run.
    destruct (stored _ _ w) as [| | | | |items|]; try done.
  - unfold submit_result. destruct (result_incomplete _); [done|].
    destruct (ToNumber (field b0 (js "score"))) as [score|] eqn:Hs; [|done].
    destruct (ToNumber (field b0 (js "total"))) as [total|] eqn:Ht; [|done].
    intros [= <- <-].
    eexists. rewrite bind_run, loadJson_run.
    rewrite bind_run, lift_run, bind_run, lift_run. cbv zeta.
    rewrite bind_run, lift_run.
    destruct (stored _ _ w) as [| | | | |items|]; try done.
  - unfold post_question. destruct (question_incomplete _); [done|].
    intros [= <- <-].
    eexists. rewrite bind_run, loadJson_run. cbv zeta. rewrite bind_run, lift_run.
    destruct (stored _ _ w) as [| | | | |items|]; try done.
Qed.

Lemma appended_document (q : request) (name : jsstring) (item : value) :
  appended q = Some (name, item) →
  name = document q ∧ written q = Some 201 ∧ is_object item = true.
Proof.
  destruct q as [b0 t|b0| |e b0|e|e b0|e b0|e b0 lt|c|b0 t|c|b0 t|b0 t|c|b0 t t'|c];
    try done; cbn [appended].
  - destruct (_ || _); [done|]. by intros [= <- <-].
  - destruct (test_incomplete _); [done|]. by intros [= <- <-].
  - destruct (result_incomplete _); [done|].
    destruct (ToNumber _); [|done]. destruct (ToNumber _); [|done].
    by intros [= <- <-].
  - destruct (question_incomplete _); [done|]. by intros [= <- <-].
Qed.

(** Without such a record the four routes write nothing. *)
Lemma not_appended (q : request) (w : World) :
  appended q = None → document q ≠ users_json →
  files (snd (handle q w)) = files w.
Proof.
  intros Hq Hdoc. pose proof (handle_effect q) as Heff.
  destruct q as [b0 t|b0| |e b0|e|e b0|e b0|e b0 lt|c|b0 t|c|b0 t|b0 t|c|b0 t t'|c];
    try done; try apply Heff; cbn [appended handle] in *.
  - unfold post_video. destruct (_ || _); [done|discriminate].
  - unfold post_test. destruct (test_incomplete _); [done|discriminate].
  - unfold submit_result. destruct (result_incomplete _); [done|].
    rewrite bind_run, loadJson_run.
    rewrite bind_run, lift_run.
    destruct (ToNumber (field b0 (js "score"))) as [score|];
      [|apply after_load_files].
    rewrite bind_run, lift_run.
    destruct (ToNumber (field b0 (js "total"))) as [total|];
      [done|apply after_load_files].
  - unfold post_question. destruct (question_incomplete _); [done|discriminate].
Qed.

(** A request leaves a collection other than the users as it reads it,
    or appends one record to it. *)
Lemma handle_collection (q : request) (name : jsstring) (w : World) :
  name ≠ users_json →
  stored name (VArr []) (snd (handle q w)) = stored name (VArr []) w
  ∨ ∃ item items,
      appended q = Some (name, item)
      ∧ stored name (VArr []) w = VArr items
      ∧ stored name (VArr []) (snd (handle q w))
        = VArr (map json_image (items ++ [item])).
Proof.
  intros Hname.
  destruct (decide (name = document q)) as [->|Hdoc];
    [|left; unfold stored; by rewrite handle_frame].
  destruct (appended q) as [[name' item]|] eqn:Hq.
  - destruct (appended_document _ _ _ Hq) as (-> & _ & _).
    destruct (append_run q _ item w Hq) as [b ->].
    destruct (stored (document q) (VArr []) w) as [| | | | |items|] eqn:Hitems;
      try (left; cbn [snd]; by rewrite stored_after_load).
    right. exists item, items. repeat split. cbn [snd].
    by rewrite (stored_put (document q) (VArr (items ++ [item]))).
  - left. unfold stored. by rewrite not_appended.
Qed.

End Appends.

Section Collections.
Context `{Engine}.

Lemma step_keeps_records (us us' : list value) :
  Forall (fun u => is_object u = true) us → Forall parsed us →
  users_step us us' →
  Forall (fun u => is_object u = true) (map json_image us').
Proof.
  intros Ho _ Hstep. apply images_objects.
  destruct Hstep as [b t Hb Hrej|l1 l2 o s ->|l1 l2 o cs name ->
                    |l1 l2 o c1 c2 c x ->|l1 l2 o log text lt ->].
  - apply Forall_app. split; [done|]. by repeat constructor.
  - apply Forall_app in Ho as [Ho1 [_ Ho2]%Forall_cons].
    apply Forall_app. split; [done|]. by constructor.
  - apply Forall_app in Ho as [Ho1 [_ Ho2]%Forall_cons].
    apply Forall_app. split; [done|]. by constructor.
  - apply Forall_app in Ho as [Ho1 [_ Ho2]%Forall_cons].
    apply Forall_app. split; [done|]. by constructor.
  - apply Forall_app in Ho as [Ho1 [_ Ho2]%Forall_cons].
    apply Forall_app. split; [done|]. by constructor.
Qed.

Lemma served_records (qs : list request) (name : jsstring) (w : World) :
  stored name (VArr []) w = VArr [] →
  ∃ items, stored name (VArr []) (serve qs w) = VArr items
           ∧ Forall (fun x => is_object x = true) items.
Proof.
  intros Hw. destruct (decide (name = users_json)) as [->|Hname].
  { apply (serve_users_invariant (Forall (fun x => is_object x = true))).
    - apply step_keeps_records.
    - exists []. by split. }
  induction qs as [|q qs IH] using rev_ind; [exists []; by split|].
  destruct IH as (items & Hitems & Ho). rewrite serve_snoc.
  destruct (handle_collection q name (serve qs w) Hname)
    as [->|(item & items' & Hq & Hitems' & ->)]; [by exists items|].
  rewrite Hitems in Hitems'. injection Hitems' as <-.
  eexists. split; [reflexivity|]. apply images_objects.
  apply Forall_app. split; [done|]. constructor; [|constructor].
  by destruct (appended_document _ _ _ Hq) as (_ & _ & ?).
Qed.

(** X13. The API stores records only: after any sequence of requests,
    a collection that was empty is an array whose entries are all
    objects, never [null] or a primitive. *)
Theorem served_collections_hold_records (qs : list request) (name : jsstring)
    (w : World) :
  stored name (VArr []) w = VArr [] →
  ∃ items, stored name (VArr []) (serve qs w) = VArr items
           ∧ Forall (fun x => is_object x = true) items.
Proof. apply served_records. Qed.

Lemma records_not_null (items : list value) :
  Forall (fun x => is_object x = true) items → Forall (fun x => x ≠ VNull) items.
Proof. intros Ho. eapply Forall_impl; [exact Ho|]. by intros x Hx ->. Qed.

(** X14. On a store grown by the API a listing never fails: with a
    course filter it answers 200 with exactly the stored records of that
    course in the order they were added, without one with all of them. *)
Theorem served_listings_answer (qs : list request) (name : jsstring)
    (course : value) (w : World) :
  stored name (VArr []) w = VArr [] →
  ∃ items,
    stored name (VArr []) (serve qs w) = VArr items
    ∧ list_by_course name course (serve qs w) =
        (Ret {| status := 200;
                body := VArr (if truthy course
                              then List.filter (has_course course) items
                              else items) |},
         after_load name (serve qs w)).
Proof.
  intros Hw. destruct (served_records qs name w Hw) as (items & Hitems & Ho).
  exists items. split; [done|]. rewrite list_by_course_run, Hitems.
  destruct (truthy course); [|done].
  cbn [Array_filter]. rewrite filter_from_by_course; [done| |].
  - by apply (stored_parsed_list name (serve qs w)).
  - by apply records_not_null.
Qed.

Lemma has_course_image (c : jsstring) (x : value) :
  parsed x → is_object x = true →
  has_course (VStr c) (json_image x) = has_course (VStr c) x.
Proof.
  intros Hx Hobj. unfold has_course. rewrite prop_image by done.
  destruct (prop x (js "course")) eqn:Hp; try done; apply strict_eq_str_image.
Qed.

Lemma filter_images (c : jsstring) (items : list value) :
  Forall parsed items → Forall (fun x => is_object x = true) items →
  List.filter (has_course (VStr c)) (map json_image items)
  = map json_image (List.filter (has_course (VStr c)) items).
Proof.
  intros Hp Ho. induction items as [|x items IH]; [done|].
  apply Forall_cons in Hp as [Hx Hp]. apply Forall_cons in Ho as [Hox Ho].
  cbn [map List.filter]. rewrite has_course_image, IH by done.
  by destruct (has_course (VStr c) x).
Qed.

Lemma new_video_course (b : value) (t : Z) (c : jsstring) :
  appended (PostVideo b t) = Some (courseVideos_json, new_video b t) →
  field b (js "course") = VStr c →
  has_course (VStr c) (json_image (new_video b t)) = true.
Proof.
  cbn [appended]. destruct (_ || _) eqn:Hb; [done|]. intros _ Hc.
  repeat (apply orb_false_iff in Hb as [Hb ?]).
  repeat match goal with
         | H : negb (truthy _) = false |- _ =>
           apply negb_false_iff, truthy_not_undef in H
         end.
  unfold has_course, new_video, stamped.
  generalize (NumberToString (time_Number t)). intros id.
  rewrite prop_image_plain.
  - cbn -[js json_image]. rewrite Hc.
    rewrite (bool_decide_eq_false_2 (js "id" = js "course")) by by vm_compute.
    rewrite (bool_decide_eq_true_2 (js "course" = js "course")) by done.
    cbn. by rewrite bool_decide_eq_true_2.
  - split; [cbn [map fst]; apply (bool_decide_unpack _); by vm_compute|].
    repeat constructor; cbn [snd]; try done.
    all: unfold js_or; destruct (truthy _) eqn:Ht; [by apply truthy_not_undef|done].
Qed.

(** X15. A posted video shows up at the end of its course: on a store
    grown by the API, after an accepted POST /api/videos for the course
    [c] the listing of [c] is what it was before, followed by the new
    record. *)
Theorem posted_video_is_listed (qs : list request) (b : value) (t : Z)
    (c : jsstring) (w w' : World) (r : reply) :
  stored courseVideos_json (VArr []) w = VArr [] →
  post_video b t (serve qs w) = (Ret r, w') → status r = 201 →
  field b (js "course") = VStr c →
  ∃ before,
    list_videos (VStr c) (serve qs w) =
      (Ret {| status := 200; body := VArr before |},
       after_load courseVideos_json (serve qs w))
    ∧ list_videos (VStr c) w' =
        (Ret {| status := 200;
                body := VArr (map json_image before ++ [json_image (new_video b t)]) |},
         w').
Proof.
  intros Hw Hrun Hst Hc.
  destruct (served_records qs courseVideos_json w Hw) as (items & Hitems & Ho).
  pose proof (stored_parsed_list _ _ _ Hitems) as Hp.
  assert (Hq : appended (PostVideo b t) = Some (courseVideos_json, new_video b t)).
  { cbn [appended]. destruct (_ || _) eqn:Hb; [|done].
    unfold post_video in Hrun. rewrite Hb in Hrun. answered. }
  destruct (append_run _ _ _ (serve qs w) Hq) as [b' Hrun'].
  cbn [handle] in Hrun'. rewrite Hrun', Hitems in Hrun.
  apply (f_equal snd) in Hrun. cbn [snd] in Hrun. subst w'.
  assert (Htruthy : truthy (VStr c) = true).
  { cbn [appended] in Hq. rewrite Hc in Hq. by destruct c. }
  exists (List.filter (has_course (VStr c)) items).
  unfold list_videos. split.
  - rewrite list_by_course_run, Hitems, Htruthy. cbn [Array_filter].
    rewrite filter_from_by_course; [done..|]. by apply records_not_null.
  - rewrite list_by_course_run.
    rewrite (stored_put courseVideos_json (VArr (items ++ [new_video b t])))
      by done.
    rewrite (after_load_put courseVideos_json (VArr (items ++ [new_video b t])))
      by done.
    rewrite json_image_arr, map_app.
    rewrite Htruthy. cbn [Array_filter map].
    rewrite filter_from_by_course.
    + rewrite List.filter_app, filter_images by done.
      cbn [List.filter]. by rewrite (new_video_course b t c).
    + apply Forall_app. split; [apply images_parsed|].
      constructor; [apply json_image_parsed|constructor].
    + apply Forall_app. split.
      * apply records_not_null. by apply images_objects.
      * constructor; [|constructor]. intros Hnull.
        pose proof (json_image_object (new_video b t)) as Hobj.
        by rewrite Hnull in Hobj.
Qed.

End Collections.

Lemma served_collections_hold_records_witness :
  ∃ items, stored questions_json (VArr []) (serve question_hour empty_world) = VArr items
           ∧ Forall (fun x => is_object x = true) items.
Proof. apply served_collections_hold_records. reflexivity. Defined.

Lemma served_listings_answer_witness :
  ∃ items,
    stored courseVideos_json (VArr []) (serve video_day empty_world) = VArr items
    ∧ list_by_course courseVideos_json (str "CS101") (serve video_day empty_world) =
        (Ret {| status := 200;
                body := VArr (if truthy (str "CS101")
                              then List.filter (has_course (str "CS101")) items
                              else items) |},
         after_load courseVideos_json (serve video_day empty_world)).
Proof. apply served_listings_answer. reflexivity. Defined.

Lemma posted_video_is_listed_witness :
  ∃ before,
    list_videos (str "CS101") (serve video_day empty_world) =
      (Ret {| status := 200; body := VArr before |},
       after_load courseVideos_json (serve video_day empty_world))
    ∧ list_videos (str "CS101")
        (snd (post_video (video_body "CS101" "Loops") 1700000300000
                (serve video_day empty_world))) =
        (Ret {| status := 200;
                body := VArr (map json_image before
                              ++ [json_image (new_video (video_body "CS101" "Loops")
                                                1700000300000)]) |},
         snd (post_video (video_body "CS101" "Loops") 1700000300000
                (serve video_day empty_world))).
Proof.
  apply (posted_video_is_listed video_day (video_body "CS101" "Loops")
           1700000300000 (js "CS101") empty_world _
           {| status := 201;
              body := VObj [(js "message", str "Video added");
                            (js "video", new_video (video_body "CS101" "Loops")
                                           1700000300000)] |}).
  - reflexivity.
  - vm_compute. reflexivity.
  - reflexivity.
  - reflexivity.
Defined.

(** * The dashboard *)

Section Dashboard.
Context `{Engine}.

(** The dashboard once the student is located. *)
Lemma dashboard_at (e : jsstring) (w : World) (l1 l2 : list value)
    (o : list (jsstring * value)) :
  users_of w = VArr (l1 ++ VObj o :: l2) →
  rejects (has_email (toLowerCase e)) l1 →
  has_email (toLowerCase e) (VObj o) = Ret true →
  dashboard e w =
    (Ret {| status := 200;
            body := VObj [(js "courses", course_list o);
                          (js "projectLog", log_list o)] |},
     after_load users_json w).
Proof.
  intros Hus Hrej Hhit. unfold dashboard.
  rewrite bind_run, loadJson_run. fold (users_of w). rewrite Hus.
  rewrite bind_run, lift_run. cbn [Array_find].
  rewrite find_from_hit by done. reflexivity.
Qed.

(** The student found again after one of its properties was replaced
    and the collection written. *)
Lemma student_saved (e : jsstring) (w w0 : World) (l1 l2 : list value)
    (o : list (jsstring * value)) (k : jsstring) (v : value) :
  users_of w = VArr (l1 ++ VObj o :: l2) →
  rejects (has_email e) l1 →
  has_email e (VObj o) = Ret true →
  v ≠ VUndef → k ≠ js "email" →
  users_of (put users_json (ser 0 (VArr (l1 ++ VObj (obj_set o k v) :: l2))) w0)
  = VArr (map json_image l1 ++ VObj (map image_prop (obj_set o k v))
            :: map json_image l2)
  ∧ rejects (has_email e) (map json_image l1)
  ∧ has_email e (VObj (map image_prop (obj_set o k v))) = Ret true.
Proof.
  intros Hus Hrej Hhit Hv Hk.
  pose proof (users_of_parsed_list _ _ Hus) as Hp.
  apply Forall_app in Hp as [Hp1 Hp2]. apply Forall_cons in Hp2 as [Hpo Hp2].
  assert (Hpl : plain (obj_set o k v)).
  { apply plain_set; [by apply parsed_plain|done]. }
  split.
  { rewrite (users_of_put (VArr (l1 ++ VObj (obj_set o k v) :: l2))) by done.
    rewrite json_image_arr, map_app, map_cons. by rewrite json_image_plain. }
  split; [by apply rejects_has_email_image|].
  rewrite has_email_spec in *. unfold email_of in *.
  rewrite lookup_image_prop, lookup_obj_set, bool_decide_eq_false_2 by done.
  destruct (lookup_prop o (js "email")) as [[| | | |s| |]|]; done.
Qed.

Lemma course_list_set (o : list (jsstring * value)) (cs : list value) :
  course_list (map image_prop (obj_set o (js "courses") (VArr cs)))
  = VArr (map json_image cs).
Proof.
  unfold course_list.
  by rewrite lookup_image_prop, lookup_obj_set, bool_decide_eq_true_2.
Qed.

Lemma log_list_set (o : list (jsstring * value)) (log : list value) :
  log_list (map image_prop (obj_set o (js "projectLog") (VArr log)))
  = VArr (map json_image log).
Proof.
  unfold log_list.
  by rewrite lookup_image_prop, lookup_obj_set, bool_decide_eq_true_2.
Qed.

(** X16. An added course shows up on the dashboard: after an accepted
    POST of a course, the dashboard of the student lists the courses it
    listed before, followed by the new one with progress 0. *)
Theorem added_course_on_dashboard (e : jsstring) (b : value) (w w' : World)
    (r : reply) :
  add_course e b w = (Ret r, w') → status r = 201 →
  ∃ cs r0 r1,
    dashboard e w = (Ret r0, after_load users_json w)
    ∧ status r0 = 200 ∧ prop (body r0) (js "courses") = VArr cs
    ∧ dashboard e w' = (Ret r1, w')
    ∧ status r1 = 200
    ∧ prop (body r1) (js "courses")
      = VArr (map json_image cs
              ++ [VObj [(js "name", json_image (field b (js "name")));
                        (js "progress", VNum 0)]]).
Proof.
  intros Hrun Hst.
  destruct (add_course_accepted _ _ _ _ _ Hrun Hst)
    as (l1 & o & l2 & cs & (Hus & Hrej & Hhit & Hcs) & Hname & _ & ->).
  unfold set_courses.
  destruct (student_saved (toLowerCase e) w (after_load users_json w) l1 l2 o
              (js "courses") (VArr (cs ++ [new_course (field b (js "name"))])))
    as (Hus' & Hrej' & Hhit'); [done..|].
  exists cs. eexists. eexists.
  split; [exact (dashboard_at e w l1 l2 o Hus Hrej Hhit)|]. split; [done|].
  split; [cbn -[js]; by rewrite Hcs|].
  split.
  { rewrite (dashboard_at e _ _ _ _ Hus' Hrej' Hhit').
    by rewrite (after_load_put users_json (VArr (l1 ++ _ :: l2))). }
  split; [done|]. cbn [body]. cbn -[js course_list json_image].
  rewrite course_list_set, map_app. cbn [map].
  assert (Hnew : json_image (new_course (field b (js "name")))
                 = VObj [(js "name", json_image (field b (js "name")));
                         (js "progress", VNum 0)]).
  { unfold new_course. rewrite json_image_plain.
    - cbn [map]. unfold image_prop. cbn [fst snd].
      change (json_image (VNum 0)) with (reread 0). by rewrite reread_zero.
    - split; [apply (bool_decide_unpack _); by vm_compute|].
      repeat constructor; cbn; [by apply truthy_not_undef|done]. }
  by rewrite Hnew.
Qed.

(** X17. The project log is kept newest first: after an accepted
    project update the dashboard of the student shows the new entry,
    with its text and the time text of the server, in front of the
    entries it showed before. *)
Theorem project_log_newest_first (e : jsstring) (b : value) (lt : jsstring)
    (w w' : World) (r : reply) :
  post_project_log e b lt w = (Ret r, w') → status r = 201 →
  ∃ log r0 r1,
    dashboard e w = (Ret r0, after_load users_json w)
    ∧ status r0 = 200 ∧ prop (body r0) (js "projectLog") = VArr log
    ∧ dashboard e w' = (Ret r1, w')
    ∧ status r1 = 200
    ∧ prop (body r1) (js "projectLog")
      = VArr (VObj [(js "text", json_image (field b (js "text")));
                    (js "time", VStr lt)]
              :: map json_image log).
Proof.
  intros Hrun Hst.
  destruct (post_project_log_locates _ _ _ _ _ _ Hrun Hst)
    as (l1 & o & l2 & log & Hus & Hrej & Hhit & Hlog & Htext).
  rewrite (post_project_log_at e b lt w l1 l2 o log) in Hrun by done.
  apply (f_equal snd) in Hrun. cbn [snd] in Hrun. subst w'.
  destruct (student_saved (toLowerCase e) w (after_load users_json w) l1 l2 o
              (js "projectLog") (VArr (log_entry (field b (js "text")) lt :: log)))
    as (Hus' & Hrej' & Hhit'); [done..|].
  exists log. eexists. eexists.
  split; [exact (dashboard_at e w l1 l2 o Hus Hrej Hhit)|]. split; [done|].
  split; [cbn -[js]; by rewrite Hlog|].
  split.
  { rewrite (dashboard_at e _ _ _ _ Hus' Hrej' Hhit').
    by rewrite (after_load_put users_json (VArr (l1 ++ _ :: l2))). }
  split; [done|]. cbn [body]. cbn -[js log_list course_list json_image].
  rewrite log_list_set. cbn [map].
  assert (Hnew : json_image (log_entry (field b (js "text")) lt)
                 = VObj [(js "text", json_image (field b (js "text")));
                         (js "time", VStr lt)]).
  { unfold log_entry. rewrite json_image_plain; [done|].
    split; [apply (bool_decide_unpack _); by vm_compute|].
    repeat constructor; cbn; [by apply truthy_not_undef|done]. }
  by rewrite Hnew.
Qed.

End Dashboard.

Lemma added_course_on_dashboard_witness :
  ∃ cs r0 r1,
    dashboard (js "b@x.com") physics_student =
      (Ret r0, after_load users_json physics_student)
    ∧ status r0 = 200 ∧ prop (body r0) (js "courses") = VArr cs
    ∧ dashboard (js "b@x.com") (enrolled "b@x.com" "Math" physics_student) =
        (Ret r1, enrolled "b@x.com" "Math" physics_student)
    ∧ status r1 = 200
    ∧ prop (body r1) (js "courses")
      = VArr (map json_image cs
              ++ [VObj [(js "name",
                         json_image (field (course_body "Math") (js "name")));
                        (js "progress", VNum 0)]]).
Proof.
  apply (added_course_on_dashboard (js "b@x.com") (course_body "Math")
           physics_student (enrolled "b@x.com" "Math" physics_student)
           {| status := 201;
              body := VObj [(js "message", str "Course added");
                            (js "courses",
                             VArr [new_course (str "Physics");
                                   new_course (str "Math")])] |}).
  - vm_compute. reflexivity.
  - reflexivity.
Defined.

Lemma project_log_newest_first_witness :
  ∃ log r0 r1,
    dashboard (js "B@X.com") (logged "b@x.com" "Set up repo" "11/14/2023, 10:13:20 PM"
                                math_student) =
      (Ret r0, after_load users_json
                 (logged "b@x.com" "Set up repo" "11/14/2023, 10:13:20 PM" math_student))
    ∧ status r0 = 200 ∧ prop (body r0) (js "projectLog") = VArr log
    ∧ dashboard (js "B@X.com")
        (logged "B@X.com" "First commit" "11/15/2023, 9:00:00 AM"
           (logged "b@x.com" "Set up repo" "11/14/2023, 10:13:20 PM" math_student)) =
        (Ret r1,
         logged "B@X.com" "First commit" "11/15/2023, 9:00:00 AM"
           (logged "b@x.com" "Set up repo" "11/14/2023, 10:13:20 PM" math_student))
    ∧ status r1 = 200
    ∧ prop (body r1) (js "projectLog")
      = VArr (VObj [(js "text", json_image (field (log_body "First commit") (js "text")));
                    (js "time", VStr (js "11/15/2023, 9:00:00 AM"))]
              :: map json_image log).
Proof.
  apply (project_log_newest_first (js "B@X.com") (log_body "First commit")
           (js "11/15/2023, 9:00:00 AM")
           (logged "b@x.com" "Set up repo" "11/14/2023, 10:13:20 PM" math_student)
           (logged "B@X.com" "First commit" "11/15/2023, 9:00:00 AM"
              (logged "b@x.com" "Set up repo" "11/14/2023, 10:13:20 PM" math_student))
           {| status := 201;
              body := VObj [(js "message", str "Project update added");
                            (js "log",
                             VArr [log_entry (str "First commit")
                                     (js "11/15/2023, 9:00:00 AM");
                                   log_entry (str "Set up repo")
                                     (js "11/14/2023, 10:13:20 PM")])] |}).
  - vm_compute. reflexivity.
  - reflexivity.
Defined.

(** * The admin listing *)

Section AdminListing.
Context `{Engine}.

Lemma list_users_run (w : World) :
  list_users w =
    (Ret {| status := 200; body := users_of w |}, after_load users_json w).
Proof. unfold list_users. by rewrite bind_run, loadJson_run. Qed.

(** X18. Passwords are kept and shown as given: after an accepted
    signup the admin listing answers with the records it held before
    followed by the new one, whose password is the text of the request
    and whose status is pending. *)
Theorem signup_listed_with_password (b : value) (t : Z) (pw : jsstring)
    (w w' : World) (r : reply) :
  signup b t w = (Ret r, w') → status r = 201 →
  field b (js "password") = VStr pw →
  ∃ before u,
    list_users w =
      (Ret {| status := 200; body := VArr before |}, after_load users_json w)
    ∧ list_users w' =
        (Ret {| status := 200; body := VArr (map json_image before ++ [u]) |}, w')
    ∧ prop u (js "password") = VStr pw
    ∧ prop u (js "status") = str "pending".
Proof.
  intros Hrun Hst Hpw.
  destruct (signup_accepted _ _ _ _ _ Hrun Hst)
    as (Hb & us & Hus & _ & -> & _).
  destruct (new_user_image b t Hb) as (o & Ho & _ & _ & _ & Hpass & _ & Hstatus).
  exists us, (json_image (new_user b t)).
  split; [by rewrite list_users_run, Hus|]. split.
  - rewrite list_users_run.
    rewrite (users_of_put (VArr (us ++ [new_user b t]))) by done.
    rewrite (after_load_put users_json (VArr (us ++ [new_user b t]))) by done.
    by rewrite json_image_arr, map_app.
  - rewrite Ho. cbn [prop]. by rewrite Hpass, Hstatus, Hpw.
Qed.

End AdminListing.

Lemma signup_listed_with_password_witness :
  ∃ before u,
    list_users ada_pending =
      (Ret {| status := 200; body := VArr before |}, after_load users_json ada_pending)
    ∧ list_users (signed_up "b@x.com" ada_pending) =
        (Ret {| status := 200; body := VArr (map json_image before ++ [u]) |},
         signed_up "b@x.com" ada_pending)
    ∧ prop u (js "password") = VStr (js "pw")
    ∧ prop u (js "status") = str "pending".
Proof.
  apply (signup_listed_with_password (signup_body "b@x.com") 1700000000000 (js "pw")
           ada_pending (signed_up "b@x.com" ada_pending)
           {| status := 201;
              body := VObj [
                (js "message", str "Signup successful (pending approval)");
                (js "user", new_user (signup_body "b@x.com") 1700000000000)] |}).
  - vm_compute. reflexivity.
  - reflexivity.
  - reflexivity.
Defined.

(** * Uploaded file names *)

Lemma numchar_not_space (c : N) : is_numchar c = true → is_str_ws c = false.
Proof.
  unfold is_numchar, is_digit, is_str_ws. intros Hc.
  assert (Hrange : (43 <= c <= 101)%N).
  { repeat (apply orb_true_iff in Hc as [Hc|Hc]);
      try (apply N.eqb_eq in Hc; lia).
    apply andb_true_iff in Hc as [?%N.leb_le ?%N.leb_le]. lia. }
  repeat (apply orb_false_iff; split);
    try (apply N.eqb_neq; lia).
  apply andb_false_iff. left. apply N.leb_gt. lia.
Qed.

Lemma NumberToString_no_space (x : float) :
  Forall (fun c => is_str_ws c = false) (NumberToString x).
Proof.
  unfold NumberToString. destruct (Prim2SF x) as [s|[]| |[] m e].
  1-4: by repeat constructor.
  1-2: pose proof (float_digits_leading m e) as Hl;
       destruct (float_digits m e) as [ds n]; cbn [fst] in Hl;
       destruct (layout_number_body ds n Hl) as (Hchars & _).
  - constructor; [done|]. eapply Forall_impl; [exact Hchars|].
    apply numchar_not_space.
  - eapply Forall_impl; [exact Hchars|]. apply numchar_not_space.
Qed.

Lemma replace_spaces_from_no_space (in_run : bool) (s : jsstring) :
  Forall (fun c => is_str_ws c = false) (replace_spaces_from in_run s).
Proof.
  revert in_run. induction s as [|c s IH]; intros in_run; [constructor|].
  cbn [replace_spaces_from]. destruct (is_str_ws c) eqn:Hc.
  - destruct in_run; [apply IH|]. constructor; [done|apply IH].
  - by constructor.
Qed.

Lemma replace_spaces_from_clean (s : jsstring) :
  Forall (fun c => is_str_ws c = false) s → replace_spaces_from false s = s.
Proof.
  induction 1 as [|c s Hc _ IH]; [done|].
  cbn [replace_spaces_from]. by rewrite Hc, IH.
Qed.

(** X19. The name under which an upload is stored contains no white
    space, whatever the original name; an original name without white
    space is kept as it is behind the time stamp. *)
Theorem upload_filename_no_space (now : Z) (originalname : jsstring) :
  Forall (fun c => is_str_ws c = false) (upload_filename now originalname)
  ∧ (Forall (fun c => is_str_ws c = false) originalname →
     upload_filename now originalname
     = NumberToString (time_Number now) ++ 95%N :: originalname).
Proof.
  unfold upload_filename, replace_spaces. split.
  - apply Forall_app. split; [apply NumberToString_no_space|].
    constructor; [done|apply replace_spaces_from_no_space].
  - intros Hclean. by rewrite replace_spaces_from_clean.
Qed.

Lemma upload_filename_example :
  upload_filename 1700000000000 (js "my  first	video.mp4")
  = js "1700000000000_my_first_video.mp4".
Proof. vm_compute. reflexivity. Defined.

(** * Tests *)

Section Tests.
Context `{Engine}.

Lemma first_option_correct_image (x : value) :
  parsed x → first_option_correct x → first_option_correct (json_image x).
Proof.
  intros Hp (Hc & l & Hl & Hlen).
  assert (Hobj : is_object x = true) by by destruct x.
  split.
  - rewrite prop_image, Hc by done.
    change (json_image (VNum 0)) with (reread 0). apply reread_zero.
  - exists (map json_image l). rewrite prop_image, Hl by done.
    split; [done|]. by rewrite length_map.
Qed.

Lemma new_test_correct (b : value) (t : Z) :
  test_incomplete b = false → first_option_correct (json_image (new_test b t)).
Proof.
  intros Hb. unfold test_incomplete in Hb.
  repeat (apply orb_false_iff in Hb as [Hb ?]).
  destruct (field b (js "options")) as [| | | | |l|] eqn:Hopt; try done.
  repeat match goal with
         | H : negb (truthy _) = false |- _ =>
           apply negb_false_iff, truthy_not_undef in H
         end.
  assert (Hplain : ∃ o, new_test b t = VObj o ∧ plain o
            ∧ lookup_prop o (js "correctIndex") = Some (VNum 0)
            ∧ lookup_prop o (js "options") = Some (VArr l)).
  { unfold new_test, stamped. rewrite Hopt.
    generalize (NumberToString (time_Number t)). intros id.
    eexists. split; [reflexivity|]. split; [split|split; by vm_compute].
    - cbn [map fst]. apply (bool_decide_unpack _). by vm_compute.
    - by repeat constructor. }
  destruct Hplain as (o & -> & Hplain & Hc & Ho).
  split.
  - rewrite prop_image_plain, Hc by done.
    change (json_image (VNum 0)) with (reread 0). apply reread_zero.
  - exists (map json_image l). rewrite prop_image_plain, Ho by done.
    split; [done|]. rewrite length_map.
    cbn [shorter_than] in *. apply Nat.ltb_ge. done.
Qed.

(** X20. The first option is always the correct one: every test of a
    collection grown by the API has [correctIndex] 0, whatever the
    requests said, and at least two options. *)
Theorem served_tests_first_option_correct (qs : list request) (w : World) :
  stored tests_json (VArr []) w = VArr [] →
  ∃ items, stored tests_json (VArr []) (serve qs w) = VArr items
           ∧ Forall first_option_correct items.
Proof.
  intros Hw. induction qs as [|q qs IH] using rev_ind; [exists []; by split|].
  destruct IH as (items & Hitems & Hc). rewrite serve_snoc.
  assert (Hne : tests_json ≠ users_json) by by vm_compute.
  destruct (handle_collection q tests_json (serve qs w) Hne)
    as [->|(item & items' & Hq & Hitems' & ->)]; [by exists items|].
  rewrite Hitems in Hitems'. injection Hitems' as <-.
  eexists. split; [reflexivity|].
  pose proof (stored_parsed_list _ _ _ Hitems) as Hp.
  rewrite map_app. apply Forall_app. split.
  - apply Forall_map. rewrite Forall_forall in *. intros x Hx.
    apply first_option_correct_image; auto.
  - constructor; [|constructor].
    destruct q as [b t|b| |e b|e|e b|e b|e b lt|c|b t|c|b t|b t|c|b t t'|c]; try done;
      cbn [appended] in Hq.
    + destruct (_ || _); [done|]. injection Hq as Hname _.
      by vm_compute in Hname.
    + destruct (test_incomplete b) eqn:Hb; [done|]. injection Hq as <-.
      by apply new_test_correct.
    + destruct (result_incomplete _); [done|].
      destruct (ToNumber _); [|done]. destruct (ToNumber _); [|done].
      injection Hq as Hname _. by vm_compute in Hname.
    + destruct (question_incomplete _); [done|]. injection Hq as Hname _.
      by vm_compute in Hname.
Qed.

End Tests.

Lemma served_tests_first_option_correct_witness :
  ∃ items, stored tests_json (VArr []) (serve exam_day empty_world) = VArr items
           ∧ Forall first_option_correct items.
Proof. apply served_tests_first_option_correct. reflexivity. Defined.

(** * What a document keeps *)

(** X21. Whatever is saved can be loaded: after [saveJson] of any value
    but [undefined], [loadJson] never falls back and never logs; it
    returns the value as JSON keeps it, without [undefined], NaN or an
    infinity inside, and with distinct property names. *)
Theorem save_then_load_image (name : jsstring) (v fallback : value) (w : World) :
  v ≠ VUndef →
  ∃ w', saveJson name v w = (Ret tt, w')
        ∧ loadJson name fallback w' = (Ret (json_image v), w')
        ∧ parsed (json_image v).
Proof.
  intros Hv. exists (put name (ser 0 v) w).
  split; [by apply saveJson_spec|]. split; [|apply json_image_parsed].
  apply loadJson_put. apply JSON_parse_stringify. by destruct v.
Qed.

Lemma save_then_load_image_witness :
  ∃ w', saveJson users_json lossy_record empty_world = (Ret tt, w')
        ∧ loadJson users_json (VArr []) w' =
            (Ret (VObj [(js "score", VNull); (js "best", VNull);
                        (js "name", str "Ada")]), w')
        ∧ parsed (VObj [(js "score", VNull); (js "best", VNull);
                        (js "name", str "Ada")]).
Proof.
  apply (save_then_load_image users_json lossy_record (VArr []) empty_world).
  discriminate.
Defined.

(** * A user whose email is no string *)

Section PoisonedUsers.
Context `{Engine}.

Lemma same_email_throws (email u : value) :
  email_of u = None → same_email email u = Throw TypeError.
Proof. intros Hu. rewrite same_email_spec. by rewrite Hu. Qed.

Lemma has_email_throws (e : jsstring) (u : value) :
  email_of u = None → has_email e u = Throw TypeError.
Proof. intros Hu. rewrite has_email_spec. by rewrite Hu. Qed.

Lemma new_user_no_email (b : value) (t : Z) :
  signup_incomplete b = false → (∀ s, field b (js "email") ≠ VStr s) →
  email_of (json_image (new_user b t)) = None.
Proof.
  intros Hb Hemail. destruct (new_user_image b t Hb) as (o & -> & _ & _ & He & _).
  unfold email_of. rewrite He.
  destruct (json_image (field b (js "email"))) as [| | | |s| |] eqn:Hs; try done.
  apply (proj1 (json_image_str _ _)) in Hs. destruct (Hemail s Hs).
Qed.

(** X22. A signup whose email is not a string (a number, an array...)
    is accepted when the users collection is empty, and the record it
    stores makes every later complete signup, every complete login and
    every dashboard request fail with an exception. *)
Theorem non_string_email_poisons_users (b : value) (t : Z) (w : World) :
  users_of w = VArr [] →
  signup_incomplete b = false →
  (∀ s, field b (js "email") ≠ VStr s) →
  ∃ w', signup b t w =
          (Ret {| status := 201;
                  body := VObj [
                    (js "message", str "Signup successful (pending approval)");
                    (js "user", new_user b t)] |}, w')
        ∧ (∀ b' t', signup_incomplete b' = false →
                    signup b' t' w' = (Throw TypeError, w'))
        ∧ (∀ l, truthy (field l (js "email")) = true →
                truthy (field l (js "password")) = true →
                truthy (field l (js "role")) = true →
                login l w' = (Throw TypeError, w'))
        ∧ (∀ e, dashboard e w' = (Throw TypeError, w')).
Proof.
  intros Hus Hb Hemail.
  exists (put users_json (ser 0 (VArr [new_user b t])) (after_load users_json w)).
  assert (Hus' : users_of (put users_json (ser 0 (VArr [new_user b t]))
                            (after_load users_json w))
                 = VArr [json_image (new_user b t)]).
  { rewrite (users_of_put (VArr [new_user b t])) by discriminate.
    apply json_image_arr. }
  assert (Hload : ∀ w0, after_load users_json
                          (put users_json (ser 0 (VArr [new_user b t])) w0)
                        = put users_json (ser 0 (VArr [new_user b t])) w0).
  { intros w0. apply (after_load_put users_json (VArr [new_user b t])).
    discriminate. }
  pose proof (new_user_no_email b t Hb Hemail) as Hnone.
  split; [by rewrite signup_run, Hb, Hus|]. split; [|split].
  - intros b' t' Hb'. rewrite signup_run, Hb', Hus'. cbn [Array_find find_from].
    by rewrite same_email_throws, Hload.
  - intros l He Hp Hr. rewrite login_run, He, Hp, Hr, Hus'.
    cbn [negb orb Array_find find_from]. unfold credentials_match.
    by rewrite same_email_throws, Hload.
  - intros e. unfold dashboard. rewrite bind_run, loadJson_run.
    fold (users_of (put users_json (ser 0 (VArr [new_user b t]))
                      (after_load users_json w))).
    rewrite Hus', Hload, bind_run, lift_run. cbn [Array_find find_from].
    by rewrite has_email_throws.
Qed.

End PoisonedUsers.

Lemma non_string_email_poisons_users_witness :
  ∃ w', signup numeric_signup 1700000000000 empty_world =
          (Ret {| status := 201;
                  body := VObj [
                    (js "message", str "Signup successful (pending approval)");
                    (js "user", new_user numeric_signup 1700000000000)] |}, w')
        ∧ (∀ b' t', signup_incomplete b' = false →
                    signup b' t' w' = (Throw TypeError, w'))
        ∧ (∀ l, truthy (field l (js "email")) = true →
                truthy (field l (js "password")) = true →
                truthy (field l (js "role")) = true →
                login l w' = (Throw TypeError, w'))
        ∧ (∀ e, dashboard e w' = (Throw TypeError, w')).
Proof.
  apply non_string_email_poisons_users.
  - reflexivity.
  - reflexivity.
  - intros s Hs. vm_compute in Hs. discriminate.
Defined.

(** * Status updates and new accounts *)

Section Accounts.
Context `{Engine}.

Lemma same_has_email (e : jsstring) (u : value) :
  same_email (VStr e) u = has_email (toLowerCase e) u.
Proof. by rewrite same_email_spec, has_email_spec. Qed.

Lemma rejects_same_has (e : jsstring) (us : list value) :
  rejects (same_email (VStr e)) us → rejects (has_email (toLowerCase e)) us.
Proof.
  unfold rejects. intros Hr. eapply Forall_impl; [exact Hr|].
  intros u Hu. by rewrite <- same_has_email.
Qed.

Lemma student_at (e : jsstring) (w : World) (l1 l2 : list value) (u : value) :
  users_of w = VArr (l1 ++ u :: l2) →
  rejects (has_email (toLowerCase e)) l1 →
  has_email (toLowerCase e) u = Ret true →
  student e w = Some u.
Proof.
  intros Hus Hrej Hhit. unfold student. rewrite Hus. cbn [Array_findIndex].
  rewrite findIndex_from_hit by done. cbn [Nat.add Array_get].
  by rewrite lookup_middle.
Qed.

(** X23. An accepted status update sets the status of the first user
    whose email is the route parameter up to case, and leaves the
    sequence of emails of the collection as it was. *)
Theorem status_update_applies (e : jsstring) (b : value) (w w' : World)
    (r : reply) :
  patch_status e b w = (Ret r, w') → status r = 200 →
  ∃ us us' u,
    users_of w = VArr us ∧ users_of w' = VArr us'
    ∧ map email_of us' = map email_of us
    ∧ student e w' = Some u
    ∧ prop u (js "status") = field b (js "status").
Proof.
  intros Hrun Hst.
  destruct (patch_status_accepted _ _ _ _ _ Hrun Hst)
    as (l1 & o & l2 & s & Hus & Hrej & Hhit & Hs & _ & ->).
  apply rejects_same_has in Hrej. rewrite same_has_email in Hhit.
  destruct (student_saved (toLowerCase e) w (after_load users_json w) l1 l2 o
              (js "status") (VStr s))
    as (Hus' & Hrej' & Hhit'); [done..|].
  exists (l1 ++ VObj o :: l2). eexists. eexists.
  split; [done|]. split; [exact Hus'|]. split; [|split].
  - pose proof (users_of_parsed_list _ _ Hus) as Hp.
    assert (Hpl : plain (obj_set o (js "status") (VStr s))).
    { apply plain_set; [|done]. apply parsed_plain.
      by apply Forall_app in Hp as [_ [? _]%Forall_cons]. }
    rewrite <- (json_image_plain _ Hpl).
    change (map json_image l1 ++ json_image (VObj (obj_set o (js "status") (VStr s)))
              :: map json_image l2)
      with (map json_image l1
            ++ map json_image (VObj (obj_set o (js "status") (VStr s)) :: l2)).
    rewrite <- map_app. by apply emails_set_image.
  - by apply (student_at e _ _ _ _ Hus' Hrej' Hhit').
  - cbn [prop]. rewrite lookup_image_prop, lookup_obj_set.
    by rewrite bool_decide_eq_true_2, Hs.
Qed.

(** X24. A new account starts with an empty dashboard: after an
    accepted signup with the email [e], the dashboard asked under any
    spelling of [e] answers 200 with no course and no project log. *)
Theorem new_account_dashboard_empty (b : value) (t : Z) (e e' : jsstring)
    (w w' : World) (r : reply) :
  signup b t w = (Ret r, w') → status r = 201 →
  field b (js "email") = VStr e →
  toLowerCase e' = toLowerCase e →
  dashboard e' w' =
    (Ret {| status := 200;
            body := VObj [(js "courses", VArr []); (js "projectLog", VArr [])] |},
     w').
Proof.
  intros Hrun Hst He Hcase.
  destruct (signup_accepted _ _ _ _ _ Hrun Hst)
    as (Hb & us & Hus & Hrej & -> & _).
  rewrite He in Hrej. apply rejects_same_has in Hrej. rewrite <- Hcase in Hrej.
  pose proof (users_of_parsed_list _ _ Hus) as Hp.
  destruct (new_user_plain b t Hb) as (o & Ho & Hplain & _).
  assert (Hc : lookup_prop o (js "courses") = Some (VArr [])
               ∧ lookup_prop o (js "projectLog") = Some (VArr [])).
  { unfold new_user in Ho. injection Ho as <-. split; by vm_compute. }
  destruct Hc as [Hc Hl].
  assert (Hus' : users_of (put users_json (ser 0 (VArr (us ++ [new_user b t])))
                            (after_load users_json w))
                 = VArr (map json_image us ++ VObj (map image_prop o) :: [])).
  { rewrite (users_of_put (VArr (us ++ [new_user b t]))) by discriminate.
    rewrite json_image_arr, map_app. cbn [map].
    by rewrite Ho, json_image_plain. }
  rewrite (dashboard_at e' _ _ _ _ Hus').
  - rewrite (after_load_put users_json (VArr (us ++ [new_user b t])))
      by discriminate.
    unfold course_list, log_list. by rewrite !lookup_image_prop, Hc, Hl.
  - by apply rejects_has_email_image.
  - rewrite has_email_spec. rewrite <- json_image_plain, <- Ho by done.
    rewrite (new_user_email b t e) by done. by rewrite bool_decide_eq_true_2.
Qed.

End Accounts.

Lemma status_update_applies_witness :
  ∃ us us' u,
    users_of ada_pending = VArr us ∧ users_of ada_approved = VArr us'
    ∧ map email_of us' = map email_of us
    ∧ student (js "a@x.com") ada_approved = Some u
    ∧ prop u (js "status") = field approve (js "status").
Proof.
  apply (status_update_applies (js "a@x.com") approve ada_pending ada_approved
           {| status := 200;
              body := VObj [(js "message", str "Status updated");
                            (js "user",
                             VObj [(js "name", str "Ada"); (js "email", str "A@X.com");
                                   (js "phone", str "555"); (js "password", str "pw");
                                   (js "role", str "student");
                                   (js "courseType", VNull);
                                   (js "status", str "approved");
                                   (js "createdAt", str "2023-11-14T22:13:20.000Z");
                                   (js "courses", VArr []);
                                   (js "projectLog", VArr []);
                                   (js "profile", VObj [])])] |}).
  - vm_compute. reflexivity.
  - reflexivity.
Defined.

Lemma new_account_dashboard_empty_witness :
  dashboard (js "a@x.COM") ada_pending =
    (Ret {| status := 200;
            body := VObj [(js "courses", VArr []); (js "projectLog", VArr [])] |},
     ada_pending).
Proof.
  apply (new_account_dashboard_empty (signup_body "A@X.com") 1700000000000
           (js "A@X.com") (js "a@x.COM") empty_world ada_pending
           {| status := 201;
              body := VObj [
                (js "message", str "Signup successful (pending approval)");
                (js "user", new_user (signup_body "A@X.com") 1700000000000)] |}).
  - vm_compute. reflexivity.
  - reflexivity.
  - reflexivity.
  - vm_compute. reflexivity.
Defined.

(** * Results *)

Section Results.
Context `{Engine}.

Lemma numeric_image (x : value) : numeric x → numeric (json_image x).
Proof.
  intros [[y ->] | ->]; [|by right].
  change (json_image (VNum y)) with (reread y). unfold reread.
  destruct (PrimFloat.is_finite y); [destruct (json_number _)|];
    (by right) || (left; by eexists).
Qed.

Lemma scored_image (x : value) : parsed x → scored x → scored (json_image x).
Proof.
  intros Hp [Hs Ht].
  assert (Hobj : is_object x = true).
  { destruct x; try done; by destruct Hs as [[? ?]|?]. }
  split; rewrite prop_image by done.
  - destruct (prop x (js "score")) eqn:Hx; try by apply numeric_image.
    by destruct Hs as [[? ?]|?].
  - destruct (prop x (js "total")) eqn:Hx; try by apply numeric_image.
    by destruct Ht as [[? ?]|?].
Qed.

Lemma new_result_scored (b : value) (score total : float) (t : Z) :
  result_incomplete b = false →
  scored (json_image (new_result b score total t)).
Proof.
  intros Hb. unfold result_incomplete in Hb.
  repeat (apply orb_false_iff in Hb as [Hb ?]).
  repeat match goal with
         | H : negb (truthy _) = false |- _ =>
           apply negb_false_iff, truthy_not_undef in H
         end.
  assert (Hplain : ∃ o, new_result b score total t = VObj o ∧ plain o
            ∧ lookup_prop o (js "score") = Some (VNum score)
            ∧ lookup_prop o (js "total") = Some (VNum total)).
  { unfold new_result. generalize (toISOString t). intros created.
    eexists. split; [reflexivity|]. split; [split|split; by vm_compute].
    - cbn [map fst]. apply (bool_decide_unpack _). by vm_compute.
    - repeat constructor; cbn [snd]; try done.
      unfold js_or. destruct (truthy _) eqn:Ht; [by apply truthy_not_undef|done]. }
  destruct Hplain as (o & -> & Hplain & Hs & Ht).
  split; rewrite prop_image_plain by done.
  - rewrite Hs. apply numeric_image. left. by eexists.
  - rewrite Ht. apply numeric_image. left. by eexists.
Qed.

(** X25. Scores are stored as numbers: every result of a collection
    grown by the API has a score and a total that are Numbers or
    [null], whatever the requests sent (a text is converted by
    [Number], and what is not a finite number is written as [null]). *)
Theorem served_results_numeric (qs : list request) (w : World) :
  stored testResults_json (VArr []) w = VArr [] →
  ∃ items, stored testResults_json (VArr []) (serve qs w) = VArr items
           ∧ Forall scored items.
Proof.
  intros Hw. induction qs as [|q qs IH] using rev_ind; [exists []; by split|].
  destruct IH as (items & Hitems & Hc). rewrite serve_snoc.
  assert (Hne : testResults_json ≠ users_json) by by vm_compute.
  destruct (handle_collection q testResults_json (serve qs w) Hne)
    as [->|(item & items' & Hq & Hitems' & ->)]; [by exists items|].
  rewrite Hitems in Hitems'. injection Hitems' as <-.
  eexists. split; [reflexivity|].
  pose proof (stored_parsed_list _ _ _ Hitems) as Hp.
  rewrite map_app. apply Forall_app. split.
  - apply Forall_map. rewrite Forall_forall in *. intros x Hx.
    apply scored_image; auto.
  - constructor; [|constructor].
    destruct q as [b t|b| |e b|e|e b|e b|e b lt|c|b t|c|b t|b t|c|b t t'|c];
      try done; cbn [appended] in Hq.
    + destruct (_ || _); [done|]. injection Hq as Hname _.
      by vm_compute in Hname.
    + destruct (test_incomplete _); [done|]. injection Hq as Hname _.
      by vm_compute in Hname.
    + destruct (result_incomplete b) eqn:Hb; [done|].
      destruct (ToNumber _) as [score|]; [|done].
      destruct (ToNumber _) as [total|]; [|done].
      injection Hq as <-. by apply new_result_scored.
    + destruct (question_incomplete _); [done|]. injection Hq as Hname _.
      by vm_compute in Hname.
Qed.

End Results.

Lemma served_results_numeric_witness :
  ∃ items, stored testResults_json (VArr []) (serve marking empty_world) = VArr items
           ∧ Forall scored items.
Proof. apply served_results_numeric. reflexivity. Defined.

